(** * Catrix: the timed test runner and the question partitioner

    A shallow embedding of [index.tsx]: the [TestRunner] component (the
    session engine: countdown, answer buffer, cursor, submission) and the
    parts of [App] that build tests from the question catalog
    ([processQuestions], [startPyqTest], [handlePracticeQuestion] and the
    practice view's solve button); then the sign-in form ([AuthPage]), the
    handlers of [App] for the user and the statistics, and the page as a
    whole over the browser's storage.

    Conventions.
    - A JavaScript [number] that the code only uses as a whole number is a
      [Z] (option indices, seconds) or a [nat] (array positions, counters).
    - An optional property [p?: T] is an [option T]; [None] is [undefined].
    - A React state variable is a field of the component's state record; a
      [setX(v)] is a functional update of that field.  Handlers and effects
      are closures of a render and read the state variables as that render
      had them.  Where an update can wait for its render (it is made by a
      timer, by an effect or after an [await]), the render on screen is
      kept apart from the current values; elsewhere every update is
      rendered before the next event and a handler reads the current
      record.
    - A call that waits in a timer outlives the component that made it: it
      is kept with what its closure holds. *)

From Stdlib Require Import ZArith NArith Lia.
From Stdlib Require Import OrderedTypeEx.
From stdpp Require Import base list strings pretty sorting gmap.

(** ** Data model ([index.tsx], lines 39-60) *)

Inductive Category := Quant | VARC | DILR.

#[global] Instance Category_eq_dec : EqDecision Category.
Proof. solve_decision. Defined.

Inductive TestType := MOCK | PYQ | PRACTICE.

Module Question.
Record t := mk {
  id : string;
  text : string;
  passage : option string;
  options : list string;
  correctAnswer : Z;
  explanation : option string;
  category : Category;
  isPremium : option bool;
  year : option string;
  slot : option string
}.
End Question.
Abbreviation Question := Question.t.

#[global] Instance Question_eq_dec : EqDecision Question.
Proof. solve_decision. Defined.

Module Test.
Record t := mk {
  id : string;
  title : string;
  durationMinutes : Z;
  questions : list Question;
  type : option TestType
}.
End Test.
Abbreviation Test := Test.t.

(** ** JavaScript arrays of numbers

    The answer buffer is a [number[]].  A slot is [Some n] for the number
    [n] and [None] for a hole (reading it gives [undefined]). *)

Abbreviation slots := (list (option Z)).

(** [new Array(n).fill(v)]. *)
Definition Array_fill (n : nat) (v : Z) : slots := replicate n (Some v).

(** [a[i]]: [undefined] beyond the end and at a hole. *)
Definition array_get (a : slots) (i : nat) : option Z := mjoin (a !! i).

(** [a[i] = v] on a copy of [a]: in range the slot is replaced; beyond the
    end JavaScript extends the array, leaving holes in between. *)
Definition array_set (a : slots) (i : nat) (v : Z) : slots :=
  if decide (i < length a) then <[i := Some v]> a
  else a ++ replicate (i - length a) None ++ [Some v].

(** [x === n] for a number [n]: never true of [undefined]. *)
Definition strict_eq (x : option Z) (n : Z) : bool :=
  match x with
  | Some m => bool_decide (m = n)
  | None => false
  end.

(** ** The test runner ([TestRunner], lines 305-564) *)

Module TestRunner.

(** What a render fixes for the closures it creates.  The handlers and the
    effects of a render read the state variables as constants of that
    render (lines 319-365).  [currentQ], [answers] and [showPalette] are
    written by click handlers only, whose updates React renders before the
    next event, so the render on screen always has their current values;
    [timeLeft], [isSubmitting] and [showConfirmModal] are also written
    outside click handlers (by the interval's callback, by [handleSubmit]
    run from the timer effect and by [handleSubmit] after its [await]),
    and such an update is rendered later, in a turn of the event loop of
    its own. *)
Record Render := mkRender {
  seen_timeLeft : Z;
  seen_isSubmitting : bool;
  seen_showConfirmModal : bool
}.

(** The component's state (lines 306-314): the current value of each state
    variable, which is what the next render will read, and the ref; the
    render on screen; the render whose timer effect (lines 349-359) is
    committed but has not run yet; and what the environment holds for the
    component: whether the interval of the timer effect is set, the scores
    of the [handleSubmit] calls that wait in their 1500 ms delay, the calls
    of [onFinish] made so far, and the lines written by [console.error]. *)
Record Attempt := mkAttempt {
  currentQ : nat;
  answers : slots;
  timeLeft : Z;
  showPalette : bool;
  isSubmitting : bool;
  showConfirmModal : bool;
  answersRef : slots;
  interval : bool;
  pending : list nat;
  emitted : list (nat * nat);
  console : list string;
  screen : Render;
  effect : option Render
}.

Definition setCurrentQ (v : nat) (a : Attempt) : Attempt :=
  mkAttempt v (answers a) (timeLeft a) (showPalette a) (isSubmitting a)
    (showConfirmModal a) (answersRef a) (interval a) (pending a) (emitted a)
    (console a) (screen a) (effect a).
Definition setAnswers (v : slots) (a : Attempt) : Attempt :=
  mkAttempt (currentQ a) v (timeLeft a) (showPalette a) (isSubmitting a)
    (showConfirmModal a) (answersRef a) (interval a) (pending a) (emitted a)
    (console a) (screen a) (effect a).
Definition setTimeLeft (v : Z) (a : Attempt) : Attempt :=
  mkAttempt (currentQ a) (answers a) v (showPalette a) (isSubmitting a)
    (showConfirmModal a) (answersRef a) (interval a) (pending a) (emitted a)
    (console a) (screen a) (effect a).
Definition setShowPalette (v : bool) (a : Attempt) : Attempt :=
  mkAttempt (currentQ a) (answers a) (timeLeft a) v (isSubmitting a)
    (showConfirmModal a) (answersRef a) (interval a) (pending a) (emitted a)
    (console a) (screen a) (effect a).
Definition setIsSubmitting (v : bool) (a : Attempt) : Attempt :=
  mkAttempt (currentQ a) (answers a) (timeLeft a) (showPalette a) v
    (showConfirmModal a) (answersRef a) (interval a) (pending a) (emitted a)
    (console a) (screen a) (effect a).
Definition setShowConfirmModal (v : bool) (a : Attempt) : Attempt :=
  mkAttempt (currentQ a) (answers a) (timeLeft a) (showPalette a)
    (isSubmitting a) v (answersRef a) (interval a) (pending a) (emitted a)
    (console a) (screen a) (effect a).
Definition setAnswersRef (v : slots) (a : Attempt) : Attempt :=
  mkAttempt (currentQ a) (answers a) (timeLeft a) (showPalette a)
    (isSubmitting a) (showConfirmModal a) v (interval a) (pending a)
    (emitted a) (console a) (screen a) (effect a).
Definition setIntervalLive (v : bool) (a : Attempt) : Attempt :=
  mkAttempt (currentQ a) (answers a) (timeLeft a) (showPalette a)
    (isSubmitting a) (showConfirmModal a) (answersRef a) v (pending a)
    (emitted a) (console a) (screen a) (effect a).
Definition setPending (v : list nat) (a : Attempt) : Attempt :=
  mkAttempt (currentQ a) (answers a) (timeLeft a) (showPalette a)
    (isSubmitting a) (showConfirmModal a) (answersRef a) (interval a) v
    (emitted a) (console a) (screen a) (effect a).
Definition setEmitted (v : list (nat * nat)) (a : Attempt) : Attempt :=
  mkAttempt (currentQ a) (answers a) (timeLeft a) (showPalette a)
    (isSubmitting a) (showConfirmModal a) (answersRef a) (interval a)
    (pending a) v (console a) (screen a) (effect a).
Definition setConsole (v : list string) (a : Attempt) : Attempt :=
  mkAttempt (currentQ a) (answers a) (timeLeft a) (showPalette a)
    (isSubmitting a) (showConfirmModal a) (answersRef a) (interval a)
    (pending a) (emitted a) v (screen a) (effect a).
Definition setScreen (v : Render) (a : Attempt) : Attempt :=
  mkAttempt (currentQ a) (answers a) (timeLeft a) (showPalette a)
    (isSubmitting a) (showConfirmModal a) (answersRef a) (interval a)
    (pending a) (emitted a) (console a) v (effect a).
Definition setEffect (v : option Render) (a : Attempt) : Attempt :=
  mkAttempt (currentQ a) (answers a) (timeLeft a) (showPalette a)
    (isSubmitting a) (showConfirmModal a) (answersRef a) (interval a)
    (pending a) (emitted a) (console a) (screen a) v.

(** An update made in a click handler is rendered at once, on top of the
    render on screen: updates of other variables that wait for a later
    render are not part of that render. *)
Definition shown_setIsSubmitting (v : bool) (a : Attempt) : Attempt :=
  setScreen
    (mkRender (seen_timeLeft (screen a)) v (seen_showConfirmModal (screen a)))
    (setIsSubmitting v a).
Definition shown_setShowConfirmModal (v : bool) (a : Attempt) : Attempt :=
  setScreen
    (mkRender (seen_timeLeft (screen a)) (seen_isSubmitting (screen a)) v)
    (setShowConfirmModal v a).

(** The loop of lines 326-330: [test.questions.forEach((q, idx) => ...)]
    with the running [score]. *)
Fixpoint forEach_score (qs : list Question) (idx : nat)
    (finalAnswers : slots) (score : nat) : nat :=
  match qs with
  | [] => score
  | q :: rest =>
      forEach_score rest (S idx) finalAnswers
        (if strict_eq (array_get finalAnswers idx) (Question.correctAnswer q)
         then S score else score)
  end.

(** [handleSubmit] of the render [r], up to its [await] (lines 319-333):
    the guard on the [isSubmitting] of that render, the two state updates,
    and the score computed from [answersRef.current]; the score then waits
    for the delay.  [in_click] says whether the call comes from a click
    handler, whose updates are rendered at once.  Nothing in the [try]
    block throws on values of the declared types, so the [catch] branch is
    not modelled. *)
Definition handleSubmit_of (r : Render) (in_click : bool) (test : Test)
    (a : Attempt) : Attempt :=
  if seen_isSubmitting r then a
  else
    let score := forEach_score (Test.questions test) 0 (answersRef a) 0 in
    let a :=
      if in_click
      then shown_setShowConfirmModal false (shown_setIsSubmitting true a)
      else setShowConfirmModal false (setIsSubmitting true a) in
    setPending (pending a ++ [score]) a.

(** [handleSubmit] as the Submit Now button calls it (line 412): the
    [handleSubmit] of the render on screen, in a click. *)
Definition handleSubmit (test : Test) (a : Attempt) : Attempt :=
  handleSubmit_of (screen a) true test a.

(** [handleSubmit] after its [await] (lines 335-341), for the oldest
    waiting call.  [onFinish] says whether [typeof onFinish === 'function'];
    the call [onFinish(score, test.questions.length)] is recorded, and is
    taken to return.  [setIsSubmitting(false)] is an update outside a click
    handler.  In the app the callback is [handleTestComplete], which
    unmounts the runner; the model lets events go on after it, which only
    adds behaviours. *)
Definition handleSubmit_resume (onFinish : bool) (test : Test) (a : Attempt)
    : Attempt :=
  match pending a with
  | [] => a
  | score :: rest =>
      if onFinish then
        setEmitted (emitted a ++ [(score, length (Test.questions test))])
          (setPending rest a)
      else
        setIsSubmitting false
          (setConsole (console a ++ ["onFinish prop missing"])
             (setPending rest a))
  end.

(** The timer effect of the render [r] (lines 349-359), with the cleanup
    of the effect before it: the earlier interval is cleared; at zero
    [handleSubmit] of [r] is called and no interval is set, otherwise a
    fresh one-second interval is set. *)
Definition timer_effect (r : Render) (test : Test) (a : Attempt) : Attempt :=
  if (seen_timeLeft r =? 0)%Z
  then setIntervalLive false (handleSubmit_of r false test a)
  else setIntervalLive true a.

(** The effects that are committed and have not run yet are run: by the
    scheduler in a turn of its own, or by React before it renders
    again. *)
Definition flush (test : Test) (a : Attempt) : Attempt :=
  match effect a with
  | Some r => timer_effect r test (setEffect None a)
  | None => a
  end.

(** The render of the updates made outside click handlers, and its commit:
    the effects still waiting run first; the new render reads the current
    state; its timer effect is committed when [timeLeft] is not the one of
    the render before (the dependency list of line 359), and runs later. *)
Definition commit (test : Test) (a : Attempt) : Attempt :=
  let a := flush test a in
  let r := mkRender (timeLeft a) (isSubmitting a) (showConfirmModal a) in
  setEffect
    (if (timeLeft a =? seen_timeLeft (screen a))%Z then None else Some r)
    (setScreen r a).

(** The interval's callback [setTimeLeft(t => t - 1)] (line 356).  An
    interval fires a second after it was set, and the render of a tick and
    its effects, which clear that interval, come well within the second:
    the model has no callback while a tick waits for its render or an
    effect waits to run, nor without a live interval. *)
Definition tick (a : Attempt) : Attempt :=
  match effect a with
  | Some _ => a
  | None =>
      if interval a && (timeLeft a =? seen_timeLeft (screen a))%Z
      then setTimeLeft (timeLeft a - 1) a
      else a
  end.

(** The effect of lines 315-317, run after a render in which [answers]
    changed. *)
Definition sync_answersRef (a : Attempt) : Attempt :=
  setAnswersRef (answers a) a.

(** [handleSelect] (lines 361-365). *)
Definition handleSelect (idx : Z) (a : Attempt) : Attempt :=
  setAnswers (array_set (answers a) (currentQ a) idx) a.

(** Mounting the component for [test]: the initial state of lines 306-314,
    the first render, and its effects.  The runner is mounted by a click
    (lines 863, 947, 980), so the effects of the first render run with its
    commit. *)
Definition start (test : Test) : Attempt :=
  let initial := Array_fill (length (Test.questions test)) (-1) in
  let r := mkRender (Test.durationMinutes test * 60) false false in
  timer_effect r test
    {| currentQ := 0;
       answers := initial;
       timeLeft := Test.durationMinutes test * 60;
       showPalette := false;
       isSubmitting := false;
       showConfirmModal := false;
       answersRef := initial;
       interval := false;
       pending := [];
       emitted := [];
       console := [];
       screen := r;
       effect := None |}.

(** What can happen to a mounted runner: the interval's callback, the
    render of the updates that wait for one, the run of the effects that
    wait, the end of a submit's delay, and the controls the component
    renders. *)
Inductive Event :=
| Tick
| Commit
| RunEffects
| DelayElapsed
| ClickOption (idx : nat)
| ClickPaletteItem (idx : nat)
| ClickOpenPalette
| ClickClosePalette
| ClickPrevious
| ClickNext
| ClickSubmitTest
| ClickModalCancel
| ClickSubmitNow.

(** The handler of a control (lines 405-558), as the render on screen made
    it.  A control that the render on screen does not have, or has
    [disabled], delivers nothing ([None]).  The overlay shown while
    submitting is not taken into account: the model allows the clicks it
    would swallow. *)
Definition click (test : Test) (q : Question) (e : Event) (a : Attempt)
    : option Attempt :=
  match e with
  | ClickOption idx =>
      if decide (idx < length (Question.options q))
      then Some (handleSelect (Z.of_nat idx) a) else None
  | ClickPaletteItem idx =>
      if decide (idx < length (Test.questions test))
      then Some (setShowPalette false (setCurrentQ idx a)) else None
  | ClickOpenPalette => Some (setShowPalette true a)
  | ClickClosePalette => Some (setShowPalette false a)
  | ClickPrevious =>
      if decide (currentQ a = 0) then None
      else Some (setCurrentQ (currentQ a - 1) a)
  | ClickNext =>
      if seen_isSubmitting (screen a) then None
      else if (Z.of_nat (currentQ a)
               <? Z.of_nat (length (Test.questions test)) - 1)%Z
      then Some (setCurrentQ (currentQ a + 1) a)
      else Some (shown_setShowConfirmModal true a)
  | ClickSubmitTest =>
      if seen_isSubmitting (screen a) then None
      else Some (shown_setShowConfirmModal true a)
  | ClickModalCancel =>
      if seen_showConfirmModal (screen a)
      then Some (shown_setShowConfirmModal false a) else None
  | ClickSubmitNow =>
      if seen_showConfirmModal (screen a)
      then Some (handleSubmit test a) else None
  | Tick | Commit | RunEffects | DelayElapsed => None
  end.

(** One event.  When [test.questions[currentQ]] is undefined the component
    renders only an error line (line 375), so no control exists; the
    timers run all the same.  After a click handler React renders at once:
    it first runs the effects that are still waiting, and after the commit
    the effects of the new render, of which only the one of the ref can be
    due.  (When a handler updates nothing React does not render, and the
    waiting effects run a moment later, which is this step followed by
    nothing.) *)
Definition step (onFinish : bool) (test : Test) (a : Attempt) (e : Event)
    : Attempt :=
  match e with
  | Tick => tick a
  | Commit => commit test a
  | RunEffects => flush test a
  | DelayElapsed => handleSubmit_resume onFinish test a
  | _ =>
      match Test.questions test !! currentQ a with
      | None => a
      | Some q =>
          match click test q e a with
          | Some a' => sync_answersRef (flush test a')
          | None => a
          end
      end
  end.

Definition run (onFinish : bool) (test : Test) (es : list Event)
    (a : Attempt) : Attempt :=
  foldl (step onFinish test) a es.

(** One second of the countdown with nothing else going on: the
    interval's callback, the render of the new [timeLeft], and the run of
    its effect. *)
Definition second : list Event := [Tick; Commit; RunEffects].

Definition seconds (k : nat) : list Event := concat (replicate k second).

(** The spec's submission status, read off the state: [Finished] once a
    score has been handed to [onFinish], [Submitting] while the flag
    [isSubmitting] is set, [Running] otherwise. *)
Inductive Status := Running | Submitting | Finished.

Definition status (a : Attempt) : Status :=
  match emitted a with
  | _ :: _ => Finished
  | [] => if isSubmitting a then Submitting else Running
  end.

(** Whether the answer at position [i] is the correct one of question [i]. *)
Definition correct_at (test : Test) (finalAnswers : slots) (i : nat) : bool :=
  match Test.questions test !! i with
  | Some q => strict_eq (array_get finalAnswers i) (Question.correctAnswer q)
  | None => false
  end.

(** *** Properties of reachable states, used in the proofs below *)

(** Between events the ref follows the buffer. *)
Definition consistent (a : Attempt) : Prop :=
  answersRef a = answers a.

(** The countdown is not negative; an effect that waits belongs to a
    render of the current [timeLeft]; and otherwise either the render on
    screen shows the current [timeLeft], and a live interval means it is
    not zero, or a tick waits for its render. *)
Definition timer_ok (a : Attempt) : Prop :=
  (0 ≤ timeLeft a)%Z
  ∧ match effect a with
    | Some r =>
        seen_timeLeft r = timeLeft a
        ∧ seen_timeLeft (screen a) = timeLeft a
    | None =>
        (seen_timeLeft (screen a) = timeLeft a
         ∧ (interval a = true → timeLeft a ≠ 0%Z))
        ∨ (seen_timeLeft (screen a) = (timeLeft a + 1)%Z ∧ interval a = true)
    end.

(** With an [onFinish], each of the two ways into the submit path is taken
    at most once: the flag of a render is up only if the current one is,
    and the number of scores that wait or were handed over, with one for a
    click that can still pass the guard of the render on screen and one
    for a timer effect that can still pass the guard of its render, is at
    most two. *)
Definition may_click (a : Attempt) : nat :=
  if seen_isSubmitting (screen a) then 0 else 1.

Definition may_time_out (a : Attempt) : nat :=
  match effect a with
  | Some r =>
      if (seen_timeLeft r =? 0)%Z
      then (if seen_isSubmitting r then 0 else 1)
      else (if isSubmitting a then 0 else 1)
  | None => if isSubmitting a then 0 else 1
  end.

Definition entries_ok (a : Attempt) : Prop :=
  length (pending a) + length (emitted a) + may_click a + may_time_out a ≤ 2
  ∧ (seen_isSubmitting (screen a) = true → isSubmitting a = true)
  ∧ (∀ r, effect a = Some r → seen_isSubmitting r = true →
          isSubmitting a = true)
  ∧ (isSubmitting a = false → pending a = [] ∧ emitted a = []).

End TestRunner.

(** ** Built-ins of the JavaScript engine *)

Module Engine.

(** *** [Array.prototype.sort] with a consistent comparator

    The sort is stable and puts [a] before [b] when the comparator is
    negative on [(a, b)]; for a comparator that is a total preorder this
    fixes the result, which is the one of insertion sort. *)
Fixpoint insert_sorted {A} (compareFn : A → A → Z) (x : A) (l : list A)
    : list A :=
  match l with
  | [] => [x]
  | y :: rest =>
      if (compareFn x y <=? 0)%Z then x :: y :: rest
      else y :: insert_sorted compareFn x rest
  end.

Definition Array_sort {A} (compareFn : A → A → Z) (l : list A) : list A :=
  foldr (insert_sorted compareFn) [] l.

(** *** [Array.prototype.sort] with a comparator that ignores its arguments

    With [() => Math.random() - 0.5] the comparator is not consistent and
    the order of the result is left to the engine.  Whatever the engine's
    algorithm is, on an array of a given length it is a decision
    procedure: it asks for the sign of a comparator call and goes on
    according to the answer (negative, zero, positive), until it stops
    with a rearrangement of the array.  The rearrangement is written as a
    list of picks: each pick [i] takes the element at position
    [i mod (number left)] out of what is left; what is left when the picks
    run out keeps its order.  Every rearrangement can be written so. *)
Inductive SortTree :=
| Done (picks : list nat)
| Ask (negative zero positive : SortTree).

Fixpoint arrange {A} (picks : list nat) (l : list A) : list A :=
  match picks with
  | [] => l
  | i :: rest =>
      let j := i mod length l in
      match l !! j with
      | Some x => x :: arrange rest (delete j l)
      | None => l
      end
  end.

(** Running the procedure from the [k]-th comparator call on; [sign k] is
    the sign of the [k]-th value the comparator returns.  The result is
    the rearrangement chosen and the number of the next call. *)
Fixpoint run_sort (t : SortTree) (sign : nat → comparison) (k : nat)
    : list nat * nat :=
  match t with
  | Done picks => (picks, k)
  | Ask negative zero positive =>
      match sign k with
      | Lt => run_sort negative sign (S k)
      | Eq => run_sort zero sign (S k)
      | Gt => run_sort positive sign (S k)
      end
  end.

(** The largest number of comparator calls the procedure can make. *)
Fixpoint height (t : SortTree) : nat :=
  match t with
  | Done _ => 0
  | Ask n z p => S (height n `max` (height z `max` height p))
  end.

(** [Math.random()] returns a double in [0, 1) that is a multiple of
    [2^-precision]; the draw [m] stands for [m / 2^precision].  This is
    the sign of [Math.random() - 0.5] for that draw. *)
Definition sign_minus_half (precision : nat) (m : N) : comparison :=
  (2 * m ?= 2 ^ N.of_nat precision)%N.

End Engine.

(** ** The host ([App], lines 568-1082) *)

(** [s || d] for an optional string: [undefined] and the empty string are
    falsy. *)
Definition or_default (s : option string) (d : string) : string :=
  match s with
  | Some (String _ _ as v) => v
  | _ => d
  end.

(** Truthiness of an optional boolean. *)
Definition truthy (b : option bool) : bool :=
  match b with
  | Some true => true
  | _ => false
  end.

(** A JavaScript [Map] with string keys: the entries in insertion order. *)
Module JsMap.
Definition t (V : Type) := list (string * V).

Definition has {V} (key : string) (m : t V) : bool :=
  bool_decide (key ∈ m.*1).

Fixpoint get {V} (key : string) (m : t V) : option V :=
  match m with
  | [] => None
  | (k, v) :: rest => if decide (k = key) then Some v else get key rest
  end.

(** [set] replaces the value of a key that is there, in place, and appends
    an entry otherwise. *)
Fixpoint set {V} (key : string) (v : V) (m : t V) : t V :=
  match m with
  | [] => [(key, v)]
  | (k, x) :: rest =>
      if decide (k = key) then (k, v) :: rest else (k, x) :: set key v rest
  end.
End JsMap.

(** The values of [pyqMap] (line 613). *)
Module PyqEntry.
Record t := mk { year : string; slot : string; count : nat }.
End PyqEntry.

(** The elements of [pyqPapers] (line 580). *)
Module Paper.
Record t := mk { id : string; year : string; slot : string; count : nat }.
End Paper.
Abbreviation Paper := Paper.t.

Module App.

(** The state variables of [App] that the test-building code reads or
    writes (lines 572-580), and the messages shown by [alert]. *)
Record State := mkState {
  questions : list Question;
  mockTests : list Test;
  pyqPapers : list Paper;
  activeTest : option Test;
  alerts : list string
}.

Definition setActiveTest (v : option Test) (s : State) : State :=
  mkState (questions s) (mockTests s) (pyqPapers s) v (alerts s).

Section ProcessQuestions.

(** [String.prototype.localeCompare]: the host's collation, left open. *)
Variable localeCompare : string → string → Z.

(** The engine's sort procedure for arrays of each length when the
    comparator ignores its arguments, the precision of [Math.random],
    and the sequence of its draws. *)
Variable engine_sort : nat → Engine.SortTree.
Variable precision : nat.
Variable Math_random : nat → N.

(** *** 1. The list of past papers (lines 612-631) *)

(** The body of [allQuestions.forEach(q => ...)] (lines 614-624). *)
Definition pyq_visit (pyqMap : JsMap.t PyqEntry.t) (q : Question)
    : JsMap.t PyqEntry.t :=
  let year := or_default (Question.year q) "Unknown" in
  let slot := or_default (Question.slot q) "Slot 1" in
  let key := year +:+ "-" +:+ slot in
  let pyqMap :=
    if JsMap.has key pyqMap then pyqMap
    else JsMap.set key (PyqEntry.mk year slot 0) pyqMap in
  match JsMap.get key pyqMap with
  | Some e =>
      JsMap.set key
        (PyqEntry.mk (PyqEntry.year e) (PyqEntry.slot e)
           (S (PyqEntry.count e)))
        pyqMap
  | None => pyqMap
  end.

Definition pyqMap_of (allQuestions : list Question) : JsMap.t PyqEntry.t :=
  foldl pyq_visit [] allQuestions.

(** The comparator of line 629:
    [b.year.localeCompare(a.year) || a.slot.localeCompare(b.slot)]. *)
Definition paper_compare (a b : Paper) : Z :=
  let c := localeCompare (Paper.year b) (Paper.year a) in
  if (c =? 0)%Z then localeCompare (Paper.slot a) (Paper.slot b) else c.

(** The callback of line 628: [([id, data]) => ({ id, ...data })]. *)
Definition to_paper (entry : string * PyqEntry.t) : Paper :=
  let '(id, data) := entry in
  Paper.mk id (PyqEntry.year data) (PyqEntry.slot data) (PyqEntry.count data).

(** Lines 627-629. *)
Definition papers (allQuestions : list Question) : list Paper :=
  Engine.Array_sort paper_compare (to_paper <$> pyqMap_of allQuestions).

(** *** 2. The mocks (lines 633-684) *)

(** [shuffle] (line 636), from the [k]-th draw of [Math.random] on.  The
    callers pass a copy ([[...varcQs]]), so the in-place sort leaves the
    subsets as they are. *)
Definition shuffle (array : list Question) (k : nat)
    : list Question * nat :=
  let '(picks, k') :=
    Engine.run_sort (engine_sort (length array))
      (λ i, Engine.sign_minus_half precision (Math_random i)) k in
  (Engine.arrange picks array, k').

Definition quantQs (allQuestions : list Question) : list Question :=
  filter (λ q, Question.category q = Quant) allQuestions.
Definition varcQs (allQuestions : list Question) : list Question :=
  filter (λ q, Question.category q = VARC) allQuestions.
Definition dilrQs (allQuestions : list Question) : list Question :=
  filter (λ q, Question.category q = DILR) allQuestions.

(** Lines 643-647; the elements of the array literal are evaluated left
    to right. *)
Definition fullMockQuestions (allQuestions : list Question) (k : nat)
    : list Question * nat :=
  let '(v, k1) := shuffle (varcQs allQuestions) k in
  let '(d, k2) := shuffle (dilrQs allQuestions) k1 in
  let '(q, k3) := shuffle (quantQs allQuestions) k2 in
  (take 24 v ++ take 20 d ++ take 22 q, k3).

(** Line 650. *)
Definition finalQuestions (allQuestions : list Question) (k : nat)
    : list Question :=
  let full := (fullMockQuestions allQuestions k).1 in
  if decide (5 < length full) then full else allQuestions.

Definition fullMock (allQuestions : list Question) (k : nat) : Test :=
  Test.mk "mock-full-1" "All India Open Mock (Full)" 120
    (finalQuestions allQuestions k) (Some MOCK).
Definition quantMock (allQuestions : list Question) : Test :=
  Test.mk "mock-quant-1" "Quant Sectional Test 01" 40
    (quantQs allQuestions) (Some MOCK).
Definition varcMock (allQuestions : list Question) : Test :=
  Test.mk "mock-varc-1" "VARC Sectional Test 01" 40
    (varcQs allQuestions) (Some MOCK).
Definition dilrMock (allQuestions : list Question) : Test :=
  Test.mk "mock-dilr-1" "DILR Sectional Test 01" 40
    (dilrQs allQuestions) (Some MOCK).

(** Line 684. *)
Definition mocks (allQuestions : list Question) (k : nat) : list Test :=
  filter (λ t, 0 < length (Test.questions t))
    [fullMock allQuestions k; quantMock allQuestions;
     varcMock allQuestions; dilrMock allQuestions].

(** [processQuestions] (lines 611-685); also returns the number of the
    next draw of [Math.random]. *)
Definition processQuestions (allQuestions : list Question) (k : nat)
    (s : State) : State * nat :=
  (mkState (questions s) (mocks allQuestions k) (papers allQuestions)
     (activeTest s) (alerts s),
   (fullMockQuestions allQuestions k).2).

End ProcessQuestions.

(** The year, the slot and the key that [pyq_visit] computes for a
    question. *)
Definition year_of (q : Question) : string :=
  or_default (Question.year q) "Unknown".
Definition slot_of (q : Question) : string :=
  or_default (Question.slot q) "Slot 1".
Definition key_of (q : Question) : string :=
  year_of q +:+ "-" +:+ slot_of q.

(** The order the comparator of line 629 asks for: a later year first, and
    within a year the smaller slot first, both in the host's collation. *)
Definition listed_before (localeCompare : string → string → Z) (a b : Paper)
    : Prop :=
  (localeCompare (Paper.year b) (Paper.year a) < 0)%Z
  ∨ (localeCompare (Paper.year b) (Paper.year a) = 0%Z
     ∧ (localeCompare (Paper.slot a) (Paper.slot b) ≤ 0)%Z).

(** What [pyqMap] holds once the loop has visited the questions [seen]:
    one entry for each key met, with the number of questions of that key
    and the year and slot of one of them. *)
Definition pyqMap_holds (m : JsMap.t PyqEntry.t) (seen : list Question)
    : Prop :=
  NoDup m.*1
  ∧ ∀ k,
      match JsMap.get k m with
      | Some e =>
          PyqEntry.count e = length (filter (λ q, key_of q = k) seen)
          ∧ ∃ q, q ∈ seen ∧ key_of q = k
                 ∧ PyqEntry.year e = year_of q
                 ∧ PyqEntry.slot e = slot_of q
      | None => ∀ q, q ∈ seen → key_of q ≠ k
      end.

(** [startPyqTest] (lines 733-750). *)
Definition startPyqTest (year slot : string) (s : State) : State :=
  let paperQuestions :=
    filter (λ q, or_default (Question.year q) "Unknown" = year
                 ∧ or_default (Question.slot q) "Slot 1" = slot)
      (questions s) in
  if decide (length paperQuestions = 0) then
    mkState (questions s) (mockTests s) (pyqPapers s) (activeTest s)
      (alerts s ++ ["No questions found for this slot."])
  else
    setActiveTest
      (Some (Test.mk ("pyq-" +:+ year +:+ "-" +:+ slot)
               ("CAT " +:+ year +:+ " " +:+ slot +:+ " (Official)") 60
               paperQuestions (Some PYQ)))
      s.

(** The test built by [handlePracticeQuestion] (lines 753-759). *)
Definition practiceTest (q : Question) : Test :=
  Test.mk ("practice-" +:+ Question.id q) "Practice Question" 5 [q]
    (Some PRACTICE).

(** [handlePracticeQuestion] (lines 752-761). *)
Definition handlePracticeQuestion (q : Question) (s : State) : State :=
  setActiveTest (Some (practiceTest q)) s.

(** The solve button of the practice view (lines 946-948):
    [onClick={() => !q.isPremium && handlePracticeQuestion(q)}]. *)
Definition solve_onClick (q : Question) (s : State) : State :=
  if negb (truthy (Question.isPremium q)) then handlePracticeQuestion q s
  else s.

End App.

(** ** The odds of the shuffle

    [Math.random] is taken to draw each multiple of [2^-precision] in
    [0, 1) with the same probability, each draw independent of the others.
    Then all sequences of [d] draws are equally likely, and the probability
    of an outcome that depends on the first [d] draws only is the share of
    the sequences that lead to it. *)

Module ShuffleOdds.

(** All sequences of [d] draws. *)
Fixpoint all_draws (precision d : nat) : list (list N) :=
  match d with
  | 0 => [[]]
  | S d' =>
      m ← N.of_nat <$> seq 0 (2 ^ precision);
      (m ::.) <$> all_draws precision d'
  end.

(** A sequence of draws as the [Math_random] of [App.shuffle]. *)
Definition draws (tape : list N) (k : nat) : N := default 0%N (tape !! k).

(** [shuffle(array)] with these draws puts [x] at position [p]. *)
Definition lands (engine_sort : nat → Engine.SortTree) (precision : nat)
    (array : list Question) (x : Question) (p : nat) (tape : list N) : Prop :=
  (App.shuffle engine_sort precision (draws tape) array 0).1 !! p = Some x.

#[global] Instance lands_dec engine_sort precision array x p tape :
  Decision (lands engine_sort precision array x p tape).
Proof. unfold lands. apply _. Defined.

(** The sequences of [d] draws that put [x] at position [p]. *)
Definition favourable (engine_sort : nat → Engine.SortTree)
    (precision d : nat) (array : list Question) (x : Question) (p : nat)
    : list (list N) :=
  filter (lands engine_sort precision array x p) (all_draws precision d).

(** The sign of the [i]-th comparator call under a sequence of draws. *)
Definition sign_of_call (precision : nat) (tape : list N) (i : nat)
    : comparison :=
  Engine.sign_minus_half precision (draws tape i).

(** The procedure [t], run from the first draw, stops with a rearrangement
    in [E]. *)
Definition chooses (precision : nat) (E : list nat → Prop)
    (t : Engine.SortTree) (tape : list N) : Prop :=
  E (Engine.run_sort t (sign_of_call precision tape) 0).1.

#[global] Instance chooses_dec precision (E : list nat → Prop)
    `{!∀ picks, Decision (E picks)} t tape :
  Decision (chooses precision E t tape).
Proof. unfold chooses. apply _. Defined.

(** The subtree the procedure goes on with after a first draw [m]. *)
Definition branch (precision : nat) (n z p : Engine.SortTree) (m : N)
    : Engine.SortTree :=
  match Engine.sign_minus_half precision m with
  | Lt => n
  | Eq => z
  | Gt => p
  end.

(** The sequences of [d] fair signs, each negative or positive, after
    which the procedure [t] has stopped with a rearrangement in [E]: the
    count of the outcome if [Math.random() - 0.5] were a fair coin. *)
Fixpoint coin_count (E : list nat → Prop) `{!∀ picks, Decision (E picks)}
    (t : Engine.SortTree) (d : nat) : nat :=
  match t with
  | Engine.Done picks => if decide (E picks) then 2 ^ d else 0
  | Engine.Ask n z p =>
      match d with
      | 0 => 0
      | S d' => coin_count E n d' + coin_count E p d'
      end
  end.

End ShuffleOdds.

(** ** Sample inputs *)

Definition sample_question (id : string) (correct : Z) (cat : Category)
    (premium : option bool) (year slot : option string) : Question :=
  Question.mk id "text" None ["a"; "b"; "c"; "d"] correct None cat premium
    year slot.

(** A one-minute test of two questions. *)
Definition sample_test : Test :=
  Test.mk "sample" "Sample" 1
    [sample_question "q1" 2 Quant None None None;
     sample_question "q2" 0 VARC None None None]
    (Some MOCK).

(** A catalog of thirty questions of each category. *)
Definition sample_catalog : list Question :=
  i ← seq 0 30;
  [sample_question ("quant-" +:+ pretty i) 0 Quant None (Some "2023") None;
   sample_question ("varc-" +:+ pretty i) 1 VARC None (Some "2022") None;
   sample_question ("dilr-" +:+ pretty i) 2 DILR None (Some "2021") None].

(** A catalog of three questions. *)
Definition small_catalog : list Question :=
  [sample_question "s1" 0 Quant None None None;
   sample_question "s2" 1 VARC (Some true) None None;
   sample_question "s3" 2 DILR (Some false) None None].

(** Two questions of different papers whose keys [year-slot] are the same
    string. *)
Definition paper_2021_slot_1A : Question :=
  sample_question "p1" 0 Quant None (Some "2021") (Some "1-A").
Definition paper_2021_1_slot_A : Question :=
  sample_question "p2" 0 Quant None (Some "2021-1") (Some "A").

(** An insertion sort of three elements [a; b; c] as the engine's
    procedure: a negative answer to the first call moves [b] in front of
    [a]; a negative answer to the second moves [c] in front of its left
    neighbour, and a third call decides whether it moves once more.  The
    leaves are written as picks: [[2; 1; 0]] is [c; b; a]. *)
Definition insert_third (swapped : bool) : Engine.SortTree :=
  let first := if swapped then 1 else 0 in
  let middle := Engine.Done [first; 1; 0] in
  let last := Engine.Done [first; 0; 0] in
  Engine.Ask
    (Engine.Ask (Engine.Done [2; first; 0]) middle middle)
    last last.

Definition insertion_sort_3 : Engine.SortTree :=
  Engine.Ask (insert_third true) (insert_third false) (insert_third false).

Definition sample_engine (n : nat) : Engine.SortTree :=
  if decide (n = 3) then insertion_sort_3 else Engine.Done [n - 1].

(** Another procedure: the last element of the array sinks towards the
    front, one place for each negative answer, and stays at the first
    answer that is not negative.  [moved] is the number of places it has
    moved, [left] the number of places it can still move. *)
Fixpoint sink_last (moved left : nat) : Engine.SortTree :=
  match left with
  | 0 => Engine.Done [moved]
  | S left' =>
      let stay := Engine.Done (replicate left 0 ++ [moved]) in
      Engine.Ask (sink_last (S moved) left') stay stay
  end.

Definition sinking_engine (n : nat) : Engine.SortTree := sink_last 0 (n - 1).

(** Draws at precision 1: 0, then 1/2, and so on in turn. *)
Definition sample_random (k : nat) : N := N.of_nat (k mod 2).

(** A collation: the order of the strings by character code. *)
Definition codeunit_compare (a b : string) : Z :=
  match String_as_OT.cmp a b with
  | Lt => -1
  | Eq => 0
  | Gt => 1
  end.

(** Three papers of one slot. *)
Definition three_years : list Question :=
  [sample_question "y1" 0 Quant None (Some "2021") (Some "Slot 1");
   sample_question "y2" 0 Quant None (Some "2023") (Some "Slot 1");
   sample_question "y3" 0 VARC None (Some "2022") (Some "Slot 1");
   sample_question "y4" 0 DILR None (Some "2023") (Some "Slot 1")].

(** ** More of the runner: what it shows and what it keeps *)

Module RunnerView.
Import TestRunner.

(** [formatTime] (lines 367-371) for a whole number of seconds that a
    double holds exactly ([Number.isSafeInteger]: less than 2^53 in size):
    there [Math.floor(s / 60)] is the floor of the exact quotient, [s % 60]
    the remainder with the sign of [s], and both are printed in decimal
    digits by the template [`${m}:${sec < 10 ? '0' : ''}${sec}`].  Beyond
    that size the doubles round and are printed otherwise, which the model
    does not follow ([None]). *)
Definition formatTime (s : Z) : option string :=
  if decide (- 2 ^ 53 < s < 2 ^ 53)%Z then
    let m := (s / 60)%Z in
    let sec := Z.rem s 60 in
    Some (pretty m +:+ ":" +:+ (if (sec <? 10)%Z then "0" else "")
          +:+ pretty sec)
  else None.

(** The callback [a => a !== -1] of line 401; [filter] does not visit
    holes. *)
Definition is_answered (slot : option Z) : bool :=
  match slot with
  | Some v => negb (v =? -1)%Z
  | None => false
  end.

(** [answers.filter(a => a !== -1).length], the count shown in the
    confirmation (line 401). *)
Definition answeredCount (a : Attempt) : nat :=
  length (filter (λ slot, is_answered slot) (answers a)).

(** The cursor is an index of the question list (when there is one). *)
Definition cursor_in_range (test : Test) (a : Attempt) : Prop :=
  Test.questions test ≠ [] → currentQ a < length (Test.questions test).

(** A slot holds -1 or the index of one of its question's options. *)
Definition slot_valid (q : Question) (slot : option Z) : Prop :=
  slot = Some (-1)%Z
  ∨ ∃ j, j < length (Question.options q) ∧ slot = Some (Z.of_nat j).

(** One valid slot for each question. *)
Definition buffer_valid (test : Test) (a : Attempt) : Prop :=
  Forall2 slot_valid (Test.questions test) (answers a).

(** Every score that waits or was emitted is at most the number of
    questions, which is the total it is emitted with. *)
Definition scores_valid (test : Test) (a : Attempt) : Prop :=
  Forall (λ score, score ≤ length (Test.questions test)) (pending a)
  ∧ Forall (λ r, r.1 ≤ r.2 ∧ r.2 = length (Test.questions test))
      (emitted a).

End RunnerView.

(** ** Accounts, statistics and the browser's storage *)

(** [Section] (line 30). *)
Inductive View := Dashboard | Mocks | Pyq | Practice | Progress.

Module User.
Record t := mk {
  name : string;
  email : string;
  password : option string;
  joinedDate : string
}.
End User.
Abbreviation User := User.t.

Module HistoryEntry.
Record t := mk { date : string; testId : string; score : nat; total : nat }.
End HistoryEntry.

Module UserStats.
Record t := mk {
  testsTaken : nat;
  questionsAttempted : nat;
  correctAnswers : nat;
  history : list HistoryEntry.t
}.
End UserStats.
Abbreviation UserStats := UserStats.t.

(** [localStorage].  An item is a string; the items the app writes are the
    address of the current user and JSON texts, and a JSON text is
    represented by the value it was made from ([JSON.parse] of
    [JSON.stringify] gives the records of strings and numbers back). *)
Inductive Stored :=
| StoredUsers (users : gmap string User)
| StoredStats (stats : UserStats)
| StoredText (text : string).

Abbreviation Storage := (gmap string Stored).

(** [users[key]] on the object parsed from the users item: an own property,
    a property of [Object.prototype] ([inherited] says which names those
    are), or nothing. *)
Inductive Property := Own (u : User) | Inherited | Missing.

Definition get_property (inherited : string → bool)
    (users : gmap string User) (key : string) : Property :=
  match users !! key with
  | Some u => Own u
  | None => if inherited key then Inherited else Missing
  end.

(** [usersStr ? JSON.parse(usersStr) : {}] (lines 120-121 and 586-587).
    [None]: the item is not the text of a users record, which the model
    does not follow. *)
Definition read_users (ls : Storage) : option (gmap string User) :=
  match ls !! "catrix_users" with
  | None => Some ∅
  | Some (StoredUsers users) => Some users
  | Some _ => None
  end.

(** Truthiness of a string. *)
Definition nonempty (s : string) : bool :=
  match s with
  | EmptyString => false
  | String _ _ => true
  end.

Module AuthPage.

(** The state of the form (lines 105-109). *)
Record Form := mkForm {
  isRegister : bool;
  email : string;
  password : string;
  name : string;
  error : string
}.

Definition setError (v : string) (f : Form) : Form :=
  mkForm (isRegister f) (email f) (password f) (name f) v.

(** What a submit leaves: the form, the storage, and the user [onLogin] was
    called with, if it was. *)
Record Outcome := mkOutcome {
  form : Form;
  storage : Storage;
  onLogin : option User
}.

(** [handleSubmit] (lines 111-140); [now] is [new Date().toISOString()]. *)
Definition handleSubmit (inherited : string → bool) (now : string)
    (f : Form) (ls : Storage) : option Outcome :=
  let f := setError "" f in
  if negb (nonempty (email f)) || negb (nonempty (password f))
     || (isRegister f && negb (nonempty (name f)))
  then Some (mkOutcome (setError "Please fill all fields" f) ls None)
  else
    users ← read_users ls;
    if isRegister f then
      match get_property inherited users (email f) with
      | Own _ | Inherited =>
          Some (mkOutcome (setError "User already exists with this email" f)
                  ls None)
      | Missing =>
          let newUser :=
            User.mk (name f) (email f) (Some (password f)) now in
          let users := <[email f := newUser]> users in
          Some (mkOutcome f (<["catrix_users" := StoredUsers users]> ls)
                  (Some newUser))
      end
    else
      match get_property inherited users (email f) with
      | Own user =>
          if decide (User.password user = Some (password f))
          then Some (mkOutcome f ls (Some user))
          else Some (mkOutcome (setError "Invalid credentials" f) ls None)
      | Inherited | Missing =>
          Some (mkOutcome (setError "Invalid credentials" f) ls None)
      end.

(** The switch between signing in and registering (line 207). *)
Definition toggle (f : Form) : Form :=
  mkForm (negb (isRegister f)) (email f) (password f) (name f) "".

End AuthPage.

Module Host.

(** The closure of [handleTestComplete] that a call of [handleSubmit]
    holds as [onFinish] while it waits in its delay (lines 333-337): the
    score, the total, and the [user], [userStats] and
    [activeTest?.id || "unknown"] of the render of [App] that made the
    callback (lines 708-731). *)
Record Waiting := mkWaiting {
  w_score : nat;
  w_total : nat;
  w_user : option User;
  w_userStats : UserStats;
  w_testId : string
}.

(** The state of [App] (lines 569-580) around the part [App.State] holds,
    the storage, the state of the runner while one is mounted (line 1058),
    and the calls of [handleSubmit] that wait in their delay, oldest
    first; the delays are equal, so they end in that order. *)
Record State := mk {
  app : App.State;
  user : option User;
  view : View;
  userStats : UserStats;
  localStorage : Storage;
  runner : option TestRunner.Attempt;
  waiting : list Waiting
}.

Definition setApp (v : App.State) (s : State) : State :=
  mk v (user s) (view s) (userStats s) (localStorage s) (runner s)
    (waiting s).
Definition setUser (v : option User) (s : State) : State :=
  mk (app s) v (view s) (userStats s) (localStorage s) (runner s)
    (waiting s).
Definition setView (v : View) (s : State) : State :=
  mk (app s) (user s) v (userStats s) (localStorage s) (runner s)
    (waiting s).
Definition setUserStats (v : UserStats) (s : State) : State :=
  mk (app s) (user s) (view s) v (localStorage s) (runner s) (waiting s).
Definition setLocalStorage (v : Storage) (s : State) : State :=
  mk (app s) (user s) (view s) (userStats s) v (runner s) (waiting s).
Definition setRunner (v : option TestRunner.Attempt) (s : State) : State :=
  mk (app s) (user s) (view s) (userStats s) (localStorage s) v (waiting s).
Definition setWaiting (v : list Waiting) (s : State) : State :=
  mk (app s) (user s) (view s) (userStats s) (localStorage s) (runner s) v.

(** The statistics of a user who has none stored (lines 571, 692, 705). *)
Definition noStats : UserStats := UserStats.mk 0 0 0 [].

(** The key of a user's statistics (lines 688 and 711). *)
Definition stats_key (email : string) : string := "catrix_stats_" +:+ email.

(** [loadStats] (lines 687-694).  [None]: the item is not the text of
    statistics. *)
Definition loadStats (email : string) (s : State) : option State :=
  match localStorage s !! stats_key email with
  | Some (StoredStats saved) => Some (setUserStats saved s)
  | Some _ => None
  | None => Some (setUserStats noStats s)
  end.

(** [handleLogin] (lines 696-700). *)
Definition handleLogin (loggedInUser : User) (s : State) : option State :=
  loadStats (User.email loggedInUser)
    (setLocalStorage
       (<["catrix_current_user_email" := StoredText (User.email loggedInUser)]>
          (localStorage s))
       (setUser (Some loggedInUser) s)).

(** [handleLogout] (lines 702-706). *)
Definition handleLogout (s : State) : State :=
  setUserStats noStats
    (setLocalStorage (delete "catrix_current_user_email" (localStorage s))
       (setUser None s)).

(** [saveStats] (lines 708-713) of a render of [App] in which [user] was
    [closure_user]. *)
Definition saveStats (closure_user : option User) (newStats : UserStats)
    (s : State) : State :=
  let s := setUserStats newStats s in
  match closure_user with
  | Some u =>
      setLocalStorage
        (<[stats_key (User.email u) := StoredStats newStats]> (localStorage s))
        s
  | None => s
  end.

(** [activeTest?.id || "unknown"] (line 723). *)
Definition activeTestId (s : State) : string :=
  match App.activeTest (app s) with
  | Some t => if nonempty (Test.id t) then Test.id t else "unknown"
  | None => "unknown"
  end.

(** What the [handleTestComplete] of the current render of [App] holds,
    for a call with [score] and [total]. *)
Definition closure (score total : nat) (s : State) : Waiting :=
  mkWaiting score total (user s) (userStats s) (activeTestId s).

(** [handleTestComplete] (lines 715-731) as the waiting call [w] holds it;
    [now] is [new Date().toISOString()].  It reads the [userStats], the
    [activeTest] and (in [saveStats]) the [user] of its own render, not the
    current ones.  With [activeTest] null the runner is not rendered any
    more (line 1056). *)
Definition handleTestComplete (now : string) (w : Waiting) (s : State)
    : State :=
  let newStats :=
    UserStats.mk
      (UserStats.testsTaken (w_userStats w) + 1)
      (UserStats.questionsAttempted (w_userStats w) + w_total w)
      (UserStats.correctAnswers (w_userStats w) + w_score w)
      (UserStats.history (w_userStats w)
       ++ [HistoryEntry.mk now (w_testId w) (w_score w) (w_total w)]) in
  let s := saveStats (w_user w) newStats s in
  setRunner None
    (setView Progress (setApp (App.setActiveTest None (app s)) s)).

(** The [onCancel] of the runner (line 1058).  Nothing cancels the calls
    of [handleSubmit] that wait. *)
Definition onCancel (s : State) : State :=
  setRunner None (setApp (App.setActiveTest None (app s)) s).

(** The first part of the mount effect (lines 583-592): the user of the
    stored address comes back.  [None]: an item is not of its shape, or the
    address names a property of [Object.prototype], which would be set as
    the user. *)
Definition restoreSession (inherited : string → bool) (s : State)
    : option State :=
  match localStorage s !! "catrix_current_user_email" with
  | Some (StoredText loggedInEmail) =>
      if nonempty loggedInEmail then
        users ← read_users (localStorage s);
        match get_property inherited users loggedInEmail with
        | Own u => loadStats loggedInEmail (setUser (Some u) s)
        | Inherited => None
        | Missing => Some s
        end
      else Some s
  | Some _ => None
  | None => Some s
  end.

(** [fetchQuestions] when the fetch succeeds with [data] (lines 601-603):
    [setQuestions(data)] and [processQuestions(data)]. *)
Definition questionsLoaded (localeCompare : string → string → Z)
    (engine_sort : nat → Engine.SortTree) (precision : nat)
    (Math_random : nat → N) (data : list Question) (k : nat)
    (s : App.State) : App.State * nat :=
  App.processQuestions localeCompare engine_sort precision Math_random data k
    (App.mkState data (App.mockTests s) (App.pyqPapers s) (App.activeTest s)
       (App.alerts s)).

(** Signing in through the form: [AuthPage.handleSubmit] with [handleLogin]
    as its [onLogin] (line 1053).  The form's storage is the app's. *)
Definition submitAuth (inherited : string → bool) (now : string)
    (f : AuthPage.Form) (s : State) : option (AuthPage.Form * State) :=
  out ← AuthPage.handleSubmit inherited now f (localStorage s);
  let s := setLocalStorage (AuthPage.storage out) s in
  match AuthPage.onLogin out with
  | Some u => s' ← handleLogin u s; Some (AuthPage.form out, s')
  | None => Some (AuthPage.form out, s)
  end.

End Host.

(** The colon and the seconds of [formatTime] (line 370),
    [`:${sec < 10 ? '0' : ''}${sec}`], for [sec = k]. *)
Definition seconds_text (k : nat) : string :=
  ":" +:+ ((if (Z.of_nat k <? 10)%Z then "0" else "") +:+ pretty (Z.of_nat k)).

(** ** The page as a whole

    [App] with the component it renders, driven by what the user and the
    browser do.  The renders of [App] are taken to be on screen before the
    next event: the closures that the events of the page run are those of
    its current state.  The one call that does not come from the screen,
    the [handleTestComplete] a waiting [handleSubmit] holds, is kept with
    the values of its own render.  (The updates that such a call makes are
    rendered a turn later; no click is taken to fall in between.) *)

Module Browser.
Import Host.

(** The component [App] renders (lines 1052-1061). *)
Inductive Screen := AuthScreen | RunnerScreen (test : Test) | MainScreen.

Definition screen (s : State) : Screen :=
  match user s with
  | None => AuthScreen
  | Some _ =>
      match App.activeTest (app s) with
      | Some test => RunnerScreen test
      | None => MainScreen
      end
  end.

(** The state of a page that was just opened, before its mount effect
    (lines 569-580), in a browser whose storage is [ls]. *)
Definition opened (ls : Storage) : State :=
  mk (App.mkState [] [] [] None []) None Dashboard noStats ls None [].

(** What can happen to the page: the controls of [App], the answer of the
    fetch, a reload, an event of the mounted runner, the runner's cancel
    button, and the end of the oldest waiting delay, at time [now]. *)
Inductive Event :=
| Submit (f : AuthPage.Form) (now : string)
| QuestionsArrive (data : list Question) (k : nat)
| Reload
| ClickLogout
| ChangeView (v : View)
| StartTest (i : nat)
| AttemptNow (i : nat)
| SolveNow (i : nat)
| InRunner (e : TestRunner.Event)
| CancelTest
| DelayElapsed (now : string).

Section Steps.

Variable inherited : string → bool.
Variable localeCompare : string → string → Z.
Variable engine_sort : nat → Engine.SortTree.
Variable precision : nat.
Variable Math_random : nat → N.

(** The mount effect of a page opened on the storage [ls]
    (lines 583-592).  A reload ends the scripts of the page: nothing waits
    on the new page. *)
Definition mount (ls : Storage) : option State :=
  restoreSession inherited (opened ls).

(** After a click that may have set [activeTest], the runner of the new
    test is mounted (line 1058). *)
Definition mountRunner (s : State) : State :=
  setRunner (TestRunner.start <$> App.activeTest (app s)) s.

(** An event of the mounted runner, whose [onFinish] is the
    [handleTestComplete] of the current render of [App].  The calls of
    [handleSubmit] that the event lets pass begin to wait, each holding
    that callback.  The end of a delay is an event of the page. *)
Definition inRunner (test : Test) (a : TestRunner.Attempt)
    (e : TestRunner.Event) (s : State) : State :=
  match e with
  | TestRunner.DelayElapsed => s
  | _ =>
      let a' := TestRunner.step true test a e in
      let scores :=
        drop (length (TestRunner.pending a)) (TestRunner.pending a') in
      setWaiting
        (waiting s
         ++ ((λ score, closure score (length (Test.questions test)) s)
             <$> scores))
        (setRunner (Some a') s)
  end.

(** One event.  The controls of a screen exist only while it is rendered,
    and the start buttons only in their view (lines 863, 980, 947; the
    practice view lists [questions.slice(0, 10)], line 932); the runner's
    cancel button (line 480) is part of the question screen, which is
    rendered when [test.questions[currentQ]] is defined (line 375).  The
    answer of the fetch (lines 601-603), a reload and the end of a delay
    can come at any time. *)
Definition step (s : State) (e : Event) : option State :=
  match e with
  | QuestionsArrive data k =>
      Some (setApp
              (questionsLoaded localeCompare engine_sort precision Math_random
                 data k (app s)).1 s)
  | Reload => mount (localStorage s)
  | DelayElapsed now =>
      match waiting s with
      | w :: rest => Some (handleTestComplete now w (setWaiting rest s))
      | [] => Some s
      end
  | _ =>
      match screen s, e with
      | AuthScreen, Submit f now => snd <$> submitAuth inherited now f s
      | RunnerScreen test, InRunner e =>
          match runner s with
          | Some a => Some (inRunner test a e s)
          | None => Some s
          end
      | RunnerScreen test, CancelTest =>
          match runner s with
          | Some a =>
              match Test.questions test !! TestRunner.currentQ a with
              | Some _ => Some (onCancel s)
              | None => Some s
              end
          | None => Some s
          end
      | MainScreen, ClickLogout => Some (handleLogout s)
      | MainScreen, ChangeView v => Some (setView v s)
      | MainScreen, StartTest i =>
          match view s, App.mockTests (app s) !! i with
          | Mocks, Some test =>
              Some (mountRunner
                      (setApp (App.setActiveTest (Some test) (app s)) s))
          | _, _ => Some s
          end
      | MainScreen, AttemptNow i =>
          match view s, App.pyqPapers (app s) !! i with
          | Pyq, Some paper =>
              Some (mountRunner
                      (setApp
                         (App.startPyqTest (Paper.year paper)
                            (Paper.slot paper) (app s)) s))
          | _, _ => Some s
          end
      | MainScreen, SolveNow i =>
          match view s, take 10 (App.questions (app s)) !! i with
          | Practice, Some q =>
              Some (mountRunner (setApp (App.solve_onClick q (app s)) s))
          | _, _ => Some s
          end
      | _, _ => Some s
      end
  end.

Fixpoint run (es : list Event) (s : State) : option State :=
  match es with
  | [] => Some s
  | e :: es => s' ← step s e; run es s'
  end.

End Steps.

(** *** What the app keeps true of its state and of the storage *)

(** The counters agree with the history. *)
Definition stats_ok (st : UserStats) : Prop :=
  UserStats.testsTaken st = length (UserStats.history st)
  ∧ UserStats.questionsAttempted st
    = sum_list (HistoryEntry.total <$> UserStats.history st)
  ∧ UserStats.correctAnswers st
    = sum_list (HistoryEntry.score <$> UserStats.history st)
  ∧ Forall (λ h, HistoryEntry.score h ≤ HistoryEntry.total h
                 ∧ nonempty (HistoryEntry.testId h) = true)
      (UserStats.history st).

(** Every account is stored under its address, with a name and a
    password. *)
Definition accounts_ok (users : gmap string User) : Prop :=
  ∀ e u, users !! e = Some u →
    User.email u = e ∧ nonempty e = true ∧ nonempty (User.name u) = true
    ∧ ∃ p, User.password u = Some p ∧ nonempty p = true.

(** The items of the storage have the shapes the app reads. *)
Definition storage_ok (ls : Storage) : Prop :=
  (∃ users, read_users ls = Some users ∧ accounts_ok users)
  ∧ ∀ e, match ls !! stats_key e with
         | None => True
         | Some (StoredStats st) => stats_ok st
         | Some _ => False
         end.

(** The statistics stored for a user, as [loadStats] reads them. *)
Definition stored_stats (ls : Storage) (u : option User) : UserStats :=
  match u with
  | Some u =>
      match ls !! stats_key (User.email u) with
      | Some (StoredStats saved) => saved
      | _ => noStats
      end
  | None => noStats
  end.

(** The user of the state is the one of the stored address. *)
Definition signed_in_ok (s : State) : Prop :=
  match user s with
  | None => localStorage s !! "catrix_current_user_email" = None
  | Some u =>
      localStorage s !! "catrix_current_user_email"
      = Some (StoredText (User.email u))
      ∧ ∃ users, read_users (localStorage s) = Some users
                 ∧ users !! User.email u = Some u
  end.

(** A call that waits holds consistent statistics and a valid result. *)
Definition waiting_ok (w : Waiting) : Prop :=
  stats_ok (w_userStats w) ∧ w_score w ≤ w_total w
  ∧ nonempty (w_testId w) = true.

(** A test that is or can be started has a question, a name and time. *)
Definition test_ok (test : Test) : Prop :=
  Test.questions test ≠ [] ∧ nonempty (Test.id test) = true
  ∧ (0 < Test.durationMinutes test)%Z.

Definition tests_ok (s : State) : Prop :=
  Forall test_ok (App.mockTests (app s))
  ∧ ∀ test, App.activeTest (app s) = Some test → test_ok test.

(** The runner is mounted exactly on the runner's screen, and the scores
    it has computed are at most the number of questions of its test. *)
Definition runner_ok (s : State) : Prop :=
  (user s = None → App.activeTest (app s) = None)
  ∧ match App.activeTest (app s) with
    | Some test =>
        ∃ a, runner s = Some a ∧ RunnerView.scores_valid test a
    | None => runner s = None
    end.

Definition sound (s : State) : Prop :=
  storage_ok (localStorage s) ∧ signed_in_ok s ∧ stats_ok (userStats s)
  ∧ Forall waiting_ok (waiting s) ∧ tests_ok s ∧ runner_ok s.

(** Nothing stored in [ls] is lost in [ls']: each account is as it was,
    and each item of statistics is still one. *)
Definition stored_kept (ls ls' : Storage) : Prop :=
  (∀ users a u, read_users ls = Some users → users !! a = Some u →
     ∃ users', read_users ls' = Some users' ∧ users' !! a = Some u)
  ∧ ∀ e st, ls !! stats_key e = Some (StoredStats st) →
      ∃ st', ls' !! stats_key e = Some (StoredStats st').

End Browser.

(** A storage with one account. *)
Definition sample_accounts : Storage :=
  <["catrix_users" :=
      StoredUsers
        (<["a@b.c" := User.mk "Asha" "a@b.c" (Some "secret")
                        "2024-01-01T00:00:00.000Z"]> ∅)]> ∅.

(** A visit: a sign-up, the arrival of the questions, and one paper
    attempted to its end. *)
Definition sample_visit : list Browser.Event :=
  [Browser.Submit (AuthPage.mkForm true "a@b.c" "secret" "Asha" "")
     "2024-01-01T00:00:00.000Z";
   Browser.QuestionsArrive three_years 0;
   Browser.ChangeView Pyq;
   Browser.AttemptNow 0;
   Browser.InRunner (TestRunner.ClickOption 0);
   Browser.InRunner TestRunner.ClickSubmitTest;
   Browser.InRunner TestRunner.ClickSubmitNow;
   Browser.DelayElapsed "2024-01-01T01:00:00.000Z"].

(** A visit in which a test is cancelled while its submit waits, and the
    user logs out before the delay ends. *)
Definition late_visit : list Browser.Event :=
  [Browser.Submit (AuthPage.mkForm true "a@b.c" "secret" "Asha" "")
     "2024-01-01T00:00:00.000Z";
   Browser.QuestionsArrive three_years 0;
   Browser.ChangeView Pyq;
   Browser.AttemptNow 0;
   Browser.InRunner TestRunner.ClickSubmitTest;
   Browser.InRunner TestRunner.ClickSubmitNow;
   Browser.CancelTest;
   Browser.ClickLogout;
   Browser.DelayElapsed "2024-01-01T01:00:00.000Z"].

(** A visit in which a paper is submitted and cancelled, and attempted and
    submitted again while the first submit still waits. *)
Definition two_attempts : list Browser.Event :=
  [Browser.Submit (AuthPage.mkForm true "a@b.c" "secret" "Asha" "")
     "2024-01-01T00:00:00.000Z";
   Browser.QuestionsArrive three_years 0;
   Browser.ChangeView Pyq;
   Browser.AttemptNow 0;
   Browser.InRunner TestRunner.ClickSubmitTest;
   Browser.InRunner TestRunner.ClickSubmitNow;
   Browser.CancelTest;
   Browser.AttemptNow 0;
   Browser.InRunner (TestRunner.ClickOption 0);
   Browser.InRunner TestRunner.ClickSubmitTest;
   Browser.InRunner TestRunner.ClickSubmitNow].

(** * Facts about lists *)

Lemma filter_none_length {A} (P : A → Prop) `{!∀ x, Decision (P x)} (l : list A) :
  (∀ x, x ∈ l → ¬ P x) → length (filter P l) = 0.
Proof.
  intros Hno. induction l as [|x l IH]; [done|].
  rewrite filter_cons, decide_False; [|apply Hno; by left].
  apply IH. intros y Hy. apply Hno. by right.
Qed.

Lemma filter_all_length {A} (P : A → Prop) `{!∀ x, Decision (P x)}
    (l : list A) :
  (∀ x, x ∈ l → P x) → length (filter P l) = length l.
Proof.
  intros Hall. induction l as [|x l IH]; [done|].
  rewrite filter_cons, decide_True by (apply Hall; by left).
  simpl. f_equal. apply IH. intros y Hy. apply Hall. by right.
Qed.

Lemma filter_length_ext_in {A} (P Q : A → Prop) `{!∀ x, Decision (P x)}
    `{!∀ x, Decision (Q x)} (l : list A) :
  (∀ x, x ∈ l → P x ↔ Q x) → length (filter P l) = length (filter Q l).
Proof.
  intros Hext. induction l as [|x l IH]; [done|].
  rewrite !filter_cons.
  assert (P x ↔ Q x) as Hx by (apply Hext; by left).
  assert (length (filter P l) = length (filter Q l)) as Hl
    by (apply IH; intros y Hy; apply Hext; by right).
  destruct (decide (P x)), (decide (Q x)); simpl; try tauto; lia.
Qed.

Lemma filter_fmap_length {A B} (f : A → B) (P : B → Prop)
    `{!∀ y, Decision (P y)} (l : list A) :
  length (filter P (f <$> l)) = length (filter (λ x, P (f x)) l).
Proof.
  induction l as [|x l IH]; [done|].
  rewrite fmap_cons, !filter_cons. destruct (decide (P (f x))); simpl; lia.
Qed.

Lemma filter_bind_length {A B} (f : A → list B) (P : B → Prop)
    `{!∀ y, Decision (P y)} (l : list A) :
  length (filter P (l ≫= f))
  = sum_list ((λ x, length (filter P (f x))) <$> l).
Proof.
  induction l as [|x l IH]; [done|].
  rewrite bind_cons, filter_app, length_app, IH. done.
Qed.

Lemma sum_list_scale {A} (c : nat) (f g : A → nat) (l : list A) :
  (∀ x, x ∈ l → f x = c * g x) →
  sum_list (f <$> l) = c * sum_list (g <$> l).
Proof.
  intros H. induction l as [|x l IH]; csimpl; [lia|].
  rewrite H by (by left). rewrite IH; [lia|].
  intros y Hy. apply H. by right.
Qed.

Lemma StronglySorted_weaken {A} (R R' : A → A → Prop) (l : list A) :
  (∀ a b, R a b → R' a b) → StronglySorted R l → StronglySorted R' l.
Proof.
  intros HR. induction 1 as [|a l Hs IH Ha]; constructor; [done|].
  eapply Forall_impl; [exact Ha|]. intros b. apply HR.
Qed.

(** * Facts about arrays *)

Lemma array_get_set_eq (a : slots) (i : nat) (v : Z) :
  array_get (array_set a i v) i = Some v.
Proof.
  unfold array_get, array_set. case_decide as Hi.
  - by rewrite list_lookup_insert_eq.
  - rewrite lookup_app_r by lia.
    rewrite lookup_app_r by (rewrite length_replicate; lia).
    rewrite length_replicate, Nat.sub_diag. done.
Qed.

Lemma array_get_set_ne (a : slots) (i j : nat) (v : Z) :
  i ≠ j → array_get (array_set a i v) j = array_get a j.
Proof.
  intros Hij. unfold array_get, array_set. case_decide as Hi.
  - by rewrite list_lookup_insert_ne.
  - destruct (decide (j < length a)) as [Hj|Hj].
    + by rewrite lookup_app_l.
    + rewrite (lookup_ge_None_2 a j) by lia.
      rewrite lookup_app_r by lia.
      destruct (decide (j - length a < i - length a)) as [Hlt|Hge].
      * rewrite lookup_app_l by (rewrite length_replicate; lia).
        by rewrite lookup_replicate_2.
      * rewrite lookup_app_r by (rewrite length_replicate; lia).
        rewrite length_replicate.
        rewrite lookup_ge_None_2; [done|simpl; lia].
Qed.

Lemma array_set_length_in_range (a : slots) (i : nat) (v : Z) :
  i < length a → length (array_set a i v) = length a.
Proof.
  intros Hi. unfold array_set. rewrite decide_True by done.
  apply length_insert.
Qed.

Lemma array_get_fill (n i : nat) (v : Z) :
  i < n → array_get (Array_fill n v) i = Some v.
Proof.
  intros Hi. unfold array_get, Array_fill. by rewrite lookup_replicate_2.
Qed.

(** * Facts about the test runner *)

Section TestRunnerFacts.
Import TestRunner.

(** ** Scoring *)

Lemma forEach_score_acc qs idx ans score :
  forEach_score qs idx ans score = score + forEach_score qs idx ans 0.
Proof.
  revert idx score. induction qs as [|q qs IH]; intros idx score; simpl.
  - lia.
  - rewrite IH. destruct (strict_eq _ _).
    + rewrite (IH _ 1). lia.
    + rewrite (IH _ 0). lia.
Qed.

Lemma forEach_score_count (pre qs : list Question) (ans : slots) test :
  Test.questions test = pre ++ qs →
  forEach_score qs (length pre) ans 0
  = length (filter (λ i, correct_at test ans i)
              (seq (length pre) (length qs))).
Proof.
  revert pre. induction qs as [|q qs IH]; intros pre Hqs; simpl; [done|].
  rewrite forEach_score_acc.
  specialize (IH (pre ++ [q])). rewrite length_app in IH. simpl in IH.
  rewrite Nat.add_1_r in IH. rewrite IH by (by rewrite <- app_assoc).
  assert (correct_at test ans (length pre)
          = strict_eq (array_get ans (length pre)) (Question.correctAnswer q))
    as Hc by (unfold correct_at; by rewrite Hqs, list_lookup_middle).
  rewrite filter_cons, Hc.
  destruct (strict_eq _ _).
  - rewrite decide_True by done. done.
  - rewrite decide_False by (simpl; tauto). done.
Qed.

Lemma score_is_count test ans :
  forEach_score (Test.questions test) 0 ans 0
  = length (filter (λ i, correct_at test ans i)
              (seq 0 (length (Test.questions test)))).
Proof. by apply (forEach_score_count []). Qed.

Lemma score_le_total test ans :
  forEach_score (Test.questions test) 0 ans 0
  ≤ length (Test.questions test).
Proof.
  rewrite score_is_count.
  etrans; [apply length_filter|]. by rewrite length_seq.
Qed.


(** ** The submission guard *)

Lemma handleSubmit_of_guard r c test a :
  seen_isSubmitting r = true → handleSubmit_of r c test a = a.
Proof. intros H. unfold handleSubmit_of. by rewrite H. Qed.

Lemma handleSubmit_guard test a :
  seen_isSubmitting (screen a) = true → handleSubmit test a = a.
Proof. apply handleSubmit_of_guard. Qed.

Lemma handleSubmit_enter test a :
  seen_isSubmitting (screen a) = false →
  handleSubmit test a
  = setPending
      (pending a ++ [forEach_score (Test.questions test) 0 (answersRef a) 0])
      (shown_setShowConfirmModal false (shown_setIsSubmitting true a)).
Proof. intros H. unfold handleSubmit, handleSubmit_of. by rewrite H. Qed.

Lemma handleSubmit_shown test a :
  seen_isSubmitting (screen a) = false →
  seen_isSubmitting (screen (handleSubmit test a)) = true
  ∧ isSubmitting (handleSubmit test a) = true.
Proof. intros H. by rewrite handleSubmit_enter. Qed.

Lemma handleSubmit_twice test a :
  handleSubmit test (handleSubmit test a) = handleSubmit test a.
Proof.
  destruct (seen_isSubmitting (screen a)) eqn:E.
  - rewrite (handleSubmit_guard test a E). by apply handleSubmit_guard.
  - apply handleSubmit_guard. by apply handleSubmit_shown.
Qed.

(** ** What the parts of a step leave alone *)

Lemma handleSubmit_of_frame r c test a :
  let a' := handleSubmit_of r c test a in
  currentQ a' = currentQ a ∧ answers a' = answers a
  ∧ answersRef a' = answersRef a ∧ timeLeft a' = timeLeft a
  ∧ interval a' = interval a ∧ emitted a' = emitted a
  ∧ console a' = console a ∧ effect a' = effect a
  ∧ seen_timeLeft (screen a') = seen_timeLeft (screen a)
  ∧ showPalette a' = showPalette a.
Proof.
  unfold handleSubmit_of. destruct (seen_isSubmitting r); [done|].
  by destruct c.
Qed.

Lemma resume_frame onFinish test a :
  let a' := handleSubmit_resume onFinish test a in
  currentQ a' = currentQ a ∧ answers a' = answers a
  ∧ answersRef a' = answersRef a ∧ timeLeft a' = timeLeft a
  ∧ interval a' = interval a ∧ effect a' = effect a
  ∧ screen a' = screen a ∧ showPalette a' = showPalette a
  ∧ showConfirmModal a' = showConfirmModal a.
Proof.
  unfold handleSubmit_resume. destruct (pending a); [done|].
  by destruct onFinish.
Qed.

Lemma flush_frame test a :
  let a' := flush test a in
  currentQ a' = currentQ a ∧ answers a' = answers a
  ∧ answersRef a' = answersRef a ∧ timeLeft a' = timeLeft a
  ∧ emitted a' = emitted a ∧ console a' = console a
  ∧ effect a' = None
  ∧ seen_timeLeft (screen a') = seen_timeLeft (screen a)
  ∧ showPalette a' = showPalette a.
Proof.
  unfold flush. destruct (effect a) as [r|] eqn:E; [|done].
  unfold timer_effect. destruct (seen_timeLeft r =? 0)%Z; simpl; [|done].
  pose proof (handleSubmit_of_frame r false test (setEffect None a)) as H.
  cbv zeta in H. by destruct H as (-> & -> & -> & -> & _ & -> & -> & -> & -> & ->).
Qed.

Lemma flush_None test a : effect a = None → flush test a = a.
Proof. intros H. unfold flush. by rewrite H. Qed.

Lemma commit_frame test a :
  let a' := commit test a in
  currentQ a' = currentQ a ∧ answers a' = answers a
  ∧ answersRef a' = answersRef a ∧ timeLeft a' = timeLeft a
  ∧ emitted a' = emitted a ∧ console a' = console a
  ∧ showPalette a' = showPalette a
  ∧ seen_timeLeft (screen a') = timeLeft a.
Proof.
  unfold commit. simpl.
  by destruct (flush_frame test a) as (-> & -> & -> & -> & -> & -> & _ & _ & ->).
Qed.

Lemma tick_frame a :
  let a' := tick a in
  currentQ a' = currentQ a ∧ answers a' = answers a
  ∧ answersRef a' = answersRef a ∧ interval a' = interval a
  ∧ pending a' = pending a ∧ emitted a' = emitted a
  ∧ console a' = console a ∧ effect a' = effect a ∧ screen a' = screen a
  ∧ isSubmitting a' = isSubmitting a
  ∧ showConfirmModal a' = showConfirmModal a
  ∧ showPalette a' = showPalette a.
Proof.
  unfold tick. destruct (effect a) eqn:E; [done|].
  by case_match.
Qed.

Lemma click_frame test q e a a' :
  click test q e a = Some a' →
  answersRef a' = answersRef a ∧ timeLeft a' = timeLeft a
  ∧ interval a' = interval a ∧ emitted a' = emitted a
  ∧ console a' = console a ∧ effect a' = effect a
  ∧ seen_timeLeft (screen a') = seen_timeLeft (screen a).
Proof.
  destruct e; simpl; repeat case_match; intros [= <-]; try done.
  unfold handleSubmit.
  by destruct (handleSubmit_of_frame (screen a) true test a)
    as (_ & _ & -> & -> & -> & -> & -> & -> & -> & _).
Qed.

(** A step of a click, when the control delivers. *)
Lemma step_click onFinish test a e q a' :
  Test.questions test !! currentQ a = Some q →
  click test q e a = Some a' →
  step onFinish test a e = sync_answersRef (flush test a').
Proof.
  intros Hq Hc. unfold step. destruct e; try done; by rewrite Hq, Hc.
Qed.

Lemma step_no_click onFinish test a e :
  e ≠ Tick → e ≠ Commit → e ≠ RunEffects → e ≠ DelayElapsed →
  (∀ q, Test.questions test !! currentQ a = Some q →
        click test q e a = None) →
  step onFinish test a e = a.
Proof.
  intros H1 H2 H3 H4 Hc. unfold step. destruct e; try done;
    (destruct (Test.questions test !! currentQ a) as [q|] eqn:Hq; [|done]);
    by rewrite (Hc q eq_refl).
Qed.

(** The cases of a step: a timer, a render, a run of effects, the end of a
    delay, a click that delivers, or nothing. *)
Lemma step_cases onFinish test a e :
  (e = Tick ∧ step onFinish test a e = tick a)
  ∨ (e = Commit ∧ step onFinish test a e = commit test a)
  ∨ (e = RunEffects ∧ step onFinish test a e = flush test a)
  ∨ (e = DelayElapsed
     ∧ step onFinish test a e = handleSubmit_resume onFinish test a)
  ∨ (∃ q a', Test.questions test !! currentQ a = Some q
             ∧ click test q e a = Some a'
             ∧ step onFinish test a e = sync_answersRef (flush test a'))
  ∨ step onFinish test a e = a.
Proof.
  unfold step. destruct e;
    [by left|by right; left|by do 2 right; left|by do 3 right; left|..];
    (destruct (Test.questions test !! currentQ a) as [q|] eqn:Hq;
     [|by repeat right]);
    (destruct (click test q _ a) as [a'|] eqn:Hc; [|by repeat right]);
    do 4 right; left; eauto.
Qed.

(** ** What every reachable state satisfies *)

Lemma consistent_step onFinish test a e :
  consistent a → consistent (step onFinish test a e).
Proof.
  intros H. unfold consistent in *.
  destruct (step_cases onFinish test a e)
    as [[_ ->]|[[_ ->]|[[_ ->]|[[_ ->]|[(q & a' & Hq & Hc & ->)| ->]]]]]; try done.
  - by destruct (tick_frame a) as (_ & -> & -> & _).
  - by destruct (commit_frame test a) as (_ & -> & -> & _).
  - by destruct (flush_frame test a) as (_ & -> & -> & _).
  - by destruct (resume_frame onFinish test a) as (_ & -> & -> & _).
Qed.

Lemma consistent_start test : consistent (start test).
Proof.
  unfold start, timer_effect, handleSubmit_of, consistent. simpl.
  by destruct (_ =? 0)%Z.
Qed.

Lemma consistent_run onFinish test es a :
  consistent a → consistent (run onFinish test es a).
Proof.
  revert a. induction es as [|e es IH]; intros a H; simpl; [done|].
  apply IH. by apply consistent_step.
Qed.

Lemma reachable_consistent onFinish test es :
  consistent (run onFinish test es (start test)).
Proof. apply consistent_run, consistent_start. Qed.

Lemma run_snoc onFinish test es e a :
  run onFinish test (es ++ [e]) a
  = step onFinish test (run onFinish test es a) e.
Proof. apply foldl_snoc. Qed.


(** ** The countdown *)

Lemma timer_ok_ext a a' :
  timeLeft a' = timeLeft a → interval a' = interval a →
  effect a' = effect a →
  seen_timeLeft (screen a') = seen_timeLeft (screen a) →
  timer_ok a → timer_ok a'.
Proof. unfold timer_ok. by intros -> -> -> ->. Qed.

Lemma timer_ok_handleSubmit_of r c test a :
  timer_ok a → timer_ok (handleSubmit_of r c test a).
Proof.
  destruct (handleSubmit_of_frame r c test a)
    as (_ & _ & _ & ? & ? & _ & _ & ? & ? & _).
  by apply timer_ok_ext.
Qed.








(** ** The entries into the submit path, with an [onFinish] *)

Lemma entries_ok_start test : entries_ok (start test).
Proof.
  unfold start, timer_effect, handleSubmit_of, entries_ok, may_click,
    may_time_out. simpl.
  destruct (_ =? 0)%Z; simpl; split_and!; try done; lia.
Qed.

Lemma entries_ok_handleSubmit test a :
  entries_ok a → entries_ok (handleSubmit test a).
Proof.
  intros H. pose proof H as (Hn & Hs & He & Hp).
  unfold handleSubmit, handleSubmit_of.
  destruct (seen_isSubmitting (screen a)) eqn:E; [done|].
  unfold entries_ok, may_click, may_time_out in *. rewrite E in Hn.
  simpl. rewrite length_app. simpl.
  split_and!; try done.
  destruct (effect a) as [r|]; [|destruct (isSubmitting a); lia].
  destruct (seen_timeLeft r =? 0)%Z; [lia|]. destruct (isSubmitting a); lia.
Qed.

Lemma entries_ok_flush test a : entries_ok a → entries_ok (flush test a).
Proof.
  intros H. pose proof H as (Hn & Hs & He & Hp). unfold flush.
  destruct (effect a) as [r|] eqn:E; [|done]. clear H.
  unfold timer_effect, handleSubmit_of, entries_ok, may_click, may_time_out
    in *. rewrite E in Hn.
  destruct (seen_timeLeft r =? 0)%Z.
  - destruct (seen_isSubmitting r) eqn:Er; simpl.
    + rewrite (He r eq_refl Er) in *. by split_and!.
    + rewrite length_app. simpl. split_and!; try done. lia.
  - simpl. split_and!; try done.
Qed.

Lemma entries_ok_commit test a : entries_ok a → entries_ok (commit test a).
Proof.
  intros H. apply (entries_ok_flush test) in H.
  destruct (flush_frame test a) as (_ & _ & _ & _ & _ & _ & He & _).
  destruct H as (Hn & Hs & _ & Hp). unfold commit.
  unfold entries_ok, may_click, may_time_out in *. rewrite He in Hn.
  simpl.
  assert (seen_isSubmitting (screen (flush test a)) = true →
          isSubmitting (flush test a) = true) as Hs' by done.
  destruct (isSubmitting (flush test a)) eqn:Ei.
  - split_and!; try done; repeat case_match; simplify_eq/=; try lia;
      try done.
  - destruct (seen_isSubmitting (screen (flush test a))); [by specialize (Hs' eq_refl)|].
    split_and!; try done; repeat case_match; simplify_eq/=; try lia;
      try done; by intros r [= <-].
Qed.

Lemma entries_ok_ext a a' :
  pending a' = pending a → emitted a' = emitted a →
  isSubmitting a' = isSubmitting a → effect a' = effect a →
  seen_isSubmitting (screen a') = seen_isSubmitting (screen a) →
  entries_ok a → entries_ok a'.
Proof.
  unfold entries_ok, may_click, may_time_out. by intros -> -> -> -> ->.
Qed.

Lemma entries_ok_click test q e a a' :
  click test q e a = Some a' → entries_ok a → entries_ok a'.
Proof.
  intros Hc H. destruct e; simpl in Hc; repeat case_match;
    simplify_eq; try done;
    try (by apply (entries_ok_ext a)).
  all: by apply entries_ok_handleSubmit.
Qed.

Lemma entries_ok_step test a e :
  entries_ok a → entries_ok (step true test a e).
Proof.
  intros H.
  destruct (step_cases true test a e)
    as [[_ ->]|[[_ ->]|[[_ ->]|[[_ ->]|[(q & a' & Hq & Hc & ->)| ->]]]]]; try done.
  - destruct (tick_frame a)
      as (_ & _ & _ & _ & ? & ? & _ & ? & Hs & ? & _).
    apply (entries_ok_ext a); try done. by rewrite Hs.
  - by apply entries_ok_commit.
  - by apply entries_ok_flush.
  - pose proof H as (Hn & Hs & He & Hp). unfold handleSubmit_resume.
    destruct (pending a) as [|score rest] eqn:E; [done|]. clear H.
    unfold entries_ok, may_click, may_time_out in *. simpl in *.
    rewrite length_app. simpl.
    destruct (isSubmitting a) eqn:Ei; [|by destruct (Hp eq_refl)].
    split_and!; try done. lia.
  - apply (entries_ok_ext (flush test a')); try done.
    by apply entries_ok_flush, (entries_ok_click test q e a).
Qed.

Lemma entries_ok_run test es a :
  entries_ok a → entries_ok (run true test es a).
Proof.
  revert a. induction es as [|e es IH]; intros a H; simpl; [done|].
  apply IH. by apply entries_ok_step.
Qed.

End TestRunnerFacts.

(** * What the runner keeps true *)

Section RunnerInvariants.
Import TestRunner RunnerView.

(** ** The cursor *)

Lemma click_cursor test q e a a' :
  click test q e a = Some a' →
  cursor_in_range test a → cursor_in_range test a'.
Proof.
  unfold cursor_in_range. intros Hc Ha Hne. specialize (Ha Hne).
  destruct e; simpl in Hc; repeat case_match; simplify_eq; simpl;
    try done; try lia;
    try (match goal with H : (_ <? _)%Z = true |- _ => apply Z.ltb_lt in H end;
         lia).
  unfold handleSubmit.
  by destruct (handleSubmit_of_frame (screen a) true test a) as (-> & _).
Qed.

Lemma cursor_in_range_step onFinish test a e :
  cursor_in_range test a → cursor_in_range test (step onFinish test a e).
Proof.
  intros H. unfold cursor_in_range in *.
  destruct (step_cases onFinish test a e)
    as [[_ ->]|[[_ ->]|[[_ ->]|[[_ ->]|[(q & a' & Hq & Hc & ->)| ->]]]]]; try done.
  - by destruct (tick_frame a) as (-> & _).
  - by destruct (commit_frame test a) as (-> & _).
  - by destruct (flush_frame test a) as (-> & _).
  - by destruct (resume_frame onFinish test a) as (-> & _).
  - simpl. destruct (flush_frame test a') as (-> & _).
    by apply (click_cursor test q e a a').
Qed.

Lemma cursor_in_range_start test : cursor_in_range test (start test).
Proof.
  intros Hne. unfold start, timer_effect, handleSubmit_of. simpl.
  destruct (_ =? 0)%Z; simpl; (destruct (Test.questions test); [done|simpl; lia]).
Qed.

Lemma cursor_in_range_run onFinish test es a :
  cursor_in_range test a → cursor_in_range test (run onFinish test es a).
Proof.
  revert a. induction es as [|e es IH]; intros a Ha; simpl; [done|].
  apply IH. by apply cursor_in_range_step.
Qed.

(** ** The buffer *)

Lemma buffer_valid_fill (qs : list Question) :
  Forall2 slot_valid qs (Array_fill (length qs) (-1)).
Proof.
  induction qs as [|q qs IH]; simpl; constructor; [by left|done].
Qed.

Lemma buffer_valid_select test a q idx :
  buffer_valid test a →
  Test.questions test !! currentQ a = Some q →
  idx < length (Question.options q) →
  buffer_valid test (handleSelect (Z.of_nat idx) a).
Proof.
  unfold buffer_valid, handleSelect. intros Hb Hq Hidx. simpl.
  assert (currentQ a < length (answers a)) as Hlt.
  { rewrite <- (Forall2_length _ _ _ Hb). by eapply lookup_lt_Some. }
  unfold array_set. rewrite decide_True by done.
  rewrite <- (list_insert_id (Test.questions test) (currentQ a) q) by done.
  apply Forall2_insert; [done|]. right. by exists idx.
Qed.

Lemma click_buffer test q e a a' :
  Test.questions test !! currentQ a = Some q →
  click test q e a = Some a' →
  buffer_valid test a → buffer_valid test a'.
Proof.
  intros Hq Hc Hb.
  destruct e; simpl in Hc; repeat case_match; simplify_eq; try done.
  - by apply (buffer_valid_select test a q idx).
  - unfold buffer_valid, handleSubmit.
    by destruct (handleSubmit_of_frame (screen a) true test a)
      as (_ & -> & _).
Qed.

Lemma buffer_valid_step onFinish test a e :
  buffer_valid test a → buffer_valid test (step onFinish test a e).
Proof.
  intros H. unfold buffer_valid in *.
  destruct (step_cases onFinish test a e)
    as [[_ ->]|[[_ ->]|[[_ ->]|[[_ ->]|[(q & a' & Hq & Hc & ->)| ->]]]]]; try done.
  - by destruct (tick_frame a) as (_ & -> & _).
  - by destruct (commit_frame test a) as (_ & -> & _).
  - by destruct (flush_frame test a) as (_ & -> & _).
  - by destruct (resume_frame onFinish test a) as (_ & -> & _).
  - simpl. destruct (flush_frame test a') as (_ & -> & _).
    by apply (click_buffer test q e a a').
Qed.

Lemma buffer_valid_start test : buffer_valid test (start test).
Proof.
  unfold buffer_valid, start, timer_effect, handleSubmit_of. simpl.
  destruct (_ =? 0)%Z; apply buffer_valid_fill.
Qed.

Lemma buffer_valid_run onFinish test es a :
  buffer_valid test a → buffer_valid test (run onFinish test es a).
Proof.
  revert a. induction es as [|e es IH]; intros a Ha; simpl; [done|].
  apply IH. by apply buffer_valid_step.
Qed.

End RunnerInvariants.

Section RunnerScores.
Import TestRunner RunnerView.

Lemma scores_valid_ext test a a' :
  pending a' = pending a → emitted a' = emitted a →
  scores_valid test a → scores_valid test a'.
Proof. unfold scores_valid. by intros -> ->. Qed.

Lemma scores_valid_handleSubmit_of r c test a :
  scores_valid test a → scores_valid test (handleSubmit_of r c test a).
Proof.
  intros H. unfold handleSubmit_of. destruct (seen_isSubmitting r); [done|].
  destruct H as [Hp He]. split.
  - destruct c; simpl; (apply Forall_app; split; [done|]);
      (constructor; [|done]); apply score_le_total.
  - by destruct c.
Qed.

Lemma scores_valid_flush test a :
  scores_valid test a → scores_valid test (flush test a).
Proof.
  intros H. unfold flush. destruct (effect a) as [r|]; [|done].
  unfold timer_effect. destruct (_ =? 0)%Z.
  - apply (scores_valid_ext test (handleSubmit_of r false test
                                     (setEffect None a))); [done..|].
    by apply scores_valid_handleSubmit_of.
  - done.
Qed.

Lemma scores_valid_resume onFinish test a :
  scores_valid test a → scores_valid test (handleSubmit_resume onFinish test a).
Proof.
  intros H. unfold handleSubmit_resume.
  destruct (pending a) as [|score rest] eqn:Hp; [done|].
  destruct H as [Hpe He]. rewrite Hp in Hpe.
  apply Forall_cons in Hpe as [Hs Hrest].
  destruct onFinish; split; simpl; try done.
  apply Forall_app. split; [done|]. by constructor.
Qed.

Lemma click_scores test q e a a' :
  click test q e a = Some a' →
  scores_valid test a → scores_valid test a'.
Proof.
  intros Hc H.
  destruct e; simpl in Hc; repeat case_match; simplify_eq; try done.
  by apply scores_valid_handleSubmit_of.
Qed.

Lemma scores_valid_step onFinish test a e :
  scores_valid test a → scores_valid test (step onFinish test a e).
Proof.
  intros H.
  destruct (step_cases onFinish test a e)
    as [[_ ->]|[[_ ->]|[[_ ->]|[[_ ->]|[(q & a' & Hq & Hc & ->)| ->]]]]]; try done.
  - destruct (tick_frame a) as (_ & _ & _ & _ & ? & ? & _).
    by apply (scores_valid_ext test a).
  - apply (scores_valid_ext test (flush test a)); [done..|].
    by apply scores_valid_flush.
  - by apply scores_valid_flush.
  - by apply scores_valid_resume.
  - apply (scores_valid_ext test (flush test a')); [done..|].
    by apply scores_valid_flush, (click_scores test q e a).
Qed.

Lemma scores_valid_start test : scores_valid test (start test).
Proof.
  unfold start, timer_effect, handleSubmit_of. simpl.
  destruct (_ =? _)%Z; [|by split].
  split; simpl; [|done]. constructor; [|done]. apply score_le_total.
Qed.


(** ** The count of answered questions *)

Lemma answered_insert (l : slots) (i : nat) (v : Z) :
  (v ≠ -1)%Z →
  length (filter (λ slot, is_answered slot) l)
  ≤ length (filter (λ slot, is_answered slot) (<[i := Some v]> l)).
Proof.
  intros Hv. revert i. induction l as [|x l IH]; intros [|i]; simpl; try done.
  - rewrite !filter_cons. rewrite (decide_True (P := is_answered (Some v))).
    + case_decide; simpl; lia.
    + simpl. apply negb_prop_intro. intros Hf. apply Is_true_eq_true in Hf.
      apply Z.eqb_eq in Hf. done.
  - rewrite !filter_cons. specialize (IH i). case_decide; simpl; lia.
Qed.

Lemma answeredCount_handleSelect a idx :
  currentQ a < length (answers a) →
  answeredCount a ≤ answeredCount (handleSelect (Z.of_nat idx) a).
Proof.
  intros Hlt. unfold answeredCount, handleSelect, array_set. simpl.
  rewrite decide_True by done. apply answered_insert. lia.
Qed.

Lemma score_le_answered (qs : list Question) (idx : nat) (ans : slots) :
  Forall (λ q, (0 ≤ Question.correctAnswer q)%Z) qs →
  forEach_score qs idx ans 0
  ≤ length (filter (λ slot, is_answered slot) (drop idx ans)).
Proof.
  intros Hqs. revert idx.
  induction Hqs as [|q qs Hq Hqs IH]; intros idx; simpl; [lia|].
  rewrite forEach_score_acc. specialize (IH (S idx)).
  unfold array_get. destruct (ans !! idx) as [x|] eqn:Hx.
  - rewrite (drop_S _ _ _ Hx), filter_cons.
    change (mjoin (Some x)) with x.
    destruct (strict_eq x (Question.correctAnswer q)) eqn:E.
    + destruct x as [v|]; [|done]. apply bool_decide_eq_true in E. subst v.
      rewrite decide_True; [simpl; lia|].
      simpl. apply negb_prop_intro. intros Hf. apply Is_true_eq_true in Hf.
      apply Z.eqb_eq in Hf. lia.
    + destruct (decide _); simpl; lia.
  - change (mjoin None) with (@None Z). simpl strict_eq. cbv iota.
    rewrite drop_ge by (by apply lookup_ge_None).
    rewrite drop_ge in IH by (apply lookup_ge_None in Hx; lia).
    simpl in *. lia.
Qed.

End RunnerScores.

Section RunnerFrame.
Import TestRunner.

Lemma click_answers test q e a a' :
  click test q e a = Some a' → (∀ idx, e ≠ ClickOption idx) →
  answers a' = answers a.
Proof.
  intros Hc Hno. destruct e; simpl in Hc; repeat case_match; simplify_eq;
    try done.
  - by destruct (Hno idx).
  - unfold handleSubmit.
    by destruct (handleSubmit_of_frame (screen a) true test a)
      as (_ & -> & _).
Qed.

Lemma click_currentQ test q e a a' :
  click test q e a = Some a' →
  (∀ idx, e ≠ ClickPaletteItem idx) → e ≠ ClickPrevious → e ≠ ClickNext →
  currentQ a' = currentQ a.
Proof.
  intros Hc Hno Hp Hn. destruct e; simpl in Hc; repeat case_match;
    simplify_eq; try done.
  - by destruct (Hno idx).
  - unfold handleSubmit.
    by destruct (handleSubmit_of_frame (screen a) true test a) as (-> & _).
Qed.

Lemma click_interval test q e a a' :
  click test q e a = Some a' → effect a = None →
  interval (flush test a') = interval a.
Proof.
  intros Hc He.
  destruct (click_frame test q e a a' Hc) as (_ & _ & Hi & _ & _ & He' & _).
  rewrite flush_None by congruence. done.
Qed.

(** What each event leaves alone, in any state. *)
Lemma step_frame onFinish test a e :
  let a' := step onFinish test a e in
  (e ≠ Tick → timeLeft a' = timeLeft a)
  ∧ (e = Tick ∨ e = DelayElapsed ∨ effect a = None →
     interval a' = interval a)
  ∧ ((∀ idx, e ≠ ClickOption idx) → answers a' = answers a)
  ∧ ((∀ idx, e ≠ ClickPaletteItem idx) → e ≠ ClickPrevious → e ≠ ClickNext →
     currentQ a' = currentQ a)
  ∧ (e ≠ DelayElapsed → emitted a' = emitted a ∧ console a' = console a).
Proof.
  cbv zeta.
  destruct (step_cases onFinish test a e)
    as [[-> ->]|[[-> ->]|[[-> ->]|[[-> ->]
        |[(q & a' & Hq & Hc & ->)| ->]]]]]; [| | | | |done].
  - destruct (tick_frame a) as (Hc & Han & _ & Hi & _ & Hem & Hco & _).
    by rewrite Hc, Han, Hi, Hem, Hco.
  - destruct (commit_frame test a) as (Hc & Han & _ & Ht & Hem & Hco & _).
    rewrite Hc, Han, Ht, Hem, Hco. split_and!; try done.
    intros [?|[?|He]]; try done. unfold commit. simpl.
    by rewrite flush_None.
  - destruct (flush_frame test a) as (Hc & Han & _ & Ht & Hem & Hco & _).
    rewrite Hc, Han, Ht, Hem, Hco. split_and!; try done.
    intros [?|[?|He]]; try done. by rewrite flush_None.
  - destruct (resume_frame onFinish test a) as (Hc & Han & _ & Ht & Hi & _).
    by rewrite Hc, Han, Ht, Hi.
  - destruct (click_frame test q e a a' Hc)
      as (_ & Ht & Hi & Hem & Hco & He' & _).
    destruct (flush_frame test a') as (Hc' & Han' & _ & Ht' & Hem' & Hco' & _).
    simpl. rewrite Hc', Han', Ht', Hem', Hco'.
    split_and!; try done.
    + intros [->|[->|He]]; try done.
      by apply (click_interval test q e a a').
    + by apply (click_answers test q e a a').
    + by apply (click_currentQ test q e a a').
Qed.

End RunnerFrame.

Section RunnerSeconds.
Import TestRunner.

Lemma emitted_without_onFinish test es a :
  emitted a = [] → emitted (run false test es a) = [].
Proof.
  revert a. induction es as [|e es IH]; intros a Ha; simpl; [done|].
  apply IH.
  destruct (step_cases false test a e)
    as [[_ ->]|[[_ ->]|[[_ ->]|[[_ ->]|[(q & a' & Hq & Hc & ->)| ->]]]]]; try done.
  - by destruct (tick_frame a) as (_ & _ & _ & _ & _ & -> & _).
  - by destruct (commit_frame test a) as (_ & _ & _ & _ & -> & _).
  - by destruct (flush_frame test a) as (_ & _ & _ & _ & -> & _).
  - unfold handleSubmit_resume. by destruct (pending a).
  - simpl. destruct (flush_frame test a') as (_ & _ & _ & _ & -> & _).
    by destruct (click_frame test q e a a' Hc) as (_ & _ & _ & -> & _).
Qed.

Lemma start_emitted test : emitted (start test) = [].
Proof.
  unfold start, timer_effect, handleSubmit_of. simpl. by destruct (_ =? 0)%Z.
Qed.

Lemma start_positive test :
  (0 < Test.durationMinutes test)%Z →
  interval (start test) = true ∧ isSubmitting (start test) = false
  ∧ pending (start test) = [] ∧ emitted (start test) = []
  ∧ answersRef (start test) = Array_fill (length (Test.questions test)) (-1)
  ∧ effect (start test) = None
  ∧ screen (start test)
    = mkRender (Test.durationMinutes test * 60) false false.
Proof.
  intros H. unfold start, timer_effect. simpl.
  destruct (_ =? 0)%Z eqn:E; [apply Z.eqb_eq in E; lia|done].
Qed.










End RunnerSeconds.

(** * The session engine *)

Section SessionEngine.
Import TestRunner.

(** C1, as the claim states it, fails: with no [onFinish], the runner does
    not stay in Submitting.  On the sample test, after the submit button,
    the confirmation and the delay, the flag [isSubmitting] is down again:
    the status is Running, nothing waits and nothing was emitted. *)
Lemma C1_counterexample_status_returns_to_Running :
  status (run false sample_test [ClickSubmitTest; ClickSubmitNow]
            (start sample_test)) = Submitting
  ∧ status (run false sample_test
              [ClickSubmitTest; ClickSubmitNow; DelayElapsed]
              (start sample_test)) ≠ Submitting
  ∧ status (run false sample_test
              [ClickSubmitTest; ClickSubmitNow; DelayElapsed]
              (start sample_test)) = Running.
Proof. split_and!; [reflexivity|discriminate|reflexivity]. Qed.

(** C1, amended: in every state the runner can reach without an [onFinish],
    if the render on screen is not submitting and its [handleSubmit] is
    called, the attempt is Submitting, and when the delay of that call is
    over the runner has written "onFinish prop missing" to the console, has
    emitted nothing, and is Running again (never Finished), with answers,
    cursor and countdown as they were; the score of the call is the one of
    the answers; and once the lowered flag is rendered, a new submit passes
    the guard and computes the same score again. *)
Theorem C1_missing_onFinish_logs_and_returns_to_Running
    (test : Test) (es : list Event) :
  let a := run false test es (start test) in
  seen_isSubmitting (screen a) = false →
  let a1 := handleSubmit test a in
  let a2 := handleSubmit_resume false test a1 in
  let score := forEach_score (Test.questions test) 0 (answers a) 0 in
  status a1 = Submitting
  ∧ status a2 = Running
  ∧ emitted a2 = []
  ∧ console a2 = console a ++ ["onFinish prop missing"]
  ∧ answers a2 = answers a
  ∧ currentQ a2 = currentQ a
  ∧ timeLeft a2 = timeLeft a
  ∧ pending a1 = pending a ++ [score]
  ∧ (effect a = None →
     seen_isSubmitting (screen (commit test a2)) = false
     ∧ pending (handleSubmit test (commit test a2)) = pending a2 ++ [score]
     ∧ (pending a = [] →
        pending (handleSubmit test (commit test a2)) = pending a1)).
Proof.
  intros a Hrun a1 a2 score.
  pose proof (reachable_consistent false test es) as Href.
  pose proof (emitted_without_onFinish test es (start test)
                (start_emitted test)) as Hem.
  fold a in Href, Hem. unfold consistent in Href.
  subst a1 a2 score. rewrite (handleSubmit_enter test a Hrun).
  destruct a as [cq an tl sp isub scm ar iv pe em co [stl sis ssm] ef].
  simpl in *. subst.
  unfold handleSubmit_resume, status, commit, flush, handleSubmit,
    handleSubmit_of.
  destruct pe as [|p ps]; simpl; split_and!; try done;
    intros ->; simpl; by rewrite ?Z.eqb_refl.
Qed.

Lemma C1_witness :
  status (handleSubmit_resume false sample_test
            (handleSubmit sample_test
               (run false sample_test [ClickOption 2] (start sample_test))))
  = Running.
Proof.
  exact (proj1 (proj2
    (C1_missing_onFinish_logs_and_returns_to_Running sample_test
       [ClickOption 2] eq_refl))).
Defined.

(** C2, as the claim states it, fails: [handleSelect] rejects nothing.  The
    first question of the sample test has four options, and selecting
    index 7 changes the answer buffer. *)
Lemma C2_counterexample_out_of_range_index_is_written :
  (length <$> (Question.options <$> Test.questions sample_test !! 0)) = Some 4
  ∧ answers (handleSelect 7 (start sample_test)) = [Some 7%Z; Some (-1)%Z]
  ∧ answers (handleSelect 7 (start sample_test))
    ≠ answers (start sample_test).
Proof. split_and!; [reflexivity|reflexivity|discriminate]. Qed.

(** C2, amended: [handleSelect] checks no bounds and never fails: for every
    index, in range or not, it writes the index into the answer slot at the
    cursor, over any earlier choice; the other slots, the cursor, the
    countdown and the status stay as they were. *)
Theorem C2_handleSelect_writes_any_index (idx : Z) (a : Attempt) :
  array_get (answers (handleSelect idx a)) (currentQ a) = Some idx
  ∧ (∀ j, j ≠ currentQ a →
       array_get (answers (handleSelect idx a)) j = array_get (answers a) j)
  ∧ (currentQ a < length (answers a) →
       length (answers (handleSelect idx a)) = length (answers a))
  ∧ currentQ (handleSelect idx a) = currentQ a
  ∧ timeLeft (handleSelect idx a) = timeLeft a
  ∧ isSubmitting (handleSelect idx a) = isSubmitting a
  ∧ status (handleSelect idx a) = status a.
Proof.
  unfold handleSelect. simpl. split_and!; try done.
  - apply array_get_set_eq.
  - intros j Hj. by apply array_get_set_ne.
  - apply array_set_length_in_range.
Qed.



(** C4: the guard of [handleSubmit] reads the flag of its render, and so
    does not keep the timeout and a manual submit apart.  In a state the
    runner reaches with an [onFinish], with one second left, the
    confirmation open and nothing submitted: after the interval's callback
    and the render that shows 0:00, a click on Submit Now, before the
    effect of that render has run, passes the guard, and so does the
    [handleSubmit] of that effect; two scores wait, and after the two
    delays [onFinish] has been called twice; when the submit of the
    timeout has been rendered before the click, there is one call.  What
    the guard does give, in
    every reachable state: a [handleSubmit] of a render whose flag is up
    changes nothing, two calls in a row are one, adding one score; and at
    most two scores ever wait or are handed over. *)
Theorem C4_timeout_and_manual_submit_both_enter
    (test : Test) (es : list Event) (q : Question) :
  let a := run true test es (start test) in
  Test.questions test !! currentQ a = Some q →
  interval a = true → effect a = None →
  timeLeft a = 1%Z → seen_timeLeft (screen a) = 1%Z →
  showConfirmModal a = true → isSubmitting a = false →
  let score := forEach_score (Test.questions test) 0 (answers a) 0 in
  let total := length (Test.questions test) in
  pending a = [] ∧ emitted a = []
  ∧ (let a' := run true test [Tick; Commit; ClickSubmitNow] a in
     timeLeft a' = 0%Z ∧ pending a' = [score; score] ∧ emitted a' = [])
  ∧ emitted (run true test
               [Tick; Commit; ClickSubmitNow; DelayElapsed; DelayElapsed] a)
    = [(score, total); (score, total)]
  ∧ emitted (run true test
               [Tick; Commit; RunEffects; Commit; ClickSubmitNow;
                DelayElapsed; DelayElapsed] a)
    = [(score, total)]
  ∧ (∀ onFinish es',
       let b := run onFinish test es' (start test) in
       (seen_isSubmitting (screen b) = true → handleSubmit test b = b)
       ∧ handleSubmit test (handleSubmit test b) = handleSubmit test b
       ∧ (seen_isSubmitting (screen b) = false →
          pending (handleSubmit test (handleSubmit test b))
          = pending b
            ++ [forEach_score (Test.questions test) 0 (answers b) 0])
       ∧ (onFinish = true → length (pending b) + length (emitted b) ≤ 2)).
Proof.
  intros a Hq Hi He Ht Hs Hm Hf score total.
  pose proof (reachable_consistent true test es) as Href.
  pose proof (entries_ok_run test es (start test) (entries_ok_start test))
    as (_ & Hsf & _ & Hidle).
  fold a in Href, Hsf, Hidle. unfold consistent in Href.
  destruct (Hidle Hf) as [Hp Hem].
  assert (seen_isSubmitting (screen a) = false) as Hsf'
    by (destruct (seen_isSubmitting (screen a)); [by rewrite Hsf in Hf|done]).
  clear Hsf Hidle. subst score total.
  destruct a as [cq an tl sp isub scm ar iv pe em co [stl sis ssm] ef].
  simpl in *. subst.
  split; [done|]. split; [done|]. split; [|split; [|split]].
  - unfold run. simpl. unfold tick. simpl.
    unfold commit, flush. simpl. rewrite Hq. simpl.
    unfold handleSubmit, handleSubmit_of, flush, timer_effect,
      handleSubmit_of. simpl. done.
  - unfold run. simpl. unfold tick. simpl.
    unfold commit, flush. simpl. rewrite Hq. simpl.
    unfold handleSubmit, handleSubmit_of, flush, timer_effect,
      handleSubmit_of. simpl. done.
  - unfold run. simpl. unfold tick. simpl.
    unfold commit, flush. simpl. unfold timer_effect, handleSubmit_of.
    simpl. rewrite Hq. simpl. done.
  - intros onFinish es'. set (b := run onFinish test es' (start test)).
    pose proof (reachable_consistent onFinish test es') as Hrefb.
    fold b in Hrefb. unfold consistent in Hrefb.
    split_and!.
    + apply handleSubmit_guard.
    + apply handleSubmit_twice.
    + intros Hb. rewrite handleSubmit_twice, handleSubmit_enter by done.
      simpl. by rewrite Hrefb.
    + intros ->.
      pose proof (entries_ok_run test es' (start test)
                    (entries_ok_start test)) as (Hn & _).
      fold b in Hn. lia.
Qed.

(** On the sample test, whose duration is one minute: the confirmation is
    opened, 59 seconds pass, and Submit Now is clicked between the render
    of 0:00 and its effect. *)
Lemma C4_witness :
  emitted (run true sample_test
             [Tick; Commit; ClickSubmitNow; DelayElapsed; DelayElapsed]
             (run true sample_test (ClickSubmitTest :: seconds 59)
                (start sample_test)))
  = [(0, 2); (0, 2)].
Proof.
  exact (proj1 (proj2 (proj2 (proj2
    (C4_timeout_and_manual_submit_both_enter sample_test
       (ClickSubmitTest :: seconds 59)
       (sample_question "q1" 2 Quant None None None)
       eq_refl eq_refl eq_refl eq_refl eq_refl eq_refl eq_refl))))).
Defined.



End SessionEngine.

(** * The partitioner: mocks, papers, practice *)

Section Partitioner.
Import App.

(** ** The shuffle rearranges *)

Lemma arrange_Permutation {A} (picks : list nat) (l : list A) :
  Engine.arrange picks l ≡ₚ l.
Proof.
  revert l. induction picks as [|i picks IH]; intros l; simpl; [done|].
  destruct (l !! (i mod length l)) as [x|] eqn:E; [|done].
  rewrite IH. symmetry. by apply delete_Permutation.
Qed.

Lemma shuffle_Permutation engine_sort precision Math_random array k :
  (shuffle engine_sort precision Math_random array k).1 ≡ₚ array.
Proof.
  unfold shuffle. destruct (Engine.run_sort _ _ _) as [picks k'].
  apply arrange_Permutation.
Qed.

Lemma shuffle_length engine_sort precision Math_random array k :
  length (shuffle engine_sort precision Math_random array k).1
  = length array.
Proof. by rewrite shuffle_Permutation. Qed.



(** ** The three subsets split the catalog *)

Lemma subsets_length allQuestions :
  length (quantQs allQuestions) + length (varcQs allQuestions)
  + length (dilrQs allQuestions)
  = length allQuestions.
Proof.
  unfold quantQs, varcQs, dilrQs.
  induction allQuestions as [|q qs IH]; [done|].
  rewrite !filter_cons.
  destruct (Question.category q) eqn:E; repeat case_decide; try done;
    simpl; lia.
Qed.

(** ** The capped list *)

Lemma fullMockQuestions_unfold engine_sort precision Math_random all k :
  let sh := shuffle engine_sort precision Math_random in
  let v := sh (varcQs all) k in
  let d := sh (dilrQs all) v.2 in
  let q := sh (quantQs all) d.2 in
  (fullMockQuestions engine_sort precision Math_random all k).1
  = take 24 v.1 ++ take 20 d.1 ++ take 22 q.1.
Proof.
  intros sh v d q. unfold fullMockQuestions. subst v d q sh.
  destruct (shuffle _ _ _ (varcQs all) k) as [v k1]. simpl.
  destruct (shuffle _ _ _ (dilrQs all) k1) as [d k2]. simpl.
  by destruct (shuffle _ _ _ (quantQs all) k2) as [q k3].
Qed.

Lemma fullMockQuestions_length engine_sort precision Math_random all k :
  length (fullMockQuestions engine_sort precision Math_random all k).1
  = 24 `min` length (varcQs all) + 20 `min` length (dilrQs all)
    + 22 `min` length (quantQs all).
Proof.
  rewrite fullMockQuestions_unfold.
  rewrite !length_app, !length_take, !shuffle_length. lia.
Qed.

Lemma fullMockQuestions_le_catalog engine_sort precision Math_random all k :
  length (fullMockQuestions engine_sort precision Math_random all k).1
  ≤ length all.
Proof.
  rewrite fullMockQuestions_length, <- (subsets_length all). lia.
Qed.





(** The order of a shuffle follows the draws: with the sinking procedure,
    four questions come out in three different orders for three sequences
    of draws, which take three, one and two draws; and the full mock of the
    sample catalog differs with the draws. *)
Lemma shuffle_follows_the_draws :
  let a := sample_question "a" 0 VARC None None None in
  let b := sample_question "b" 0 VARC None None None in
  let c := sample_question "c" 0 VARC None None None in
  let d := sample_question "d" 0 VARC None None None in
  shuffle sinking_engine 1 (λ _, 0%N) [a; b; c; d] 0 = ([d; a; b; c], 3)
  ∧ shuffle sinking_engine 1 (λ _, 1%N) [a; b; c; d] 0 = ([a; b; c; d], 1)
  ∧ shuffle sinking_engine 1 sample_random [a; b; c; d] 0
    = ([a; b; d; c], 2)
  ∧ Test.questions (fullMock sinking_engine 1 (λ _, 0%N) sample_catalog 0)
    ≠ Test.questions (fullMock sinking_engine 1 (λ _, 1%N) sample_catalog 0).
Proof.
  split_and!; try (vm_compute; reflexivity).
  intros Heq. apply (f_equal (λ l, Question.id <$> head l)) in Heq.
  vm_compute in Heq. discriminate Heq.
Qed.

(** C7: when the capped list has five questions or fewer, the full mock's
    questions are the whole catalog as it is; when it has more, they are
    the capped list.  The capped list is never longer than the catalog, so
    a catalog of at most five questions, and so one of three, is the full
    mock itself, which then is the first test of the list. *)
Theorem C7_small_full_mock_falls_back_to_catalog
    (engine_sort : nat → Engine.SortTree) (precision : nat)
    (Math_random : nat → N) (allQuestions : list Question) (k : nat) :
  let capped :=
    (fullMockQuestions engine_sort precision Math_random allQuestions k).1 in
  let full := fullMock engine_sort precision Math_random allQuestions k in
  (length capped ≤ 5 → Test.questions full = allQuestions)
  ∧ (5 < length capped → Test.questions full = capped)
  ∧ length capped ≤ length allQuestions
  ∧ (length allQuestions ≤ 5 → Test.questions full = allQuestions)
  ∧ (length allQuestions = 3 →
     Test.questions full = allQuestions
     ∧ length (Test.questions full) = 3
     ∧ head (mocks engine_sort precision Math_random allQuestions k)
       = Some full).
Proof.
  intros capped full.
  pose proof (fullMockQuestions_le_catalog engine_sort precision Math_random
                allQuestions k) as Hle. fold capped in Hle.
  assert (length capped ≤ 5 → Test.questions full = allQuestions) as Hsmall.
  { intros H5. subst full. unfold fullMock, finalQuestions. simpl.
    fold capped. rewrite decide_False by lia. done. }
  split_and!; try done.
  - intros H5. subst full. unfold fullMock, finalQuestions. simpl.
    fold capped. by rewrite decide_True.
  - intros H5. apply Hsmall. lia.
  - intros H3. assert (Test.questions full = allQuestions) as Hq
      by (apply Hsmall; lia).
    split_and!; [done|by rewrite Hq|].
    unfold mocks. rewrite filter_cons. fold full.
    rewrite decide_True by (rewrite Hq; lia). done.
Qed.

Lemma C7_witness :
  Test.questions (fullMock sample_engine 1 sample_random small_catalog 0)
  = small_catalog.
Proof.
  pose proof (C7_small_full_mock_falls_back_to_catalog sample_engine 1
                sample_random small_catalog 0) as H.
  cbv zeta in H.
  exact (proj1 (proj2 (proj2 (proj2 (proj2 H))) eq_refl)).
Defined.

(** ** The map of papers *)

Section JsMapFacts.
Context {V : Type}.
Implicit Types (m : JsMap.t V) (k : string) (v : V).

Lemma JsMap_has_spec k m : JsMap.has k m = true ↔ k ∈ m.*1.
Proof. unfold JsMap.has. apply bool_decide_eq_true. Qed.

Lemma JsMap_get_None k m : JsMap.get k m = None ↔ k ∉ m.*1.
Proof.
  induction m as [|[k' x] m IH]; simpl.
  - split; [intros _; apply not_elem_of_nil|done].
  - rewrite not_elem_of_cons. case_decide.
    + split; [done|intros [Hne _]; by destruct Hne].
    + rewrite IH. split; [intros ?; split; [by intros ->|done]|by intros [_ ?]].
Qed.

Lemma JsMap_get_set_eq k v m : JsMap.get k (JsMap.set k v m) = Some v.
Proof.
  induction m as [|[k' x] m IH]; simpl.
  - by rewrite decide_True.
  - case_decide; simpl; [by rewrite decide_True|by rewrite decide_False].
Qed.

Lemma JsMap_get_set_ne k k' v m :
  k ≠ k' → JsMap.get k' (JsMap.set k v m) = JsMap.get k' m.
Proof.
  intros Hk. induction m as [|[k0 x] m IH]; simpl.
  - by rewrite decide_False.
  - case_decide; simpl.
    + subst k0. by rewrite !decide_False.
    + case_decide; [done|]. apply IH.
Qed.

Lemma JsMap_keys_set k v m :
  (JsMap.set k v m).*1 = if decide (k ∈ m.*1) then m.*1 else m.*1 ++ [k].
Proof.
  induction m as [|[k0 x] m IH].
  - rewrite decide_False; [done|apply not_elem_of_nil].
  - cbn [JsMap.set]. rewrite !fmap_cons. cbn [fst].
    destruct (decide (k0 = k)) as [->|Hk0].
    + rewrite fmap_cons, decide_True; [done|apply elem_of_cons; by left].
    + rewrite fmap_cons, IH. cbn [fst].
      destruct (decide (k ∈ m.*1)) as [Hin|Hin].
      * rewrite decide_True; [done|apply elem_of_cons; by right].
      * rewrite decide_False; [done|].
        rewrite elem_of_cons. intros [?|?]; [by apply Hk0|done].
Qed.

Lemma JsMap_elem_get k v m : NoDup m.*1 → (k, v) ∈ m → JsMap.get k m = Some v.
Proof.
  induction m as [|[k0 x] m IH]; simpl; intros Hnd Hin.
  - by apply elem_of_nil in Hin.
  - apply NoDup_cons in Hnd as [Hk0 Hnd].
    apply elem_of_cons in Hin as [[= -> ->]|Hin]; [by rewrite decide_True|].
    rewrite decide_False; [by apply IH|].
    intros ->. apply Hk0. apply list_elem_of_fmap. by exists (k, v).
Qed.

Lemma JsMap_get_elem k v m : JsMap.get k m = Some v → (k, v) ∈ m.
Proof.
  induction m as [|[k0 x] m IH]; simpl; [done|].
  case_decide; [intros [= ->]; subst; apply elem_of_cons; by left|].
  intros H'. apply elem_of_cons. right. by apply IH.
Qed.

End JsMapFacts.

Section PyqFacts.

Lemma pyq_visit_unfold m q :
  pyq_visit m q
  = let m1 := if JsMap.has (key_of q) m then m
              else JsMap.set (key_of q) (PyqEntry.mk (year_of q) (slot_of q) 0) m in
    match JsMap.get (key_of q) m1 with
    | Some e => JsMap.set (key_of q)
                  (PyqEntry.mk (PyqEntry.year e) (PyqEntry.slot e) (S (PyqEntry.count e))) m1
    | None => m1
    end.
Proof. reflexivity. Qed.

Lemma pyq_visit_cases m q :
  (key_of q ∈ m.*1
   ∧ ∃ e, JsMap.get (key_of q) m = Some e
          ∧ pyq_visit m q
            = JsMap.set (key_of q)
                (PyqEntry.mk (PyqEntry.year e) (PyqEntry.slot e)
                   (S (PyqEntry.count e)))
                m)
  ∨ ((key_of q ∉ m.*1) ∧ JsMap.get (key_of q) m = None
     ∧ pyq_visit m q
       = JsMap.set (key_of q) (PyqEntry.mk (year_of q) (slot_of q) 1)
           (JsMap.set (key_of q) (PyqEntry.mk (year_of q) (slot_of q) 0) m)).
Proof.
  rewrite pyq_visit_unfold. cbv zeta.
  destruct (JsMap.has (key_of q) m) eqn:Hhas.
  - left. apply JsMap_has_spec in Hhas. split; [done|].
    destruct (JsMap.get (key_of q) m) as [e|] eqn:Hget.
    + by exists e.
    + by apply JsMap_get_None in Hget.
  - right. assert (key_of q ∉ m.*1) as Hnot.
    { intros Hin. apply JsMap_has_spec in Hin. congruence. }
    split; [done|]. split; [by apply JsMap_get_None|].
    by rewrite JsMap_get_set_eq.
Qed.

Lemma pyq_visit_keys m q :
  (pyq_visit m q).*1
  = if decide (key_of q ∈ m.*1) then m.*1 else m.*1 ++ [key_of q].
Proof.
  destruct (pyq_visit_cases m q) as [(Hin & e & _ & ->)|(Hnot & _ & ->)].
  - rewrite JsMap_keys_set. by rewrite !decide_True.
  - rewrite !JsMap_keys_set. rewrite (decide_False (P := key_of q ∈ m.*1)) by done.
    rewrite decide_True; [done|]. apply elem_of_app. right. apply list_elem_of_singleton. done.
Qed.

Lemma pyq_visit_get_ne m q k :
  k ≠ key_of q → JsMap.get k (pyq_visit m q) = JsMap.get k m.
Proof.
  intros Hk.
  destruct (pyq_visit_cases m q) as [(Hin & e & _ & ->)|(Hnot & _ & ->)];
    by rewrite !JsMap_get_set_ne.
Qed.

Lemma pyq_visit_get_eq m q :
  JsMap.get (key_of q) (pyq_visit m q)
  = Some match JsMap.get (key_of q) m with
         | Some e => PyqEntry.mk (PyqEntry.year e) (PyqEntry.slot e) (S (PyqEntry.count e))
         | None => PyqEntry.mk (year_of q) (slot_of q) 1
         end.
Proof.
  destruct (pyq_visit_cases m q) as [(Hin & e & Hget & ->)|(Hnot & Hget & ->)];
    by rewrite JsMap_get_set_eq, Hget.
Qed.

Lemma pyqMap_holds_nil : pyqMap_holds [] [].
Proof.
  split; [simpl; constructor|]. intros k. simpl. intros q Hq.
  by apply elem_of_nil in Hq.
Qed.

Lemma pyqMap_holds_visit m seen q :
  pyqMap_holds m seen → pyqMap_holds (pyq_visit m q) (seen ++ [q]).
Proof.
  intros [Hnd Hall]. split.
  - rewrite pyq_visit_keys. case_decide as Hin; [done|].
    apply NoDup_app. split_and!; [done| |apply NoDup_singleton].
    intros x Hx Hx'. apply list_elem_of_singleton in Hx'. by subst x.
  - intros k. destruct (decide (k = key_of q)) as [->|Hk].
    + rewrite pyq_visit_get_eq. specialize (Hall (key_of q)).
      rewrite filter_app, length_app, filter_cons, decide_True, filter_nil by done.
      destruct (JsMap.get (key_of q) m) as [e|]; simpl.
      * destruct Hall as (Hc & q0 & Hq0 & Hk0 & Hy & Hs).
        split; [lia|]. exists q0. split_and!; try done.
        apply elem_of_app. by left.
      * split.
        -- rewrite filter_none_length; [done|]. intros x Hx. by apply Hall.
        -- exists q. split_and!; try done. apply elem_of_app. right.
           by apply list_elem_of_singleton.
    + rewrite pyq_visit_get_ne by done. specialize (Hall k).
      rewrite filter_app, length_app, filter_cons, decide_False, filter_nil by done.
      destruct (JsMap.get k m) as [e|]; simpl.
      * destruct Hall as (Hc & q0 & Hq0 & Hk0 & Hy & Hs).
        split; [lia|]. exists q0. split_and!; try done.
        apply elem_of_app. by left.
      * intros q' Hq'. apply elem_of_app in Hq' as [Hq'|Hq'].
        -- by apply Hall.
        -- apply list_elem_of_singleton in Hq'. by subst q'.
Qed.

Lemma pyqMap_holds_all allQuestions :
  pyqMap_holds (pyqMap_of allQuestions) allQuestions.
Proof.
  induction allQuestions as [|q l IH] using rev_ind.
  - apply pyqMap_holds_nil.
  - unfold pyqMap_of. rewrite foldl_snoc. by apply pyqMap_holds_visit.
Qed.

End PyqFacts.

(** ** The sort and the order of the papers *)

Lemma insert_sorted_Permutation {A} (cmp : A → A → Z) (x : A) (l : list A) :
  Engine.insert_sorted cmp x l ≡ₚ x :: l.
Proof.
  induction l as [|y l IH]; simpl; [done|].
  destruct (cmp x y <=? 0)%Z; [done|]. rewrite IH. apply Permutation_swap.
Qed.

Lemma Array_sort_Permutation {A} (cmp : A → A → Z) (l : list A) :
  Engine.Array_sort cmp l ≡ₚ l.
Proof.
  induction l as [|x l IH]; simpl; [done|].
  by rewrite insert_sorted_Permutation, IH.
Qed.

Section SortFacts.
Context {A : Type} (cmp : A → A → Z).
Hypothesis cmp_total : ∀ a b, (0 < cmp a b → cmp b a ≤ 0)%Z.
Hypothesis cmp_trans : ∀ a b c, (cmp a b ≤ 0 → cmp b c ≤ 0 → cmp a c ≤ 0)%Z.

Lemma insert_sorted_sorted (x : A) (l : list A) :
  StronglySorted (λ a b, (cmp a b ≤ 0)%Z) l →
  StronglySorted (λ a b, (cmp a b ≤ 0)%Z) (Engine.insert_sorted cmp x l).
Proof.
  induction l as [|y l IH]; simpl; intros Hs.
  - repeat constructor.
  - apply StronglySorted_inv in Hs as [Hs Hy].
    destruct (cmp x y <=? 0)%Z eqn:E.
    + apply Z.leb_le in E. constructor; [by constructor|].
      constructor; [done|]. eapply Forall_impl; [exact Hy|].
      intros z Hz. simpl in Hz. by apply (cmp_trans x y z).
    + apply Z.leb_gt in E. constructor; [by apply IH|].
      rewrite insert_sorted_Permutation. constructor; [|done].
      apply cmp_total. lia.
Qed.

Lemma Array_sort_sorted (l : list A) :
  StronglySorted (λ a b, (cmp a b ≤ 0)%Z) (Engine.Array_sort cmp l).
Proof.
  induction l as [|x l IH]; simpl; [constructor|].
  by apply insert_sorted_sorted.
Qed.

End SortFacts.

Section PaperOrder.
Variable localeCompare : string → string → Z.
Hypothesis lc_flip : ∀ a b, (localeCompare a b < 0 ↔ 0 < localeCompare b a)%Z.
Hypothesis lc_trans :
  ∀ a b c, (localeCompare a b ≤ 0 → localeCompare b c ≤ 0
            → localeCompare a c ≤ 0)%Z.

Lemma paper_compare_listed_before a b :
  (paper_compare localeCompare a b ≤ 0)%Z ↔ listed_before localeCompare a b.
Proof.
  unfold paper_compare, listed_before.
  destruct (_ =? 0)%Z eqn:E; [apply Z.eqb_eq in E|apply Z.eqb_neq in E]; lia.
Qed.

Lemma paper_compare_total a b :
  (0 < paper_compare localeCompare a b
   → paper_compare localeCompare b a ≤ 0)%Z.
Proof.
  unfold paper_compare.
  pose proof (lc_flip (Paper.year a) (Paper.year b)).
  pose proof (lc_flip (Paper.year b) (Paper.year a)).
  pose proof (lc_flip (Paper.slot a) (Paper.slot b)).
  pose proof (lc_flip (Paper.slot b) (Paper.slot a)).
  destruct (localeCompare (Paper.year b) (Paper.year a) =? 0)%Z eqn:E1;
    destruct (localeCompare (Paper.year a) (Paper.year b) =? 0)%Z eqn:E2;
    [apply Z.eqb_eq in E1|apply Z.eqb_eq in E1|apply Z.eqb_neq in E1
    |apply Z.eqb_neq in E1];
    [apply Z.eqb_eq in E2|apply Z.eqb_neq in E2|apply Z.eqb_eq in E2
    |apply Z.eqb_neq in E2]; lia.
Qed.

Lemma paper_compare_trans a b c :
  (paper_compare localeCompare a b ≤ 0
   → paper_compare localeCompare b c ≤ 0
   → paper_compare localeCompare a c ≤ 0)%Z.
Proof.
  rewrite !paper_compare_listed_before. unfold listed_before.
  pose proof (lc_trans (Paper.year c) (Paper.year b) (Paper.year a)).
  pose proof (lc_trans (Paper.year a) (Paper.year c) (Paper.year b)).
  pose proof (lc_trans (Paper.year b) (Paper.year a) (Paper.year c)).
  pose proof (lc_trans (Paper.slot a) (Paper.slot b) (Paper.slot c)).
  pose proof (lc_flip (Paper.year a) (Paper.year b)).
  pose proof (lc_flip (Paper.year b) (Paper.year a)).
  pose proof (lc_flip (Paper.year a) (Paper.year c)).
  pose proof (lc_flip (Paper.year c) (Paper.year a)).
  pose proof (lc_flip (Paper.year b) (Paper.year c)).
  pose proof (lc_flip (Paper.year c) (Paper.year b)).
  lia.
Qed.

Lemma papers_sorted allQuestions :
  StronglySorted (listed_before localeCompare)
    (papers localeCompare allQuestions).
Proof.
  unfold papers.
  eapply StronglySorted_weaken;
    [|apply Array_sort_sorted;
      [apply paper_compare_total|apply paper_compare_trans]].
  intros a b. apply paper_compare_listed_before.
Qed.

End PaperOrder.

Section PaperGroups.
Variable localeCompare : string → string → Z.

Lemma papers_Permutation allQuestions :
  papers localeCompare allQuestions ≡ₚ to_paper <$> pyqMap_of allQuestions.
Proof.
  unfold papers. apply Array_sort_Permutation.
Qed.

Lemma papers_elem allQuestions p :
  p ∈ papers localeCompare allQuestions ↔
  ∃ e, JsMap.get (Paper.id p) (pyqMap_of allQuestions) = Some e
       ∧ p = to_paper (Paper.id p, e).
Proof.
  rewrite papers_Permutation, list_elem_of_fmap.
  destruct (pyqMap_holds_all allQuestions) as [Hnd _].
  split.
  - intros ([k e] & -> & Hin). exists e. split; [|done].
    by apply JsMap_elem_get.
  - intros (e & Hget & Hp). exists (Paper.id p, e). split; [done|].
    by apply JsMap_get_elem.
Qed.

Lemma papers_id allQuestions p :
  p ∈ papers localeCompare allQuestions →
  Paper.id p = Paper.year p +:+ "-" +:+ Paper.slot p.
Proof.
  intros (e & Hget & Hp)%papers_elem.
  destruct (pyqMap_holds_all allQuestions) as [_ Hall].
  specialize (Hall (Paper.id p)). rewrite Hget in Hall.
  destruct Hall as (_ & q0 & _ & Hk & Hy & Hs).
  rewrite Hp at 2 3. simpl. rewrite Hy, Hs. by rewrite <- Hk.
Qed.

Lemma papers_one_per_pair allQuestions p1 p2 :
  p1 ∈ papers localeCompare allQuestions →
  p2 ∈ papers localeCompare allQuestions →
  Paper.year p1 = Paper.year p2 → Paper.slot p1 = Paper.slot p2 → p1 = p2.
Proof.
  intros H1 H2 Hy Hs.
  pose proof (papers_id _ _ H1) as Hid1. pose proof (papers_id _ _ H2) as Hid2.
  apply papers_elem in H1 as (e1 & Hget1 & Hp1).
  apply papers_elem in H2 as (e2 & Hget2 & Hp2).
  assert (Paper.id p1 = Paper.id p2) as Hid by congruence.
  rewrite Hid in Hget1, Hp1. congruence.
Qed.

End PaperGroups.

(** X1: for a catalog in which no two (year, slot) pairs have the same key
    [year-slot], and a collation that is a total preorder, the list of
    papers is sorted by year descending and then slot ascending, has
    exactly one paper for each (year, slot) pair of the catalog, and each
    paper's count is the number of questions of its pair. *)
Theorem papers_grouped_counted_sorted
    (localeCompare : string → string → Z) (allQuestions : list Question) :
  (∀ a b, (localeCompare a b < 0 ↔ 0 < localeCompare b a)%Z) →
  (∀ a b c, (localeCompare a b ≤ 0 → localeCompare b c ≤ 0
             → localeCompare a c ≤ 0)%Z) →
  (∀ q q', q ∈ allQuestions → q' ∈ allQuestions → key_of q = key_of q' →
           year_of q = year_of q' ∧ slot_of q = slot_of q') →
  StronglySorted (listed_before localeCompare)
    (papers localeCompare allQuestions)
  ∧ (∀ p, p ∈ papers localeCompare allQuestions →
       Paper.count p
       = length (filter (λ q, year_of q = Paper.year p
                              ∧ slot_of q = Paper.slot p) allQuestions)
       ∧ 0 < Paper.count p)
  ∧ (∀ q, q ∈ allQuestions →
       ∃ p, p ∈ papers localeCompare allQuestions
            ∧ Paper.year p = year_of q ∧ Paper.slot p = slot_of q)
  ∧ (∀ p1 p2, p1 ∈ papers localeCompare allQuestions →
       p2 ∈ papers localeCompare allQuestions →
       Paper.year p1 = Paper.year p2 → Paper.slot p1 = Paper.slot p2 →
       p1 = p2).
Proof.
  intros Hflip Htrans Hkeys.
  destruct (pyqMap_holds_all allQuestions) as [_ Hall].
  split_and!.
  - by apply papers_sorted.
  - intros p (e & Hget & Hp)%papers_elem.
    specialize (Hall (Paper.id p)). rewrite Hget in Hall.
    destruct Hall as (Hc & q0 & Hq0 & Hk & Hy & Hs).
    assert (Paper.year p = year_of q0 ∧ Paper.slot p = slot_of q0
            ∧ Paper.count p = PyqEntry.count e) as (Hpy & Hps & Hpc)
      by (rewrite Hp; simpl; by rewrite Hy, Hs).
    assert (Paper.count p
            = length (filter (λ q, year_of q = Paper.year p
                                   ∧ slot_of q = Paper.slot p) allQuestions))
      as Hcount.
    { rewrite Hpc, Hc. apply filter_length_ext_in. intros q Hq.
      rewrite Hpy, Hps. split.
      - intros Hkq. apply Hkeys; [done..|congruence].
      - intros [Hqy Hqs]. rewrite <- Hk. unfold key_of. by rewrite Hqy, Hqs. }
    split; [done|]. rewrite Hcount.
    assert (q0 ∈ filter (λ q, year_of q = Paper.year p
                              ∧ slot_of q = Paper.slot p) allQuestions) as Hin
      by (apply list_elem_of_filter; by rewrite Hpy, Hps).
    apply list_elem_of_lookup in Hin as [i Hi].
    apply lookup_lt_Some in Hi. lia.
  - intros q Hq. specialize (Hall (key_of q)).
    destruct (JsMap.get (key_of q) (pyqMap_of allQuestions)) as [e|] eqn:Hget;
      [|by destruct (Hall q Hq)].
    destruct Hall as (_ & q0 & Hq0 & Hk & Hy & Hs).
    destruct (Hkeys q0 q Hq0 Hq Hk) as [Hy' Hs'].
    exists (to_paper (key_of q, e)). split_and!; simpl; [|congruence..].
    apply papers_elem. by exists e.
  - apply papers_one_per_pair.
Qed.

Lemma codeunit_compare_flip a b :
  (codeunit_compare a b < 0 ↔ 0 < codeunit_compare b a)%Z.
Proof.
  unfold codeunit_compare. rewrite (String_as_OT.cmp_antisym a b).
  destruct (String_as_OT.cmp b a); simpl; lia.
Qed.

Lemma codeunit_compare_trans a b c :
  (codeunit_compare a b ≤ 0 → codeunit_compare b c ≤ 0
   → codeunit_compare a c ≤ 0)%Z.
Proof.
  unfold codeunit_compare.
  destruct (String_as_OT.cmp a b) eqn:Eab; [|
    |intros; lia].
  - apply String_as_OT.cmp_eq in Eab. subst b. done.
  - destruct (String_as_OT.cmp b c) eqn:Ebc; [| |intros; lia].
    + apply String_as_OT.cmp_eq in Ebc. subst c. by rewrite Eab.
    + apply String_as_OT.cmp_lt in Eab, Ebc.
      pose proof (String_as_OT.lt_trans _ _ _ Eab Ebc) as Hac.
      apply String_as_OT.cmp_lt in Hac. by rewrite Hac.
Qed.

Lemma three_years_keys q q' :
  q ∈ three_years → q' ∈ three_years → key_of q = key_of q' →
  year_of q = year_of q' ∧ slot_of q = slot_of q'.
Proof.
  unfold three_years. rewrite !elem_of_cons, !elem_of_nil.
  intros Hq Hq'. destruct_or!; subst; try done; by vm_compute.
Qed.

Lemma X1_witness :
  StronglySorted (listed_before codeunit_compare)
    (papers codeunit_compare three_years).
Proof.
  exact (proj1 (papers_grouped_counted_sorted codeunit_compare three_years
                  codeunit_compare_flip codeunit_compare_trans
                  three_years_keys)).
Defined.

Lemma papers_of_three_years :
  papers codeunit_compare three_years
  = [Paper.mk "2023-Slot 1" "2023" "Slot 1" 2;
     Paper.mk "2022-Slot 1" "2022" "Slot 1" 1;
     Paper.mk "2021-Slot 1" "2021" "Slot 1" 1].
Proof. reflexivity. Qed.

(** C8: two questions of two different papers, [("2021", "1-A")] and
    [("2021-1", "A")], have the same key ["2021-1-A"], and
    [processQuestions] lists one paper of two questions for them, whatever
    the collation is; [startPyqTest] for that paper finds one question, and
    the other paper, which [startPyqTest] would find, is not listed. *)
Theorem C8_papers_with_colliding_keys_are_merged
    (localeCompare : string → string → Z) :
  let catalog := [paper_2021_slot_1A; paper_2021_1_slot_A] in
  let s := mkState catalog [] (papers localeCompare catalog) None [] in
  (or_default (Question.year paper_2021_slot_1A) "Unknown",
   or_default (Question.slot paper_2021_slot_1A) "Slot 1")
  ≠ (or_default (Question.year paper_2021_1_slot_A) "Unknown",
     or_default (Question.slot paper_2021_1_slot_A) "Slot 1")
  ∧ papers localeCompare catalog = [Paper.mk "2021-1-A" "2021" "1-A" 2]
  ∧ Test.questions <$> activeTest (startPyqTest "2021" "1-A" s)
    = Some [paper_2021_slot_1A]
  ∧ Test.questions <$> activeTest (startPyqTest "2021-1" "A" s)
    = Some [paper_2021_1_slot_A].
Proof. intros catalog s. split_and!; [discriminate|reflexivity..]. Qed.

(** ** The odds of the shuffle *)

Lemma pow2_not_triple (e x : nat) : 3 * x ≠ 2 ^ e.
Proof.
  revert x. induction e as [|e IH]; intros x; simpl; [lia|].
  intros H. destruct (Nat.Even_or_Odd x) as [[y ->]|[y ->]]; [|lia].
  apply (IH y). lia.
Qed.

Lemma prepend_all_length (ms : list N) (tapes : list (list N)) :
  length (m ← ms; (m ::.) <$> tapes) = length ms * length tapes.
Proof.
  induction ms as [|m ms IH]; [done|].
  rewrite bind_cons, length_app, length_fmap, IH. simpl. lia.
Qed.

Lemma all_draws_length (precision d : nat) :
  length (ShuffleOdds.all_draws precision d) = 2 ^ (precision * d).
Proof.
  induction d as [|d IH]; simpl.
  - by rewrite Nat.mul_0_r.
  - rewrite prepend_all_length, length_fmap, length_seq, IH.
    rewrite <- Nat.pow_add_r. f_equal. lia.
Qed.

(** ** Counting draws over the engine's procedure *)

Section Odds.
Import ShuffleOdds.
Variable precision : nat.
Variable E : list nat → Prop.
Context `{!∀ picks, Decision (E picks)}.

Lemma run_sort_shift t m tape k :
  (Engine.run_sort t (sign_of_call precision (m :: tape)) (S k)).1
  = (Engine.run_sort t (sign_of_call precision tape) k).1.
Proof.
  revert k. induction t as [picks|n IHn z IHz p IHp]; intros k; simpl; [done|].
  change (sign_of_call precision (m :: tape) (S k))
    with (sign_of_call precision tape k).
  destruct (sign_of_call precision tape k); [apply IHz|apply IHn|apply IHp].
Qed.

Lemma chooses_Ask n z p m tape :
  chooses precision E (Engine.Ask n z p) (m :: tape)
  ↔ chooses precision E (branch precision n z p m) tape.
Proof.
  unfold chooses, branch. simpl.
  change (sign_of_call precision (m :: tape) 0)
    with (Engine.sign_minus_half precision m).
  destruct (Engine.sign_minus_half precision m); by rewrite run_sort_shift.
Qed.

Lemma count_Done picks d :
  length (filter (chooses precision E (Engine.Done picks))
            (all_draws precision d))
  = if decide (E picks) then length (all_draws precision d) else 0.
Proof.
  unfold chooses. simpl. case_decide as HE.
  - by apply filter_all_length.
  - by apply filter_none_length.
Qed.

Lemma count_Ask n z p d :
  length (filter (chooses precision E (Engine.Ask n z p))
            (all_draws precision (S d)))
  = sum_list
      ((λ m, length (filter (chooses precision E (branch precision n z p m))
                       (all_draws precision d)))
       <$> (N.of_nat <$> seq 0 (2 ^ precision))).
Proof.
  simpl. rewrite filter_bind_length. f_equal. apply list_fmap_ext.
  intros i m _. rewrite filter_fmap_length. apply filter_length_ext_in.
  intros tape _. apply chooses_Ask.
Qed.

(** Once the draws cover every call the procedure can make, one more draw
    multiplies the count by the number of values of a draw. *)
Lemma count_surplus_draw t d :
  Engine.height t ≤ d →
  length (filter (chooses precision E t) (all_draws precision (S d)))
  = 2 ^ precision
    * length (filter (chooses precision E t) (all_draws precision d)).
Proof.
  revert d. induction t as [picks|n IHn z IHz p IHp]; intros d Hd.
  - rewrite !count_Done. case_decide; [|lia].
    simpl. rewrite prepend_all_length, length_fmap, length_seq. done.
  - simpl in Hd. destruct d as [|d]; [lia|].
    rewrite (count_Ask n z p (S d)), (count_Ask n z p d).
    apply sum_list_scale. intros m _. unfold branch.
    destruct (Engine.sign_minus_half precision m);
      [apply IHz|apply IHn|apply IHp]; lia.
Qed.

End Odds.

Lemma lands_chooses engine_sort precision array x p tape :
  ShuffleOdds.lands engine_sort precision array x p tape
  ↔ ShuffleOdds.chooses precision
      (λ picks, Engine.arrange picks array !! p = Some x)
      (engine_sort (length array)) tape.
Proof.
  unfold ShuffleOdds.lands, ShuffleOdds.chooses, shuffle,
    ShuffleOdds.sign_of_call.
  by destruct (Engine.run_sort _ _ _).
Qed.

Lemma favourable_surplus_draw engine_sort precision d array x p :
  Engine.height (engine_sort (length array)) ≤ d →
  length (ShuffleOdds.favourable engine_sort precision (S d) array x p)
  = 2 ^ precision
    * length (ShuffleOdds.favourable engine_sort precision d array x p).
Proof.
  intros Hd. unfold ShuffleOdds.favourable.
  rewrite !(filter_length_ext_in _ _ _
              (λ tape _, lands_chooses engine_sort precision array x p tape)).
  by apply count_surplus_draw.
Qed.

(** ** How far the odds are from those of a fair coin *)

Section Bias.
Import ShuffleOdds.
Variable p' : nat.
Variable E : list nat → Prop.
Context `{!∀ picks, Decision (E picks)}.

(** The sign of [Math.random() - 0.5] for the draw [m] at a precision of
    [S p'] bits: negative below one half, zero at one half, positive
    above. *)
Lemma sign_of_draw (m : nat) :
  Engine.sign_minus_half (S p') (N.of_nat m) = (m ?= 2 ^ p').
Proof.
  unfold Engine.sign_minus_half.
  assert ((2 ^ N.of_nat (S p'))%N = N.of_nat (2 * 2 ^ p')) as ->.
  { rewrite Nat2N.inj_mul, Nat2N.inj_pow, Nat2N.inj_succ, N.pow_succ_r'.
    done. }
  change 2%N with (N.of_nat 2). rewrite <- Nat2N.inj_mul.
  rewrite <- Nat2N.inj_compare.
  destruct (Nat.compare_spec m (2 ^ p')) as [Hc|Hc|Hc].
  - apply Nat.compare_eq_iff. lia.
  - apply Nat.compare_lt_iff. lia.
  - apply Nat.compare_gt_iff. lia.
Qed.

Lemma sum_list_app_nat (l1 l2 : list nat) :
  sum_list (l1 ++ l2) = sum_list l1 + sum_list l2.
Proof. induction l1 as [|x l1 IH]; simpl; lia. Qed.

Lemma sum_list_const {A} (f : A → nat) (c : nat) (l : list A) :
  (∀ x, x ∈ l → f x = c) → sum_list (f <$> l) = length l * c.
Proof.
  intros Hc. induction l as [|x l IH]; [done|]. csimpl.
  rewrite (Hc x) by (by left). rewrite IH; [lia|].
  intros y Hy. apply Hc. by right.
Qed.

(** Of the [2 ^ S p'] values of a first draw, [2 ^ p'] send the procedure
    to its negative branch, one to the zero branch, and the others to the
    positive branch. *)
Lemma branch_sum (f : Engine.SortTree → nat) (n z g : Engine.SortTree) :
  sum_list ((λ m, f (branch (S p') n z g m))
            <$> (N.of_nat <$> seq 0 (2 ^ S p')))
  + f g
  = 2 ^ p' * f n + f z + 2 ^ p' * f g.
Proof.
  assert (1 ≤ 2 ^ p') as Hpos by (apply Nat.neq_0_lt_0, Nat.pow_nonzero; lia).
  assert (2 ^ S p' = 2 ^ p' + S (2 ^ p' - 1)) as -> by (simpl; lia).
  rewrite seq_app. cbn [seq]. rewrite !fmap_app, !fmap_cons.
  rewrite sum_list_app_nat. cbn [sum_list foldr]. rewrite Nat.add_0_l.
  rewrite <- !list_fmap_compose.
  rewrite (sum_list_const _ (f n)); last first.
  { intros m Hm. apply elem_of_seq in Hm. unfold compose, branch.
    rewrite sign_of_draw. destruct Hm as [_ Hm]. rewrite Nat.add_0_l in Hm.
    apply Nat.compare_lt_iff in Hm. by rewrite Hm. }
  rewrite (sum_list_const _ (f g)); last first.
  { intros m Hm. apply elem_of_seq in Hm. unfold compose, branch.
    rewrite sign_of_draw. destruct Hm as [Hm _].
    apply Nat.compare_gt_iff in Hm. by rewrite Hm. }
  unfold branch at 1. rewrite sign_of_draw, Nat.compare_refl.
  rewrite !length_seq. unfold id.
  generalize dependent (2 ^ p'). intros P HP.
  destruct P as [|P]; [lia|]. rewrite Nat.sub_succ, Nat.sub_0_r. lia.
Qed.

Lemma count_le_all t d :
  length (filter (chooses (S p') E t) (all_draws (S p') d))
  ≤ 2 ^ (S p' * d).
Proof. rewrite <- all_draws_length. apply length_filter. Qed.

(** The count of an outcome among the sequences of [d] draws is near
    [2 ^ (p' * d)] times its count among the sequences of [d] fair signs:
    the two differ by at most [d * 2 ^ (S p' * d) / 2 ^ S p'], which comes
    from the draws that are exactly one half. *)
Lemma count_near_coin t : ∀ d,
  Engine.height t ≤ d →
  (2 ^ Z.of_nat (S p')
   * Z.abs (Z.of_nat (length (filter (chooses (S p') E t)
                                (all_draws (S p') d)))
            - Z.of_nat (coin_count E t d) * 2 ^ Z.of_nat (p' * d))
   ≤ Z.of_nat d * 2 ^ Z.of_nat (S p' * d))%Z.
Proof.
  induction t as [picks|n IHn z _ g IHg]; intros d Hd.
  - rewrite count_Done, all_draws_length. simpl coin_count.
    assert (0 ≤ 2 ^ Z.of_nat (S p' * d))%Z as Hnn by (apply Z.pow_nonneg; lia).
    case_decide.
    + rewrite !Nat2Z.inj_pow.
      change (Z.of_nat 2) with 2%Z.
      rewrite <- Z.pow_add_r by lia.
      replace (Z.of_nat d + Z.of_nat (p' * d))%Z with (Z.of_nat (S p' * d))
        by lia.
      rewrite Z.sub_diag. simpl Z.abs. lia.
    + simpl. lia.
  - simpl in Hd. destruct d as [|d]; [lia|].
    rewrite (count_Ask (S p') E n z g d).
    pose proof (branch_sum
                  (λ t, length (filter (chooses (S p') E t)
                                  (all_draws (S p') d))) n z g) as Hsum.
    simpl in Hsum.
    set (F := sum_list _) in *.
    specialize (IHn d ltac:(lia)). specialize (IHg d ltac:(lia)).
    pose proof (count_le_all z d) as Hz.
    pose proof (count_le_all g d) as Hg.
    set (Fn := length (filter (chooses (S p') E n) _)) in *.
    set (Fz := length (filter (chooses (S p') E z) _)) in *.
    set (Fg := length (filter (chooses (S p') E g) _)) in *.
    cbn [coin_count].
    set (Cn := coin_count E n d) in *. set (Cg := coin_count E g d) in *.
    assert (Z.of_nat (2 ^ (S p' * d)) = 2 ^ Z.of_nat (S p' * d))%Z as HN
      by (by rewrite Nat2Z.inj_pow).
    assert (2 ^ Z.of_nat (S p') = 2 * 2 ^ Z.of_nat p')%Z as HP
      by (rewrite Nat2Z.inj_succ, Z.pow_succ_r; lia).
    assert (2 ^ Z.of_nat (p' * S d)
            = 2 ^ Z.of_nat p' * 2 ^ Z.of_nat (p' * d))%Z as HA.
    { rewrite <- Z.pow_add_r by lia. f_equal. lia. }
    assert (2 ^ Z.of_nat (S p' * S d)
            = 2 * 2 ^ Z.of_nat p' * 2 ^ Z.of_nat (S p' * d))%Z as HN'.
    { rewrite <- HP, <- Z.pow_add_r by lia. f_equal. lia. }
    assert (Z.of_nat F + Z.of_nat Fg
            = 2 ^ Z.of_nat p' * Z.of_nat Fn + Z.of_nat Fz
              + 2 ^ Z.of_nat p' * Z.of_nat Fg)%Z as HF.
    { assert (2 ^ Z.of_nat p' = Z.of_nat (2 ^ p'))%Z as ->
        by (by rewrite Nat2Z.inj_pow).
      rewrite <- !Nat2Z.inj_mul, <- !Nat2Z.inj_add. f_equal. exact Hsum. }
    apply Nat2Z.inj_le in Hz, Hg. rewrite HN in Hz, Hg.
    rewrite HA, HN', HP in *. clear HA HN' HP Hsum HN.
    assert (0 < 2 ^ Z.of_nat p')%Z as HPpos by (apply Z.pow_pos_nonneg; lia).
    assert (0 ≤ 2 ^ Z.of_nat (S p' * d))%Z as HNnn
      by (apply Z.pow_nonneg; lia).
    revert IHn IHg HF Hz Hg HPpos HNnn.
    generalize (2 ^ Z.of_nat p')%Z as P.
    generalize (2 ^ Z.of_nat (S p' * d))%Z as N.
    generalize (2 ^ Z.of_nat (p' * d))%Z as A.
    intros A N P IHn IHg HF Hz Hg HPpos HNnn.
    rewrite Nat2Z.inj_add, Nat2Z.inj_succ.
    set (x := (Z.of_nat Fn - Z.of_nat Cn * A)%Z) in *.
    set (y := (Z.of_nat Fg - Z.of_nat Cg * A)%Z) in *.
    assert (Z.of_nat F - (Z.of_nat Cn + Z.of_nat Cg) * (P * A)
            = P * x + P * y + (Z.of_nat Fz - Z.of_nat Fg))%Z as ->.
    { subst x y.
      replace (Z.of_nat F)
        with (P * Z.of_nat Fn + Z.of_nat Fz + P * Z.of_nat Fg
              - Z.of_nat Fg)%Z by lia.
      ring. }
    assert (Z.abs (P * x + P * y + (Z.of_nat Fz - Z.of_nat Fg))
            ≤ P * Z.abs x + P * Z.abs y + N)%Z as Habs.
    { assert (P * Z.abs x = Z.abs (P * x))%Z as ->
        by (rewrite Z.abs_mul, (Z.abs_eq P); lia).
      assert (P * Z.abs y = Z.abs (P * y))%Z as ->
        by (rewrite Z.abs_mul, (Z.abs_eq P); lia).
      lia. }
    nia.
Qed.

End Bias.

(** C9: [shuffle] is not a uniform random permutation.  Whatever
    procedure the engine's sort follows, for a subset of three questions,
    a question [who] and a position [p]: the sequences of [d] draws with
    which [shuffle] puts [who] at [p] are never a third of all sequences;
    once the draws cover every comparator call the engine can make, one
    more draw multiplies both numbers by the same factor, so that share
    is the probability; and at a precision of [S p'] bits that
    probability differs from 1/3 by at least
    [1 / (3 * 2 ^ d) - d / 2 ^ (S p')]: with the [favourable] and [all]
    sequences,
    [2^(S p') * 2^(p' * d) ≤ 2^(S p') * |3 * favourable - all| + 3 * d * all]
    where [all = 2^(S p' * d)].  For a procedure of at most three calls and
    draws of 53 bits this is more than 0.04. *)
Theorem C9_shuffle_of_three_is_not_uniform
    (engine_sort : nat → Engine.SortTree) (precision d : nat)
    (x y z who : Question) (p : nat) :
  let favourable :=
    length (ShuffleOdds.favourable engine_sort precision d [x; y; z] who p) in
  let all := length (ShuffleOdds.all_draws precision d) in
  3 * favourable ≠ all
  ∧ (Engine.height (engine_sort 3) ≤ d →
     length (ShuffleOdds.favourable engine_sort precision (S d) [x; y; z]
               who p)
     = 2 ^ precision * favourable
     ∧ length (ShuffleOdds.all_draws precision (S d)) = 2 ^ precision * all
     ∧ ∀ p', precision = S p' →
         (2 ^ Z.of_nat precision * 2 ^ Z.of_nat (p' * d)
          ≤ 2 ^ Z.of_nat precision
            * Z.abs (3 * Z.of_nat favourable - Z.of_nat all)
            + 3 * Z.of_nat d * Z.of_nat all)%Z).
Proof.
  intros favourable all. split.
  - subst all. rewrite all_draws_length. apply pow2_not_triple.
  - intros Hd. split; [by apply favourable_surplus_draw|].
    split; [simpl; by rewrite prepend_all_length, length_fmap, length_seq|].
    intros p' ->.
    pose proof (count_near_coin p'
                  (λ picks, Engine.arrange picks [x; y; z] !! p = Some who)
                  (engine_sort 3) d Hd) as Hnear.
    assert (favourable
            = length (filter
                        (ShuffleOdds.chooses (S p')
                           (λ picks,
                              Engine.arrange picks [x; y; z] !! p = Some who)
                           (engine_sort 3))
                        (ShuffleOdds.all_draws (S p') d))) as Hfav.
    { subst favourable. unfold ShuffleOdds.favourable.
      apply filter_length_ext_in. intros tape _.
      apply (lands_chooses engine_sort (S p') [x; y; z] who p tape). }
    rewrite <- Hfav in Hnear.
    set (C := ShuffleOdds.coin_count _ (engine_sort 3) d) in *.
    assert (Z.of_nat all = 2 ^ Z.of_nat d * 2 ^ Z.of_nat (p' * d))%Z as Hall.
    { subst all. rewrite all_draws_length, Nat2Z.inj_pow.
      change (Z.of_nat 2) with 2%Z. rewrite <- Z.pow_add_r by lia.
      f_equal. lia. }
    assert (Z.of_nat all = 2 ^ Z.of_nat (S p' * d))%Z as Hall'
      by (subst all; by rewrite all_draws_length, Nat2Z.inj_pow).
    rewrite <- Hall' in Hnear.
    assert (1 ≤ Z.abs (3 * Z.of_nat C - 2 ^ Z.of_nat d))%Z as Hthird.
    { pose proof (pow2_not_triple d C) as Hne.
      assert (3 * Z.of_nat C ≠ 2 ^ Z.of_nat d)%Z; [|lia].
      intros Heq. apply Hne. apply Nat2Z.inj.
      by rewrite Nat2Z.inj_mul, Nat2Z.inj_pow. }
    assert (0 < 2 ^ Z.of_nat (S p'))%Z as HPpos
      by (apply Z.pow_pos_nonneg; lia).
    assert (0 < 2 ^ Z.of_nat (p' * d))%Z as HApos
      by (apply Z.pow_pos_nonneg; lia).
    revert Hnear Hall Hthird HPpos HApos.
    generalize (2 ^ Z.of_nat (S p'))%Z as P.
    generalize (2 ^ Z.of_nat (p' * d))%Z as A.
    generalize (2 ^ Z.of_nat d)%Z as D.
    generalize (Z.of_nat all) as N. generalize (Z.of_nat favourable) as F.
    generalize (Z.of_nat C) as c. generalize (Z.of_nat d) as dd.
    intros dd c F N D A P Hnear -> Hthird HPpos HApos.
    assert (A ≤ Z.abs (3 * c * A - D * A))%Z as H1.
    { replace (3 * c * A - D * A)%Z with ((3 * c - D) * A)%Z by ring.
      rewrite Z.abs_mul, (Z.abs_eq A) by lia. nia. }
    assert (Z.abs (3 * c * A - D * A)
            ≤ Z.abs (3 * F - D * A) + 3 * Z.abs (F - c * A))%Z as H2 by lia.
    nia.
Qed.

(** For a procedure of at most three calls, such as the insertion sort of
    three elements, and draws of 53 bits. *)
Lemma C9_witness :
  (2 ^ Z.of_nat 53 * 2 ^ Z.of_nat (52 * 3)
   ≤ 2 ^ Z.of_nat 53
     * Z.abs (3 * Z.of_nat
                    (length
                       (ShuffleOdds.favourable sample_engine 53 3
                          [sample_question "s1" 0 Quant None None None;
                           sample_question "s2" 1 VARC (Some true) None None;
                           sample_question "s3" 2 DILR (Some false) None None]
                          (sample_question "s1" 0 Quant None None None) 0))
              - Z.of_nat (length (ShuffleOdds.all_draws 53 3)))
     + 3 * Z.of_nat 3 * Z.of_nat (length (ShuffleOdds.all_draws 53 3)))%Z.
Proof.
  assert (Engine.height (sample_engine 3) ≤ 3) as Hd
    by (vm_compute; lia).
  exact (proj2 (proj2
    (proj2 (C9_shuffle_of_three_is_not_uniform sample_engine 53 3
              (sample_question "s1" 0 Quant None None None)
              (sample_question "s2" 1 VARC (Some true) None None)
              (sample_question "s3" 2 DILR (Some false) None None)
              (sample_question "s1" 0 Quant None None None) 0) Hd))
    52 eq_refl).
Defined.

(** With an insertion sort and draws of one bit, the first of three
    questions stays first or comes second in 3 of 8 cases each and comes
    last in 2 of 8. *)
Lemma insertion_sort_odds :
  (λ p, length (ShuffleOdds.favourable sample_engine 1 3 small_catalog
                  (sample_question "s1" 0 Quant None None None) p))
  <$> [0; 1; 2]
  = [3; 3; 2].
Proof. vm_compute. reflexivity. Qed.

(** With fair signs the same procedure gives the same shares: 3, 3 and 2
    of the 8 sequences of three signs. *)
Lemma insertion_sort_fair_coin_odds :
  (λ p, ShuffleOdds.coin_count
          (λ picks,
             Engine.arrange picks small_catalog !! p
             = Some (sample_question "s1" 0 Quant None None None))
          insertion_sort_3 3)
  <$> [0; 1; 2]
  = [3; 3; 2].
Proof. vm_compute. reflexivity. Qed.

(** C10: the solve button of a question flagged premium does nothing; and
    no sequence of clicks on solve buttons makes the practice test of a
    premium question the active test. *)
Theorem C10_premium_question_is_never_started
    (q : Question) (s : State) (clicked : list Question) :
  Question.isPremium q = Some true →
  solve_onClick q s = s
  ∧ (activeTest s ≠ Some (practiceTest q) →
     activeTest (foldl (λ s' q', solve_onClick q' s') s clicked)
     ≠ Some (practiceTest q)).
Proof.
  intros Hq. split.
  - unfold solve_onClick. by rewrite Hq.
  - revert s. induction clicked as [|q' clicked IH]; intros s Hs; [done|].
    simpl. apply IH. unfold solve_onClick.
    destruct (truthy (Question.isPremium q')) eqn:E; simpl; [done|].
    intros [= Hid Heq]. subst q'. by rewrite Hq in E.
Qed.

Lemma C10_witness :
  activeTest
    (foldl (λ s' q', solve_onClick q' s')
       (mkState small_catalog [] [] None [])
       [sample_question "s2" 1 VARC (Some true) None None;
        sample_question "s3" 2 DILR (Some false) None None;
        sample_question "s2" 1 VARC (Some true) None None])
  ≠ Some (practiceTest (sample_question "s2" 1 VARC (Some true) None None)).
Proof.
  apply (C10_premium_question_is_never_started
           (sample_question "s2" 1 VARC (Some true) None None)
           (mkState small_catalog [] [] None []) _ eq_refl).
  discriminate.
Defined.

End Partitioner.

(** * More of the runner *)

Section RunnerReach.
Import TestRunner RunnerView.

Lemma sync_consistent_id a : consistent a → sync_answersRef a = a.
Proof. intros Href. destruct a. unfold consistent in *. simpl in *. by subst. Qed.

Lemma flush_screen test a : screen (flush test a) = screen a.
Proof.
  unfold flush. destruct (effect a) as [r|]; [|done].
  unfold timer_effect, handleSubmit_of.
  destruct (_ =? 0)%Z; [|done]. by destruct (seen_isSubmitting r).
Qed.

(** X2: while the test has a question, the cursor of a runner reached
    from mount by any events is the index of one of the questions, so the
    question screen (and not the error line of line 375) is rendered;
    Previous on the first question changes nothing, and Next on the last
    question, when the render on screen is not submitting, opens the
    confirmation and moves neither the cursor nor the answers (and changes
    nothing else when no effect was waiting). *)
Theorem X2_cursor_stays_on_a_question
    (onFinish : bool) (test : Test) (es : list Event) :
  Test.questions test ≠ [] →
  let a := run onFinish test es (start test) in
  let last := length (Test.questions test) - 1 in
  currentQ a ≤ last
  ∧ is_Some (Test.questions test !! currentQ a)
  ∧ (currentQ a = 0 → step onFinish test a ClickPrevious = a)
  ∧ (currentQ a = last → seen_isSubmitting (screen a) = false →
     let a' := step onFinish test a ClickNext in
     seen_showConfirmModal (screen a') = true
     ∧ currentQ a' = currentQ a
     ∧ answers a' = answers a
     ∧ (effect a = None → a' = shown_setShowConfirmModal true a)).
Proof.
  intros Hne a last.
  pose proof (cursor_in_range_run onFinish test es (start test)
                (cursor_in_range_start test) Hne) as Hc.
  pose proof (reachable_consistent onFinish test es) as Hcons.
  fold a in Hc, Hcons.
  assert (is_Some (Test.questions test !! currentQ a)) as [q Hq]
    by (by apply lookup_lt_is_Some).
  split_and!; [lia|by exists q| |].
  - intros H0. unfold step. rewrite Hq. simpl. by rewrite decide_True.
  - intros Hlast Hs.
    assert (click test q ClickNext a = Some (shown_setShowConfirmModal true a))
      as Hclick.
    { simpl. rewrite Hs.
      destruct (_ <? _)%Z eqn:E; [apply Z.ltb_lt in E; lia|done]. }
    cbv zeta. rewrite (step_click onFinish test a ClickNext q _ Hq Hclick).
    destruct (flush_frame test (shown_setShowConfirmModal true a))
      as (Hcq & Han & _).
    split_and!.
    + simpl. by rewrite flush_screen.
    + simpl. by rewrite Hcq.
    + simpl. by rewrite Han.
    + intros He. rewrite flush_None by done.
      apply sync_consistent_id. by unfold consistent in *.
Qed.

Lemma X2_witness :
  currentQ (run true sample_test [ClickNext; ClickNext; ClickNext]
              (start sample_test)) ≤ 1.
Proof.
  exact (proj1 (X2_cursor_stays_on_a_question true sample_test
                  [ClickNext; ClickNext; ClickNext] ltac:(discriminate))).
Defined.

(** X3: in every state reached from mount by events of the rendered
    controls and the timers, the answer buffer has one slot for each
    question, the ref holds the buffer, and each slot holds -1 or the
    index of one of the options of its question. *)
Theorem X3_buffer_holds_only_offered_options
    (onFinish : bool) (test : Test) (es : list Event) :
  let a := run onFinish test es (start test) in
  length (answers a) = length (Test.questions test)
  ∧ answersRef a = answers a
  ∧ ∀ i q, Test.questions test !! i = Some q →
      ∃ v, array_get (answers a) i = Some v
           ∧ (v = (-1)%Z ∨ (0 ≤ v < Z.of_nat (length (Question.options q)))%Z).
Proof.
  intros a.
  pose proof (buffer_valid_run onFinish test es (start test)
                (buffer_valid_start test)) as Hb.
  pose proof (reachable_consistent onFinish test es) as Href.
  fold a in Hb, Href. unfold buffer_valid in Hb.
  split_and!; [symmetry; by eapply Forall2_length|done|].
  intros i q Hq.
  destruct (Forall2_lookup_l _ _ _ _ _ Hb Hq) as (slot & Hslot & Hv).
  unfold array_get. rewrite Hslot. simpl.
  destruct Hv as [->|(j & Hj & ->)]; [exists (-1)%Z|exists (Z.of_nat j)];
    (split; [done|]); [by left|right; lia].
Qed.


End RunnerReach.

Section RunnerTransitions.
Import TestRunner RunnerView.

(** X5: in any state, only the interval's callback changes the countdown;
    the interval is set or cleared only by the run of a waiting effect
    (none runs in a callback or at the end of a delay, nor when none
    waits); only a click on an option changes the answers; only the
    palette, Previous and Next move the cursor; and only the end of the
    delay adds to the results handed over and to the console. *)
Theorem X5_handlers_touch_only_their_own_state
    (onFinish : bool) (test : Test) (a : Attempt) (e : Event) :
  let a' := step onFinish test a e in
  (e ≠ Tick → timeLeft a' = timeLeft a)
  ∧ (e = Tick ∨ e = DelayElapsed ∨ effect a = None →
     interval a' = interval a)
  ∧ ((∀ idx, e ≠ ClickOption idx) → answers a' = answers a)
  ∧ ((∀ idx, e ≠ ClickPaletteItem idx) → e ≠ ClickPrevious → e ≠ ClickNext →
     currentQ a' = currentQ a)
  ∧ (e ≠ DelayElapsed → emitted a' = emitted a ∧ console a' = console a).
Proof. apply step_frame. Qed.

(** X6: the number of answered questions shown in the confirmation
    (line 401) is at most the number of questions and is not lowered by any
    event (an answer cannot be taken back); when every [correctAnswer] is a
    non-negative index, the score a submit would compute is at most that
    number. *)
Theorem X6_answered_count_only_grows
    (onFinish : bool) (test : Test) (es : list Event) (e : Event) :
  let a := run onFinish test es (start test) in
  answeredCount a ≤ length (Test.questions test)
  ∧ answeredCount a ≤ answeredCount (step onFinish test a e)
  ∧ (Forall (λ q, (0 ≤ Question.correctAnswer q)%Z) (Test.questions test) →
     forEach_score (Test.questions test) 0 (answersRef a) 0 ≤ answeredCount a).
Proof.
  intros a.
  pose proof (buffer_valid_run onFinish test es (start test)
                (buffer_valid_start test)) as Hb.
  pose proof (reachable_consistent onFinish test es) as Href.
  fold a in Hb, Href. unfold consistent in Href.
  pose proof (Forall2_length _ _ _ Hb) as Hlen.
  split_and!.
  - unfold answeredCount. rewrite Hlen. apply length_filter.
  - assert ((∃ idx, e = ClickOption idx) ∨ (∀ idx, e ≠ ClickOption idx))
      as [[idx ->]|Hno] by (destruct e; eauto; by right).
    + unfold step.
      destruct (Test.questions test !! currentQ a) as [q|] eqn:Hq; [|done].
      simpl. case_decide; [|done].
      unfold answeredCount. simpl.
      destruct (flush_frame test (handleSelect (Z.of_nat idx) a))
        as (_ & -> & _).
      apply (answeredCount_handleSelect a idx).
      rewrite <- Hlen. by eapply lookup_lt_Some.
    + destruct (step_frame onFinish test a e) as (_ & _ & Hans & _).
      unfold answeredCount. by rewrite Hans.
  - intros Hqs. rewrite Href.
    pose proof (score_le_answered _ 0 (answers a) Hqs) as H.
    by rewrite drop_0 in H.
Qed.

Lemma flush_isSubmitting test a :
  (isSubmitting a = true → isSubmitting (flush test a) = true)
  ∧ (isSubmitting (flush test a) = true →
     isSubmitting a = true
     ∨ ∃ r, effect a = Some r ∧ seen_timeLeft r = 0%Z
            ∧ seen_isSubmitting r = false).
Proof.
  unfold flush. destruct (effect a) as [r|] eqn:E; [|by split; [|left]].
  unfold timer_effect, handleSubmit_of.
  destruct (seen_timeLeft r =? 0)%Z eqn:Ez; [|by split; [|left]].
  apply Z.eqb_eq in Ez.
  destruct (seen_isSubmitting r) eqn:Er; simpl; [by split; [|left]|].
  split; [done|]. intros _. right. by exists r.
Qed.

Lemma click_isSubmitting test q e a a' :
  click test q e a = Some a' →
  effect a' = effect a
  ∧ (isSubmitting a = true → isSubmitting a' = true)
  ∧ (isSubmitting a' = true →
     isSubmitting a = true
     ∨ (e = ClickSubmitNow ∧ seen_showConfirmModal (screen a) = true
        ∧ seen_isSubmitting (screen a) = false)).
Proof.
  intros Hc. destruct e; simpl in Hc; repeat case_match; simplify_eq;
    try (by split_and!; [| |left]).
  unfold handleSubmit, handleSubmit_of.
  destruct (seen_isSubmitting (screen a)) eqn:E; [by split_and!; [| |left]|].
  simpl. split_and!; try done. intros _. by right.
Qed.

(** X7: the status of a reachable runner changes only in these ways:
    from Running to Submitting by Submit Now in the confirmation of the
    render on screen, when the flag of that render is down, or by the run
    of the waiting effect of a render of zero whose flag is down (in a
    render, in a run of effects, or with a click); from Submitting, at the
    end of the delay, to Finished (or back to Running when there is no
    [onFinish]); and Finished is never left. *)
Theorem X7_status_changes_only_by_submit_timeout_and_delay
    (onFinish : bool) (test : Test) (es : list Event) (e : Event) :
  let a := run onFinish test es (start test) in
  let a' := step onFinish test a e in
  (status a = Running →
   status a' = Running
   ∨ (status a' = Submitting
      ∧ ((e = ClickSubmitNow ∧ seen_showConfirmModal (screen a) = true
          ∧ seen_isSubmitting (screen a) = false)
         ∨ (e ≠ Tick ∧ e ≠ DelayElapsed
            ∧ ∃ r, effect a = Some r ∧ seen_timeLeft r = 0%Z
                   ∧ seen_isSubmitting r = false))))
  ∧ (status a = Submitting →
     status a' = Submitting
     ∨ (e = DelayElapsed
        ∧ status a' = if onFinish then Finished else Running))
  ∧ (status a = Finished → status a' = Finished).
Proof.
  intros a a'.
  assert (onFinish = true → isSubmitting a = false → pending a = []) as Hidle.
  { intros -> Hs.
    pose proof (entries_ok_run test es (start test) (entries_ok_start test))
      as (_ & _ & _ & Hi).
    by destruct (Hi Hs). }
  assert (e = DelayElapsed ∨ e ≠ DelayElapsed) as [->|Hd]
    by (destruct e; eauto; by right).
  - subst a'. simpl. unfold handleSubmit_resume, status.
    destruct (pending a) as [|score rest] eqn:Hp.
    + destruct (emitted a), (isSubmitting a); split_and!; intros; try done;
        by left.
    + destruct (emitted a) as [|em ems] eqn:He.
      * destruct (isSubmitting a) eqn:Hs.
        -- split_and!; intros; try done. right. split; [done|].
           destruct onFinish; simpl; [done|]. by rewrite He.
        -- destruct onFinish; [by specialize (Hidle eq_refl eq_refl)|].
           simpl. rewrite He. split_and!; intros; try done. by left.
      * split_and!; intros; try done. destruct onFinish; simpl; [done|].
        by rewrite He.
  - destruct (step_frame onFinish test a e) as (_ & _ & _ & _ & Hem).
    destruct (Hem Hd) as [Hem' _]. fold a' in Hem'.
    unfold status. rewrite Hem'.
    destruct (emitted a) eqn:He; [|split_and!; intros; done].
    assert ((isSubmitting a = true → isSubmitting a' = true)
            ∧ (isSubmitting a' = true →
               isSubmitting a = true
               ∨ (e = ClickSubmitNow ∧ seen_showConfirmModal (screen a) = true
                  ∧ seen_isSubmitting (screen a) = false)
               ∨ (e ≠ Tick ∧ e ≠ DelayElapsed
                  ∧ ∃ r, effect a = Some r ∧ seen_timeLeft r = 0%Z
                         ∧ seen_isSubmitting r = false))) as [Hstay Hcause].
    { subst a'.
      destruct (step_cases onFinish test a e)
        as [[-> ->]|[[-> ->]|[[-> ->]|[[-> ->]
            |[(q & b & Hq & Hc & ->)| ->]]]]]; try done.
      - destruct (tick_frame a) as (_ & _ & _ & _ & _ & _ & _ & _ & _ & -> & _).
        split; [done|]. by left.
      - unfold commit. simpl. destruct (flush_isSubmitting test a) as [H1 H2].
        split; [done|]. intros H. destruct (H2 H) as [?|?]; [by left|].
        right; right. by split_and!.
      - destruct (flush_isSubmitting test a) as [H1 H2].
        split; [done|]. intros H. destruct (H2 H) as [?|?]; [by left|].
        right; right. by split_and!.
      - simpl. destruct (flush_isSubmitting test b) as [H1 H2].
        destruct (click_isSubmitting test q e a b Hc) as (Hef & H3 & H4).
        split; [by intros ?; apply H1, H3|].
        intros H. destruct (H2 H) as [Hb|(r & Hr & ?)].
        + destruct (H4 Hb) as [?|?]; [by left|right; by left].
        + right; right. rewrite Hef in Hr.
          split_and!; [|done|by exists r]. intros ->. done.
      - split; [done|]. by left. }
    destruct (isSubmitting a) eqn:Hs.
    + rewrite Hstay by done. split_and!; intros; try done. by left.
    + split_and!; intros; try done.
      destruct (isSubmitting a') eqn:Hs'; [|by left]. right. split; [done|].
      destruct (Hcause eq_refl) as [?|[?|?]]; [done|by left|by right].
Qed.

Lemma step_ClickOption onFinish test a q idx :
  Test.questions test !! currentQ a = Some q →
  idx < length (Question.options q) →
  step onFinish test a (ClickOption idx)
  = sync_answersRef (flush test (handleSelect (Z.of_nat idx) a)).
Proof.
  intros Hq Hidx. unfold step, click. rewrite Hq. by rewrite decide_True.
Qed.

Lemma array_set_twice (l : slots) (i : nat) (v w : Z) :
  i < length l → array_set (array_set l i v) i w = array_set l i w.
Proof.
  intros Hlt. unfold array_set.
  rewrite !(decide_True (P := i < length l)) by done.
  rewrite decide_True by (by rewrite length_insert).
  by rewrite list_insert_insert_eq.
Qed.

(** X8: in a reachable state, choosing option [i] and then option [j]
    of the current question leaves exactly the state that choosing [j]
    alone leaves, and the slot of the current question then holds [j]. *)
Theorem X8_last_selection_wins
    (onFinish : bool) (test : Test) (es : list Event) (q : Question)
    (i j : nat) :
  let a := run onFinish test es (start test) in
  Test.questions test !! currentQ a = Some q →
  i < length (Question.options q) →
  j < length (Question.options q) →
  step onFinish test (step onFinish test a (ClickOption i)) (ClickOption j)
  = step onFinish test a (ClickOption j)
  ∧ array_get (answers (step onFinish test a (ClickOption j))) (currentQ a)
    = Some (Z.of_nat j).
Proof.
  intros a Hq Hi Hj.
  pose proof (buffer_valid_run onFinish test es (start test)
                (buffer_valid_start test)) as Hb. fold a in Hb.
  assert (currentQ a < length (answers a)) as Hlt.
  { rewrite <- (Forall2_length _ _ _ Hb). by eapply lookup_lt_Some. }
  rewrite (step_ClickOption onFinish test a q i Hq Hi).
  rewrite (step_ClickOption onFinish test a q j Hq Hj).
  assert (currentQ (sync_answersRef
                      (flush test (handleSelect (Z.of_nat i) a)))
          = currentQ a) as Hcq.
  { simpl. by destruct (flush_frame test (handleSelect (Z.of_nat i) a))
      as (-> & _). }
  rewrite (step_ClickOption onFinish test _ q j); [|by rewrite Hcq|done].
  split.
  - clear Hb Hq Hcq.
    destruct a as [cq an tl sp isub scm ar iv pe em co sc ef].
    simpl in Hlt.
    unfold handleSelect, flush, timer_effect, handleSubmit_of,
      sync_answersRef. simpl.
    destruct ef as [r|]; simpl; [|by rewrite array_set_twice].
    destruct (seen_timeLeft r =? 0)%Z; simpl; [|by rewrite array_set_twice].
    destruct (seen_isSubmitting r); simpl; by rewrite array_set_twice.
  - simpl.
    destruct (flush_frame test (handleSelect (Z.of_nat j) a))
      as (_ & -> & _).
    apply array_get_set_eq.
Qed.

Lemma X8_witness :
  step true sample_test
    (step true sample_test (start sample_test) (ClickOption 3)) (ClickOption 2)
  = step true sample_test (start sample_test) (ClickOption 2).
Proof.
  exact (proj1 (X8_last_selection_wins true sample_test []
                  (sample_question "q1" 2 Quant None None None) 3 2
                  eq_refl ltac:(simpl; lia) ltac:(simpl; lia))).
Defined.

End RunnerTransitions.

(** * The clock *)

Lemma string_length_app (a b : string) :
  String.length (a +:+ b) = String.length a + String.length b.
Proof.
  induction a as [|c a IH]; [done|].
  change (String c a +:+ b) with (String c (a +:+ b)). simpl. by rewrite IH.
Qed.

Lemma string_app_suffix_inj (a b c d : string) :
  String.length c = String.length d → a +:+ c = b +:+ d → a = b ∧ c = d.
Proof.
  intros Hlen. revert b. induction a as [|x a IH]; intros [|y b] H.
  - done.
  - change (c = String y (b +:+ d)) in H. rewrite H in Hlen. simpl in Hlen.
    rewrite string_length_app in Hlen. lia.
  - change (String x (a +:+ c) = d) in H. rewrite <- H in Hlen.
    simpl in Hlen. rewrite string_length_app in Hlen. lia.
  - change (String x (a +:+ c) = String y (b +:+ d)) in H.
    injection H as -> H. destruct (IH b H) as [-> ->]. done.
Qed.

Section FormatTime.
Import RunnerView.

(** The seconds of [formatTime]. *)
Lemma formatTime_unfold (s : Z) :
  (- 2 ^ 53 < s < 2 ^ 53)%Z →
  formatTime s
  = Some (pretty (s / 60)%Z
          +:+ (":" +:+ ((if (Z.rem s 60 <? 10)%Z then "0" else "")
                        +:+ pretty (Z.rem s 60)))).
Proof. intros Hs. unfold formatTime. by rewrite decide_True. Qed.

Lemma seconds_text_length (k : nat) :
  k < 60 → String.length (seconds_text k) = 3.
Proof.
  intros Hk.
  assert (Forall (λ k, String.length (seconds_text k) = 3) (seq 0 60)) as H
    by (apply (bool_decide_unpack _); vm_compute; exact I).
  rewrite Forall_forall in H. apply H. apply elem_of_seq. lia.
Qed.

Lemma seconds_text_inj (k1 k2 : nat) :
  k1 < 60 → k2 < 60 → seconds_text k1 = seconds_text k2 → k1 = k2.
Proof.
  intros H1 H2 Heq.
  assert (NoDup (seconds_text <$> seq 0 60)) as Hnd
    by (apply (bool_decide_unpack _); vm_compute; exact I).
  apply (NoDup_lookup _ k1 k2 (seconds_text k1) Hnd).
  - rewrite list_lookup_fmap, lookup_seq_lt by done. done.
  - rewrite list_lookup_fmap, lookup_seq_lt by done. simpl. by rewrite Heq.
Qed.

(** X9: for a whole number of seconds from 0 to below 2^53 (the numbers
    of seconds a double holds exactly), [formatTime] gives the minutes, a
    colon and exactly two more characters, and two different numbers of
    seconds are never shown as the same text. *)
Theorem X9_formatTime_shows_distinct_times (s1 s2 : Z) :
  (0 ≤ s1 < 2 ^ 53)%Z → (0 ≤ s2 < 2 ^ 53)%Z →
  (∃ t, String.length t = 2
        ∧ formatTime s1 = Some (pretty (s1 / 60)%Z +:+ ":" +:+ t))
  ∧ (formatTime s1 = formatTime s2 → s1 = s2).
Proof.
  intros H1 H2.
  assert (∀ s, (0 ≤ s < 2 ^ 53)%Z →
            formatTime s
            = Some (pretty (s / 60)%Z +:+ seconds_text (Z.to_nat (s mod 60)))
            ∧ Z.to_nat (s mod 60) < 60) as Hshape.
  { intros s Hs. pose proof (Z.mod_pos_bound s 60 ltac:(lia)).
    split; [|lia]. rewrite formatTime_unfold by lia. unfold seconds_text.
    rewrite Z.rem_mod_nonneg by lia. by rewrite Z2Nat.id by lia. }
  destruct (Hshape s1 H1) as [Hf1 Hk1]. destruct (Hshape s2 H2) as [Hf2 Hk2].
  split.
  - pose proof (seconds_text_length _ Hk1) as Hlen.
    unfold seconds_text in Hlen, Hf1. simpl in Hlen.
    eexists. split; [|exact Hf1]. by injection Hlen.
  - intros Heq. rewrite Hf1, Hf2 in Heq. injection Heq as Heq.
    apply string_app_suffix_inj in Heq as [Hm Hs];
      [|by rewrite !seconds_text_length].
    apply (inj pretty) in Hm. apply seconds_text_inj in Hs; [|done..].
    pose proof (Z.div_mod s1 60 ltac:(lia)).
    pose proof (Z.div_mod s2 60 ltac:(lia)).
    pose proof (Z.mod_pos_bound s1 60 ltac:(lia)).
    pose proof (Z.mod_pos_bound s2 60 ltac:(lia)).
    lia.
Qed.

Lemma X9_witness :
  ∃ t, String.length t = 2
       ∧ formatTime 65 = Some (pretty (65 / 60)%Z +:+ ":" +:+ t).
Proof.
  exact (proj1 (X9_formatTime_shows_distinct_times 65 125
                  ltac:(lia) ltac:(lia))).
Defined.

End FormatTime.

(** * More of the mocks and the papers *)

Section MockFacts.
Import App.

Lemma subsets_Permutation allQuestions :
  varcQs allQuestions ++ dilrQs allQuestions ++ quantQs allQuestions
  ≡ₚ allQuestions.
Proof.
  unfold quantQs, varcQs, dilrQs.
  induction allQuestions as [|q qs IH]; [done|].
  rewrite !filter_cons.
  destruct (Question.category q) eqn:E; repeat case_decide; try done.
  - by rewrite app_assoc, <- Permutation_middle, <- app_assoc, IH.
  - simpl. by rewrite IH.
  - simpl. by rewrite <- Permutation_middle, IH.
Qed.

Lemma capped_submseteq engine_sort precision Math_random all k :
  (fullMockQuestions engine_sort precision Math_random all k).1 ⊆+ all.
Proof.
  rewrite fullMockQuestions_unfold. cbv zeta.
  etrans; [|apply Permutation_submseteq, subsets_Permutation].
  repeat apply submseteq_app;
    (etrans; [apply sublist_submseteq, sublist_take|]);
    apply Permutation_submseteq, shuffle_Permutation.
Qed.

Lemma finalQuestions_submseteq engine_sort precision Math_random all k :
  finalQuestions engine_sort precision Math_random all k ⊆+ all.
Proof.
  unfold finalQuestions. case_decide; [apply capped_submseteq|done].
Qed.

Lemma finalQuestions_length engine_sort precision Math_random all k :
  length (finalQuestions engine_sort precision Math_random all k) ≤ 66.
Proof.
  unfold finalQuestions.
  pose proof (fullMockQuestions_length engine_sort precision Math_random all k)
    as Hlen.
  pose proof (subsets_length all).
  case_decide; lia.
Qed.

Lemma take_shuffle_category engine_sort precision Math_random all k n c :
  Forall (λ q, Question.category q = c)
    (take n (shuffle engine_sort precision Math_random
               (filter (λ q, Question.category q = c) all) k).1).
Proof.
  apply Forall_take. rewrite shuffle_Permutation.
  apply Forall_forall. by intros q [? _]%list_elem_of_filter.
Qed.

Lemma Forall_category_replicate (l : list Question) (c : Category) :
  Forall (λ q, Question.category q = c) l →
  Question.category <$> l = replicate (length l) c.
Proof.
  induction 1 as [|q l Hq _ IH]; [done|]. csimpl. by rewrite Hq, IH.
Qed.

(** X10: the list of mocks of [processQuestions] holds only tests with at
    least one question, all of them questions of the catalog; it is the
    list full, Quant, VARC, DILR with the empty tests left out, so the ids
    are distinct; it is empty exactly when the catalog is; for a catalog
    that is not empty the full mock comes first; and the full mock is
    listed exactly when the catalog is not empty, and each sectional
    exactly when the catalog has a question of its category. *)
Theorem X10_mocks_lists_only_nonempty_tests
    (engine_sort : nat → Engine.SortTree) (precision : nat)
    (Math_random : nat → N) (allQuestions : list Question) (k : nat) :
  let full := fullMock engine_sort precision Math_random allQuestions k in
  let listed := mocks engine_sort precision Math_random allQuestions k in
  (∀ t, t ∈ listed →
     Test.questions t ≠ [] ∧ ∀ q, q ∈ Test.questions t → q ∈ allQuestions)
  ∧ listed `sublist_of`
      [full; quantMock allQuestions; varcMock allQuestions;
       dilrMock allQuestions]
  ∧ NoDup (Test.id <$> listed)
  ∧ (allQuestions = [] ↔ listed = [])
  ∧ (allQuestions ≠ [] → head listed = Some full)
  ∧ (quantMock allQuestions ∈ listed
     ↔ ∃ q, q ∈ allQuestions ∧ Question.category q = Quant)
  ∧ (varcMock allQuestions ∈ listed
     ↔ ∃ q, q ∈ allQuestions ∧ Question.category q = VARC)
  ∧ (dilrMock allQuestions ∈ listed
     ↔ ∃ q, q ∈ allQuestions ∧ Question.category q = DILR)
  ∧ (full ∈ listed ↔ allQuestions ≠ []).
Proof.
  intros full listed.
  assert (listed `sublist_of`
            [full; quantMock allQuestions; varcMock allQuestions;
             dilrMock allQuestions]) as Hsub by apply sublist_filter.
  assert (∀ t, t ∈ listed → 0 < length (Test.questions t)) as Hpos
    by (by intros t [? _]%list_elem_of_filter).
  assert (allQuestions ≠ [] → 0 < length (Test.questions full)) as Hfull.
  { intros Hne. subst full. unfold fullMock, finalQuestions. simpl.
    case_decide; [lia|]. destruct allQuestions; [done|simpl; lia]. }
  assert (∀ t, t ∈ listed →
            Test.questions t ≠ [] ∧ ∀ q, q ∈ Test.questions t → q ∈ allQuestions)
    as Hfirst.
  { intros t Ht. split.
    + intros Hnil. specialize (Hpos t Ht). rewrite Hnil in Hpos. simpl in Hpos.
      lia.
    + intros q Hq. apply (elem_of_sublist _ _ _ Ht) in Hsub. rename Hsub into Ht'.
      clear Ht. rename Ht' into Ht.
      rewrite !elem_of_cons, elem_of_nil in Ht.
      destruct Ht as [->|[->|[->|[->|[]]]]]; simpl in Hq.
      * eapply elem_of_submseteq; [exact Hq|apply finalQuestions_submseteq].
      * by apply list_elem_of_filter in Hq as [_ ?].
      * by apply list_elem_of_filter in Hq as [_ ?].
      * by apply list_elem_of_filter in Hq as [_ ?]. }
  assert (∀ (t : Test) (c : Category),
            Test.questions t
            = filter (λ q, Question.category q = c) allQuestions →
            t ∈ [full; quantMock allQuestions; varcMock allQuestions;
                 dilrMock allQuestions] →
            t ∈ listed
            ↔ ∃ q, q ∈ allQuestions ∧ Question.category q = c)
    as sectional_listed.
  { intros t c Hqs Hin. split.
    + intros Ht. specialize (Hpos _ Ht). rewrite Hqs in Hpos.
      destruct (filter _ allQuestions) as [|q l] eqn:E; [simpl in Hpos; lia|].
      exists q. assert (q ∈ filter (λ q, Question.category q = c)
                          allQuestions) as Hq by (rewrite E; by left).
      by apply list_elem_of_filter in Hq as [? ?].
    + intros (q & Hq & Hc). apply list_elem_of_filter. split; [|done].
      rewrite Hqs.
      assert (q ∈ filter (λ q, Question.category q = c) allQuestions)
        as Hin' by (by apply list_elem_of_filter).
      apply list_elem_of_lookup in Hin' as [i Hi].
      apply lookup_lt_Some in Hi. lia. }
  split_and!.
  - done.
  - done.
  - eapply sublist_NoDup; [|apply fmap_sublist, Hsub].
    apply (bool_decide_unpack _). by vm_compute.
  - split.
    + intros ->. destruct listed as [|t l] eqn:E; [done|].
      destruct (Hfirst t) as [Hne Hall]; [by left|].
      destruct (Test.questions t) as [|q qs]; [done|].
      specialize (Hall q). rewrite elem_of_nil in Hall. destruct Hall. by left.
    + intros Hnil. destruct allQuestions as [|q qs]; [done|].
      assert (full ∈ listed) as Hin.
      { apply list_elem_of_filter. split; [by apply Hfull|]. by left. }
      rewrite Hnil in Hin. by apply elem_of_nil in Hin.
  - intros Hne. subst listed. unfold mocks. fold full.
    rewrite filter_cons, decide_True by (by apply Hfull). done.
  - apply (sectional_listed (quantMock allQuestions) Quant); try done.
    right. by left.
  - apply (sectional_listed (varcMock allQuestions) VARC); try done.
    right; right. by left.
  - apply (sectional_listed (dilrMock allQuestions) DILR); try done.
    right; right; right. by left.
  - split.
    + intros Hin Hnil. specialize (Hpos _ Hin). subst full.
      unfold fullMock, finalQuestions in Hpos. simpl in Hpos.
      pose proof (fullMockQuestions_le_catalog engine_sort precision
                    Math_random allQuestions k) as Hle.
      rewrite Hnil in *. simpl in *. case_decide; simpl in *; lia.
    + intros Hne. apply list_elem_of_filter. split; [by apply Hfull|].
      by left.
Qed.

(** X11: the questions of the full mock are questions of the catalog,
    each taken at most as often as the catalog has it (so without
    repetition when the catalog has none), and at most 66; the capped list
    is a block of at most 24 VARC questions, then at most 20 DILR
    questions, then at most 22 Quant questions; and the fall-back to the
    whole catalog is taken only for a catalog of at most five
    questions. *)
Theorem X11_full_mock_is_drawn_from_the_catalog
    (engine_sort : nat → Engine.SortTree) (precision : nat)
    (Math_random : nat → N) (allQuestions : list Question) (k : nat) :
  let full := fullMock engine_sort precision Math_random allQuestions k in
  let capped :=
    (fullMockQuestions engine_sort precision Math_random allQuestions k).1 in
  Test.questions full ⊆+ allQuestions
  ∧ length (Test.questions full) ≤ 66
  ∧ (NoDup allQuestions → NoDup (Test.questions full))
  ∧ (∃ v d q, v ≤ 24 ∧ d ≤ 20 ∧ q ≤ 22
              ∧ Question.category <$> capped
                = replicate v VARC ++ replicate d DILR ++ replicate q Quant)
  ∧ (length capped ≤ 5 → length allQuestions ≤ 5).
Proof.
  intros full capped.
  pose proof (finalQuestions_submseteq engine_sort precision Math_random
                allQuestions k) as Hsub.
  split_and!.
  - done.
  - apply finalQuestions_length.
  - intros Hnd. apply submseteq_Permutation in Hsub as [rest Hrest].
    rewrite Hrest in Hnd. by apply NoDup_app in Hnd as [? _].
  - subst capped. rewrite fullMockQuestions_unfold. cbv zeta.
    eexists _, _, _. rewrite !fmap_app. unfold varcQs, dilrQs, quantQs.
    rewrite !(Forall_category_replicate _ _
                (take_shuffle_category _ _ _ _ _ _ _)).
    split_and!; [| | |done]; rewrite length_take; lia.
  - subst capped. rewrite fullMockQuestions_length.
    rewrite <- (subsets_length allQuestions). lia.
Qed.

End MockFacts.

Lemma filter_length_impl {A} (P Q : A → Prop) `{!∀ x, Decision (P x)}
    `{!∀ x, Decision (Q x)} (l : list A) :
  (∀ x, x ∈ l → P x → Q x) → length (filter P l) ≤ length (filter Q l).
Proof.
  intros Himp. induction l as [|x l IH]; [done|].
  rewrite !filter_cons.
  assert (P x → Q x) as Hx by (apply Himp; by left).
  assert (length (filter P l) ≤ length (filter Q l)) as Hl
    by (apply IH; intros y Hy; apply Himp; by right).
  destruct (decide (P x)), (decide (Q x)); simpl; try tauto; lia.
Qed.

Section PaperStart.
Import App Host.

(** X12: once the questions are loaded, Attempt Now on any listed paper
    never raises the alert: [startPyqTest] with the year and slot of the
    paper makes a PYQ test of 60 minutes active, whose questions are
    exactly the questions of that year and slot (by the defaults), at least
    one and at most the count shown for the paper, and whose id is
    ["pyq-"] followed by the id of the paper. *)
Theorem X12_listed_paper_starts_its_questions
    (localeCompare : string → string → Z)
    (engine_sort : nat → Engine.SortTree) (precision : nat)
    (Math_random : nat → N) (data : list Question) (k : nat)
    (s : App.State) (p : Paper) :
  p ∈ pyqPapers
        (questionsLoaded localeCompare engine_sort precision Math_random
           data k s).1 →
  ∃ test,
    startPyqTest (Paper.year p) (Paper.slot p)
      (questionsLoaded localeCompare engine_sort precision Math_random
         data k s).1
    = setActiveTest (Some test)
        (questionsLoaded localeCompare engine_sort precision Math_random
           data k s).1
    ∧ Test.questions test
      = filter (λ q, year_of q = Paper.year p ∧ slot_of q = Paper.slot p)
          data
    ∧ Test.questions test ≠ []
    ∧ length (Test.questions test) ≤ Paper.count p
    ∧ Test.id test = "pyq-" +:+ Paper.id p
    ∧ Test.durationMinutes test = 60%Z
    ∧ Test.type test = Some PYQ.
Proof.
  intros Hp. pose proof (papers_id _ _ _ Hp) as Hid.
  apply papers_elem in Hp as Hel. destruct Hel as (e & Hget & Hpe).
  destruct (pyqMap_holds_all data) as [_ Hall].
  specialize (Hall (Paper.id p)). rewrite Hget in Hall.
  destruct Hall as (Hcount & q0 & Hq0 & Hk & Hy & Hs).
  assert (Paper.year p = year_of q0 ∧ Paper.slot p = slot_of q0
          ∧ Paper.count p = PyqEntry.count e) as (Hpy & Hps & Hpc).
  { rewrite Hpe. simpl. by rewrite Hy, Hs. }
  set (matching := filter (λ q, year_of q = Paper.year p
                                ∧ slot_of q = Paper.slot p) data).
  assert (q0 ∈ matching) as Hin by (by apply list_elem_of_filter).
  assert (length matching ≠ 0) as Hlen.
  { apply list_elem_of_lookup in Hin as [i Hi].
    apply lookup_lt_Some in Hi. lia. }
  unfold startPyqTest, questionsLoaded, processQuestions.
  cbn [fst questions mockTests pyqPapers activeTest alerts].
  case_decide as Hd; [by destruct Hlen|].
  eexists. split; [reflexivity|]. cbn [Test.questions Test.id
    Test.durationMinutes Test.type].
  split_and!; try done.
  - intros Hnil. change (matching = []) in Hnil. by rewrite Hnil in Hlen.
  - rewrite Hpc, Hcount. apply filter_length_impl.
    intros q _ [Hqy Hqs]. unfold key_of, year_of, slot_of.
    by rewrite Hqy, Hqs, Hid.
  - by rewrite Hid.
Qed.

End PaperStart.

Lemma X12_witness :
  ∃ test,
    App.startPyqTest "2023" "Slot 1"
      (Host.questionsLoaded codeunit_compare sample_engine 1 sample_random
         three_years 0 (App.mkState [] [] [] None [])).1
    = App.setActiveTest (Some test)
        (Host.questionsLoaded codeunit_compare sample_engine 1 sample_random
           three_years 0 (App.mkState [] [] [] None [])).1
    ∧ Test.questions test
      = filter (λ q, App.year_of q = "2023" ∧ App.slot_of q = "Slot 1")
          three_years
    ∧ Test.questions test ≠ []
    ∧ length (Test.questions test) ≤ 2
    ∧ Test.id test = "pyq-" +:+ "2023-Slot 1"
    ∧ Test.durationMinutes test = 60%Z
    ∧ Test.type test = Some PYQ.
Proof.
  apply (X12_listed_paper_starts_its_questions codeunit_compare sample_engine
           1 sample_random three_years 0 (App.mkState [] [] [] None [])
           (Paper.mk "2023-Slot 1" "2023" "Slot 1" 2)).
  vm_compute. constructor.
Defined.

(** * Accounts, statistics and the storage *)

Section BrowserFacts.
Import Host Browser.

(** ** The keys of the storage *)

Lemma stats_key_inj e1 e2 : stats_key e1 = stats_key e2 → e1 = e2.
Proof. unfold stats_key. intros H. vm_compute in H. by simplify_eq. Qed.

Lemma stats_key_not_users e : stats_key e ≠ "catrix_users".
Proof. unfold stats_key. intros H. vm_compute in H. discriminate H. Qed.

Lemma stats_key_not_current e : stats_key e ≠ "catrix_current_user_email".
Proof. unfold stats_key. intros H. vm_compute in H. discriminate H. Qed.

Lemma read_users_insert_current (ls : Storage) v :
  read_users (<["catrix_current_user_email" := v]> ls) = read_users ls.
Proof. unfold read_users. by rewrite lookup_insert_ne. Qed.

Lemma read_users_delete_current (ls : Storage) :
  read_users (delete "catrix_current_user_email" ls) = read_users ls.
Proof. unfold read_users. by rewrite lookup_delete_ne. Qed.

Lemma read_users_insert_stats (ls : Storage) e v :
  read_users (<[stats_key e := v]> ls) = read_users ls.
Proof.
  unfold read_users. rewrite lookup_insert_ne; [done|].
  apply stats_key_not_users.
Qed.

Lemma read_users_insert_users (ls : Storage) users :
  read_users (<["catrix_users" := StoredUsers users]> ls) = Some users.
Proof. unfold read_users. by rewrite lookup_insert_eq. Qed.

(** ** The statistics *)

Lemma stats_ok_noStats : stats_ok noStats.
Proof. repeat split; constructor. Qed.

Lemma sum_list_fmap_snoc {A} (f : A → nat) (l : list A) (x : A) :
  sum_list (f <$> l ++ [x]) = sum_list (f <$> l) + f x.
Proof. induction l as [|y l IH]; csimpl; lia. Qed.

Lemma stats_ok_add st now id score total :
  stats_ok st → score ≤ total → nonempty id = true →
  stats_ok
    (UserStats.mk (UserStats.testsTaken st + 1)
       (UserStats.questionsAttempted st + total)
       (UserStats.correctAnswers st + score)
       (UserStats.history st ++ [HistoryEntry.mk now id score total])).
Proof.
  intros (Ht & Hq & Hc & Hall) Hle Hid. unfold stats_ok.
  cbn [UserStats.testsTaken UserStats.questionsAttempted
       UserStats.correctAnswers UserStats.history].
  split_and!.
  - rewrite length_app. simpl. lia.
  - rewrite sum_list_fmap_snoc. simpl. lia.
  - rewrite sum_list_fmap_snoc. simpl. lia.
  - apply Forall_app. split; [done|]. by repeat constructor.
Qed.

Lemma stats_ok_correct_le st :
  stats_ok st → UserStats.correctAnswers st ≤ UserStats.questionsAttempted st.
Proof.
  intros (_ & -> & -> & Hall).
  induction Hall as [|h l [Hh _] _ IH]; csimpl; lia.
Qed.

(** ** The storage under the handlers *)

Lemma storage_ok_empty : storage_ok ∅.
Proof.
  split.
  - exists ∅. split; [done|]. intros e u Hu. by rewrite lookup_empty in Hu.
  - intros e. by rewrite lookup_empty.
Qed.

Lemma storage_ok_insert_current ls e :
  storage_ok ls → storage_ok (<["catrix_current_user_email" := StoredText e]> ls).
Proof.
  intros [Hu Hs]. split.
  - by rewrite read_users_insert_current.
  - intros e'. rewrite lookup_insert_ne; [apply Hs|].
    intros H. by apply (stats_key_not_current e').
Qed.

Lemma storage_ok_delete_current ls :
  storage_ok ls → storage_ok (delete "catrix_current_user_email" ls).
Proof.
  intros [Hu Hs]. split.
  - by rewrite read_users_delete_current.
  - intros e'. rewrite lookup_delete_ne; [apply Hs|].
    intros H. by apply (stats_key_not_current e').
Qed.

Lemma storage_ok_insert_stats ls e st :
  storage_ok ls → stats_ok st → storage_ok (<[stats_key e := StoredStats st]> ls).
Proof.
  intros [Hu Hs] Hst. split.
  - by rewrite read_users_insert_stats.
  - intros e'. destruct (decide (e' = e)) as [->|Hne].
    + by rewrite lookup_insert_eq.
    + rewrite lookup_insert_ne; [apply Hs|]. intros H. by apply stats_key_inj in H.
Qed.

Lemma storage_ok_insert_users ls users :
  storage_ok ls → accounts_ok users →
  storage_ok (<["catrix_users" := StoredUsers users]> ls).
Proof.
  intros [Hu Hs] Hacc. split.
  - exists users. by rewrite read_users_insert_users.
  - intros e'. rewrite lookup_insert_ne; [apply Hs|].
    intros H. by apply (stats_key_not_users e').
Qed.

(** ** The handlers keep the state sound *)

Lemma stored_stats_ok ls u : storage_ok ls → stats_ok (stored_stats ls u).
Proof.
  intros [_ Hs]. unfold stored_stats. destruct u as [u|];
    [|apply stats_ok_noStats].
  specialize (Hs (User.email u)).
  destruct (ls !! stats_key (User.email u)) as [[|st|]|];
    try done; apply stats_ok_noStats.
Qed.

Lemma screen_Auth s : screen s = AuthScreen → user s = None.
Proof.
  unfold screen. destruct (user s); [|done].
  by destruct (App.activeTest (app s)).
Qed.

Lemma screen_Runner s test :
  screen s = RunnerScreen test →
  (∃ u, user s = Some u) ∧ App.activeTest (app s) = Some test.
Proof.
  unfold screen. destruct (user s); [|done].
  destruct (App.activeTest (app s)); [|done]. intros [= ->]. eauto.
Qed.

Lemma screen_Main s :
  screen s = MainScreen →
  (∃ u, user s = Some u) ∧ App.activeTest (app s) = None.
Proof.
  unfold screen. destruct (user s); [|done].
  destruct (App.activeTest (app s)); [done|]. eauto.
Qed.

Lemma handleLogin_ok u s :
  storage_ok (localStorage s) →
  (∃ users, read_users (localStorage s) = Some users
            ∧ users !! User.email u = Some u) →
  ∃ s', handleLogin u s = Some s' ∧ user s' = Some u
        ∧ app s' = app s ∧ view s' = view s
        ∧ localStorage s'
          = <["catrix_current_user_email" := StoredText (User.email u)]>
              (localStorage s)
        ∧ userStats s' = stored_stats (localStorage s) (Some u)
        ∧ waiting s' = waiting s ∧ runner s' = runner s
        ∧ storage_ok (localStorage s') ∧ signed_in_ok s'
        ∧ stats_ok (userStats s').
Proof.
  intros Hls Hus. pose proof Hls as [_ Hs].
  specialize (Hs (User.email u)).
  assert (∀ v : Stored,
            <["catrix_current_user_email" := v]> (localStorage s)
              !! stats_key (User.email u)
            = localStorage s !! stats_key (User.email u)) as Hlook.
  { intros v. apply lookup_insert_ne. intros H.
    by apply (stats_key_not_current (User.email u)). }
  unfold handleLogin, loadStats, stored_stats.
  cbn [localStorage setLocalStorage setUser]. rewrite Hlook.
  destruct (localStorage s !! stats_key (User.email u)) as [[|st|]|] eqn:E;
    try done.
  - eexists. split; [done|]. split_and!; try done.
    + by apply storage_ok_insert_current.
    + unfold signed_in_ok. simpl. split.
      * by rewrite lookup_insert_eq.
      * by rewrite read_users_insert_current.
  - eexists. split; [done|]. split_and!; try done.
    + by apply storage_ok_insert_current.
    + unfold signed_in_ok. simpl. split.
      * by rewrite lookup_insert_eq.
      * by rewrite read_users_insert_current.
Qed.

Lemma handleLogin_sound u s :
  storage_ok (localStorage s) →
  (∃ users, read_users (localStorage s) = Some users
            ∧ users !! User.email u = Some u) →
  Forall waiting_ok (waiting s) → tests_ok s → runner_ok s →
  ∃ s', handleLogin u s = Some s' ∧ sound s' ∧ user s' = Some u
        ∧ app s' = app s ∧ view s' = view s
        ∧ localStorage s'
          = <["catrix_current_user_email" := StoredText (User.email u)]>
              (localStorage s)
        ∧ userStats s' = stored_stats (localStorage s) (Some u).
Proof.
  intros Hls Hus Hw Ht [_ Hr].
  destruct (handleLogin_ok u s Hls Hus)
    as (s' & Hs' & Hu' & Happ & Hv & Hls' & Hst' & Hw' & Hr' & ? & ? & ?).
  exists s'. split_and!; try done.
  split_and!; try done.
  - by rewrite Hw'.
  - unfold tests_ok. by rewrite Happ.
  - unfold runner_ok. rewrite Hu', Happ, Hr'. by split.
Qed.

Lemma handleLogout_sound s :
  sound s → App.activeTest (app s) = None → sound (handleLogout s).
Proof.
  intros (Hls & _ & _ & Hw & Ht & [_ Hr]) Hnone. split_and!; try done.
  - by apply storage_ok_delete_current.
  - unfold signed_in_ok. simpl. by rewrite lookup_delete_eq.
Qed.

Lemma get_property_Own inherited users e u :
  get_property inherited users e = Own u ↔ users !! e = Some u.
Proof.
  unfold get_property. destruct (users !! e); [|destruct (inherited e)];
    split; intros; by simplify_eq.
Qed.

Lemma get_property_Missing inherited users e :
  get_property inherited users e = Missing → users !! e = None.
Proof.
  unfold get_property. by destruct (users !! e); [|destruct (inherited e)].
Qed.

Local Ltac unchanged :=
  eexists; split; [done|]; split_and!; try done;
  intros ? ? ? ? ?; simpl; simplify_eq; eauto.

Lemma handleSubmit_ok inherited now f ls :
  storage_ok ls →
  ∃ out, AuthPage.handleSubmit inherited now f ls = Some out
    ∧ storage_ok (AuthPage.storage out)
    ∧ (∀ e, AuthPage.storage out !! stats_key e = ls !! stats_key e)
    ∧ AuthPage.storage out !! "catrix_current_user_email"
      = ls !! "catrix_current_user_email"
    ∧ (∀ u, AuthPage.onLogin out = Some u →
         ∃ users, read_users (AuthPage.storage out) = Some users
                  ∧ users !! User.email u = Some u)
    ∧ (∀ users e u, read_users ls = Some users → users !! e = Some u →
         ∃ users', read_users (AuthPage.storage out) = Some users'
                   ∧ users' !! e = Some u).
Proof.
  intros Hls. pose proof Hls as [(users & Hr & Hacc) Hs].
  unfold AuthPage.handleSubmit. cbn [AuthPage.email AuthPage.password
    AuthPage.name AuthPage.isRegister AuthPage.setError].
  destruct (nonempty (AuthPage.email f)) eqn:He; simpl;
    [|by unchanged].
  destruct (nonempty (AuthPage.password f)) eqn:Hp; simpl;
    [|by unchanged].
  destruct (AuthPage.isRegister f) eqn:Hreg; simpl.
  - destruct (nonempty (AuthPage.name f)) eqn:Hn; simpl;
      [|by unchanged].
    rewrite Hr. simpl.
    destruct (get_property inherited users (AuthPage.email f)) eqn:Hg;
      try by unchanged.
    apply get_property_Missing in Hg.
    eexists; split; [done|]. simpl. split_and!.
    + apply storage_ok_insert_users; [done|].
      intros e u. destruct (decide (e = AuthPage.email f)) as [->|Hne].
      * rewrite lookup_insert_eq. intros [= <-]. simpl. split_and!; eauto.
      * rewrite lookup_insert_ne by done. apply Hacc.
    + intros e. apply lookup_insert_ne. intros H.
      by apply (stats_key_not_users e).
    + by apply lookup_insert_ne.
    + intros u [= <-]. eexists. rewrite read_users_insert_users.
      split; [done|]. simpl. by rewrite lookup_insert_eq.
    + intros users0 e u Hr0 Hu. simplify_eq.
      eexists. rewrite read_users_insert_users. split; [done|].
      rewrite lookup_insert_ne; [done|]. intros <-. by rewrite Hg in Hu.
  - rewrite Hr. simpl.
    destruct (get_property inherited users (AuthPage.email f)) as [user| |]
      eqn:Hg; try by unchanged.
    apply get_property_Own in Hg.
    destruct (decide (User.password user = Some (AuthPage.password f)));
      [|by unchanged].
    eexists; split; [done|]; split_and!; try done.
    + simpl. intros u [= <-]. exists users. split; [done|].
      destruct (Hacc _ _ Hg) as [-> _]. done.
    + intros ? ? ? ? ?; simpl; simplify_eq; eauto.
Qed.

Lemma submitAuth_sound inherited now f s :
  sound s → user s = None →
  ∃ f' s', submitAuth inherited now f s = Some (f', s') ∧ sound s'
           ∧ app s' = app s.
Proof.
  intros (Hls & Hu & Hst & Hw & Ht & Hr) Hnone. unfold signed_in_ok in Hu.
  rewrite Hnone in Hu.
  destruct (handleSubmit_ok inherited now f _ Hls)
    as (out & Hout & Hls' & Hstats & Hcur' & Hlogin & _).
  unfold submitAuth. rewrite Hout. simpl.
  destruct (AuthPage.onLogin out) as [u|] eqn:Hon.
  - destruct (handleLogin_sound u (setLocalStorage (AuthPage.storage out) s))
      as (s' & Hs' & Hsound & _ & Happ & _);
      [done|by apply Hlogin|done|done|done|].
    rewrite Hs'. simpl. eauto.
  - eexists _, _. split; [done|]. split; [|done]. split_and!; try done.
    unfold signed_in_ok. simpl. rewrite Hnone. by rewrite Hcur'.
Qed.

Lemma handleTestComplete_sound now w s :
  sound s → waiting_ok w → sound (handleTestComplete now w s).
Proof.
  intros (Hls & Hu & Hst & Hw & [Hm _] & Hr) (Hws & Hle & Hid).
  assert (stats_ok
            (UserStats.mk (UserStats.testsTaken (w_userStats w) + 1)
               (UserStats.questionsAttempted (w_userStats w) + w_total w)
               (UserStats.correctAnswers (w_userStats w) + w_score w)
               (UserStats.history (w_userStats w)
                ++ [HistoryEntry.mk now (w_testId w) (w_score w)
                      (w_total w)]))) as Hnew
    by (by apply stats_ok_add).
  unfold handleTestComplete, saveStats.
  destruct (w_user w) as [u|] eqn:Eu; simpl.
  - split_and!; try done.
    + simpl. by apply storage_ok_insert_stats.
    + unfold signed_in_ok in *. simpl.
      rewrite lookup_insert_ne by apply stats_key_not_current.
      by rewrite read_users_insert_stats.
  - split_and!; try done.
Qed.

Lemma onCancel_sound s : sound s → sound (onCancel s).
Proof.
  intros (Hls & Hu & Hst & Hw & [Hm _] & Hr). split_and!; try done.
Qed.

Lemma inRunner_sound test a e s :
  sound s → screen s = RunnerScreen test → runner s = Some a →
  sound (inRunner test a e s).
Proof.
  intros Hsound Hscr Ha.
  destruct (screen_Runner s test Hscr) as [[u Hu] Hact].
  pose proof Hsound as (Hls & Hsi & Hst & Hw & Ht & Hr).
  assert (RunnerView.scores_valid test a) as Hsv.
  { destruct Hr as [_ Hr]. rewrite Hact in Hr.
    destruct Hr as (a0 & Ha0 & Hv). by simplify_eq. }
  assert (nonempty (activeTestId s) = true) as Hid.
  { destruct Ht as [_ Ht]. destruct (Ht _ Hact) as (_ & Hid & _).
    unfold activeTestId. by rewrite Hact, Hid. }
  assert (sound
            (setWaiting
               (waiting s
                ++ ((λ score, closure score (length (Test.questions test)) s)
                    <$> drop (length (TestRunner.pending a))
                          (TestRunner.pending
                             (TestRunner.step true test a e))))
               (setRunner (Some (TestRunner.step true test a e)) s)))
    as Hgoal.
  { pose proof (scores_valid_step true test a e Hsv) as Hsv'.
    split_and!; try done.
    - simpl. apply Forall_app. split; [done|].
      apply Forall_fmap. destruct Hsv' as [Hp _].
      eapply Forall_impl; [by apply Forall_drop|].
      intros score Hle. by split_and!.
    - destruct Hr as [Hr1 _]. split; [done|]. simpl. rewrite Hact. eauto. }
  by destruct e.
Qed.

Lemma mount_sound inherited s :
  sound s →
  ∃ s', mount inherited (localStorage s) = Some s' ∧ sound s'
        ∧ user s' = user s
        ∧ userStats s' = stored_stats (localStorage s) (user s)
        ∧ localStorage s' = localStorage s
        ∧ app s' = App.mkState [] [] [] None [] ∧ view s' = Dashboard.
Proof.
  intros (Hls & Hu & _). unfold signed_in_ok in Hu.
  unfold mount, restoreSession, opened. simpl.
  destruct (user s) as [u|] eqn:Eu.
  - destruct Hu as (Hcur & (users & Hr & Hus)).
    rewrite Hcur. pose proof Hls as [(users' & Hr' & Hacc) Hs].
    rewrite Hr in Hr'. injection Hr' as <-.
    destruct (Hacc _ _ Hus) as (_ & -> & _). rewrite Hr. simpl.
    apply (get_property_Own inherited) in Hus as Hg. rewrite Hg.
    unfold loadStats, stored_stats. simpl.
    specialize (Hs (User.email u)).
    destruct (localStorage s !! stats_key (User.email u)) as [[|st|]|] eqn:E;
      try done.
    + eexists. split; [done|]. split_and!; try done.
      split_and!; try done; try (split; [constructor|done]).
      unfold signed_in_ok; simpl; split_and!; eauto.
    + eexists. split; [done|]. split_and!; try done.
      split_and!; try done; try (split; [constructor|done]).
      unfold signed_in_ok; simpl; split_and!; eauto.
  - rewrite Hu.
    eexists. split; [done|]. by split_and!.
Qed.

Lemma mocks_test_ok engine_sort precision Math_random data k :
  Forall test_ok (App.mocks engine_sort precision Math_random data k).
Proof.
  apply Forall_forall. intros t [Hpos Hin]%list_elem_of_filter.
  assert (Test.questions t ≠ []) as Hne.
  { intros Hnil. rewrite Hnil in Hpos. simpl in Hpos. lia. }
  rewrite !elem_of_cons, elem_of_nil in Hin.
  destruct Hin as [->|[->|[->|[->|[]]]]]; by split_and!.
Qed.

Lemma questionsLoaded_tests_ok localeCompare engine_sort precision
    Math_random data k s :
  tests_ok s →
  tests_ok
    (setApp (questionsLoaded localeCompare engine_sort precision Math_random
               data k (app s)).1 s).
Proof.
  intros [_ Ha]. split; simpl; [apply mocks_test_ok|done].
Qed.

Lemma startPyqTest_tests_ok year slot s :
  tests_ok s → tests_ok (setApp (App.startPyqTest year slot (app s)) s).
Proof.
  intros [Hm Ha]. unfold App.startPyqTest. case_decide as Hlen.
  - by split.
  - split; [done|]. simpl. intros t [= <-]. split_and!; simpl.
    + intros Hnil. by rewrite Hnil in Hlen.
    + done.
    + done.
Qed.

Lemma solve_onClick_tests_ok q s :
  tests_ok s → tests_ok (setApp (App.solve_onClick q (app s)) s).
Proof.
  intros [Hm Ha]. unfold App.solve_onClick.
  destruct (negb _); [|by split; [done|destruct s as [[]]]].
  split; [done|]. simpl. intros t [= <-]. by split_and!.
Qed.

Lemma mountRunner_sound s :
  storage_ok (localStorage s) → signed_in_ok s → stats_ok (userStats s) →
  Forall waiting_ok (waiting s) → tests_ok s → user s ≠ None →
  sound (mountRunner s).
Proof.
  intros Hls Hu Hst Hw Ht Hne. split_and!; try done.
  split; [done|]. simpl.
  destruct (App.activeTest (app s)) as [t|]; [|done]. simpl.
  eexists. split; [done|]. apply scores_valid_start.
Qed.

Section Reach.

Variable inherited : string → bool.
Variable localeCompare : string → string → Z.
Variable engine_sort : nat → Engine.SortTree.
Variable precision : nat.
Variable Math_random : nat → N.

Local Abbreviation step :=
  (step inherited localeCompare engine_sort precision Math_random).
Local Abbreviation run :=
  (run inherited localeCompare engine_sort precision Math_random).

Lemma step_sound s e : sound s → ∃ s', step s e = Some s' ∧ sound s'.
Proof.
  intros Hsound.
  destruct e as [f now|data k| | |v|i|i|i|re| |now].
  - unfold Browser.step. destruct (screen s) eqn:Hscr; eauto.
    destruct (submitAuth_sound inherited now f s Hsound
                (screen_Auth s Hscr)) as (f' & s' & Hs' & Hsd & _).
    rewrite Hs'. simpl. eauto.
  - eexists. split; [done|].
    destruct Hsound as (Hls & Hu & Hst & Hw & Ht & Hr).
    split_and!; try done. by apply questionsLoaded_tests_ok.
  - destruct (mount_sound inherited s Hsound) as (s' & Hs' & Hsd & _).
    eauto.
  - unfold Browser.step. destruct (screen s) eqn:Hscr; eauto.
    eexists. split; [done|]. apply handleLogout_sound; [done|].
    by destruct (screen_Main s Hscr).
  - unfold Browser.step. destruct (screen s); eauto.
  - unfold Browser.step. destruct (screen s) eqn:Hscr; eauto.
    destruct (view s); eauto.
    destruct (App.mockTests (app s) !! i) as [t|] eqn:Hi; eauto.
    eexists. split; [done|].
    destruct Hsound as (Hls & Hu & Hst & Hw & [Hm Ha] & Hr).
    destruct (screen_Main s Hscr) as [[u Eu] _].
    apply mountRunner_sound; try done; [|by simpl; rewrite Eu].
    split; [done|]. simpl. intros t' [= <-].
    eapply Forall_lookup_1; eauto.
  - unfold Browser.step. destruct (screen s) eqn:Hscr; eauto.
    destruct (view s); eauto.
    destruct (App.pyqPapers (app s) !! i) as [p|] eqn:Hi; eauto.
    eexists. split; [done|].
    destruct Hsound as (Hls & Hu & Hst & Hw & Ht & Hr).
    destruct (screen_Main s Hscr) as [[u Eu] _].
    apply mountRunner_sound; try done; [|by simpl; rewrite Eu].
    by apply startPyqTest_tests_ok.
  - unfold Browser.step. destruct (screen s) eqn:Hscr; eauto.
    destruct (view s); eauto.
    destruct (take 10 (App.questions (app s)) !! i) as [q|] eqn:Hi; eauto.
    eexists. split; [done|].
    destruct Hsound as (Hls & Hu & Hst & Hw & Ht & Hr).
    destruct (screen_Main s Hscr) as [[u Eu] _].
    apply mountRunner_sound; try done; [|by simpl; rewrite Eu].
    by apply solve_onClick_tests_ok.
  - unfold Browser.step. destruct (screen s) eqn:Hscr; eauto.
    destruct (runner s) as [a|] eqn:Ha; eauto.
    eexists. split; [done|]. by apply inRunner_sound.
  - unfold Browser.step. destruct (screen s) eqn:Hscr; eauto.
    destruct (runner s) as [a|] eqn:Ha; eauto.
    case_match; eauto.
    eexists. split; [done|]. by apply onCancel_sound.
  - unfold Browser.step. destruct (waiting s) as [|w rest] eqn:Hw; eauto.
    eexists. split; [done|].
    destruct Hsound as (Hls & Hu & Hst & Hwait & Ht & Hr).
    rewrite Hw in Hwait. apply Forall_cons in Hwait as [Hw1 Hrest].
    by apply handleTestComplete_sound.
Qed.

Lemma run_sound es s : sound s → ∃ s', run es s = Some s' ∧ sound s'.
Proof.
  revert s. induction es as [|e es IH]; intros s Hs; simpl; [eauto|].
  destruct (step_sound s e Hs) as (s1 & -> & Hs1). simpl. by apply IH.
Qed.

Lemma opened_sound : sound (opened ∅).
Proof.
  split_and!; try done; first [apply storage_ok_empty|by split].
Qed.

End Reach.

End BrowserFacts.

Section StoredKept.
Import Host Browser.

Lemma stored_kept_refl ls : stored_kept ls ls.
Proof. split; eauto. Qed.

Lemma stored_kept_trans ls1 ls2 ls3 :
  stored_kept ls1 ls2 → stored_kept ls2 ls3 → stored_kept ls1 ls3.
Proof.
  intros [Ha Hs] [Ha' Hs']. split.
  - intros users a u Hr Hu. destruct (Ha _ _ _ Hr Hu) as (users' & Hr' & Hu').
    eauto.
  - intros e st Hst. destruct (Hs _ _ Hst) as (st' & Hst'). eauto.
Qed.

Lemma stored_kept_same_items ls ls' :
  read_users ls' = read_users ls →
  (∀ e, ls' !! stats_key e = ls !! stats_key e) →
  stored_kept ls ls'.
Proof.
  intros Hr Hs. split.
  - intros users a u Hu Ha. rewrite Hr. eauto.
  - intros e st Hst. rewrite Hs. eauto.
Qed.

Lemma stored_kept_insert_current ls v :
  stored_kept ls (<["catrix_current_user_email" := v]> ls).
Proof.
  apply stored_kept_same_items; [apply read_users_insert_current|].
  intros e. apply lookup_insert_ne. intros H.
  by apply (stats_key_not_current e).
Qed.

Lemma stored_kept_delete_current ls :
  stored_kept ls (delete "catrix_current_user_email" ls).
Proof.
  apply stored_kept_same_items; [apply read_users_delete_current|].
  intros e. apply lookup_delete_ne. intros H.
  by apply (stats_key_not_current e).
Qed.

Lemma handleTestComplete_kept now w s :
  stored_kept (localStorage s) (localStorage (handleTestComplete now w s)).
Proof.
  unfold handleTestComplete, saveStats.
  destruct (w_user w) as [u|] eqn:Eu; simpl; [|apply stored_kept_refl].
  split.
  - intros users a u' Hr Ha. rewrite read_users_insert_stats. eauto.
  - intros e st He. destruct (decide (e = User.email u)) as [->|Hne].
    + rewrite lookup_insert_eq. eauto.
    + rewrite lookup_insert_ne; [eauto|]. intros H.
      by apply stats_key_inj in H.
Qed.

Lemma inRunner_kept test a e s :
  localStorage (inRunner test a e s) = localStorage s.
Proof. by destruct e. Qed.

Lemma submitAuth_kept inherited now f s f' s' :
  sound s → submitAuth inherited now f s = Some (f', s') →
  stored_kept (localStorage s) (localStorage s').
Proof.
  intros (Hls & _ & _ & Hw & Ht & Hr) Hsub.
  destruct (handleSubmit_ok inherited now f _ Hls)
    as (out & Hout & Hls' & Hstats & _ & Hlogin & Hacc).
  unfold submitAuth in Hsub. rewrite Hout in Hsub. simpl in Hsub.
  assert (stored_kept (localStorage s) (AuthPage.storage out)) as Hk.
  { split; [done|]. intros e st He. rewrite Hstats. eauto. }
  destruct (AuthPage.onLogin out) as [u|] eqn:Hon.
  - destruct (handleLogin_sound u (setLocalStorage (AuthPage.storage out) s))
      as (s1 & Hs1 & _ & _ & _ & _ & Hls1 & _);
      [done|by apply Hlogin|done|done|done|].
    rewrite Hs1 in Hsub. simpl in Hsub. injection Hsub as <- <-.
    rewrite Hls1. simpl. eapply stored_kept_trans; [done|].
    apply stored_kept_insert_current.
  - by injection Hsub as <- <-.
Qed.

Section Kept.

Variable inherited : string → bool.
Variable localeCompare : string → string → Z.
Variable engine_sort : nat → Engine.SortTree.
Variable precision : nat.
Variable Math_random : nat → N.

Local Abbreviation step :=
  (step inherited localeCompare engine_sort precision Math_random).
Local Abbreviation run :=
  (run inherited localeCompare engine_sort precision Math_random).

Lemma step_kept s e s' :
  sound s → step s e = Some s' →
  stored_kept (localStorage s) (localStorage s').
Proof.
  intros Hsound Hstep.
  destruct e as [f now|data k| | |v|i|i|i|re| |now].
  - unfold Browser.step in Hstep. destruct (screen s);
      try (injection Hstep as <-; apply stored_kept_refl).
    destruct (submitAuth inherited now f s) as [[f' s1]|] eqn:Hsub; [|done].
    simpl in Hstep. injection Hstep as <-. by eapply submitAuth_kept.
  - injection Hstep as <-. apply stored_kept_refl.
  - destruct (mount_sound inherited s Hsound)
      as (s1 & Hs1 & _ & _ & _ & Hls & _).
    simpl in Hstep. rewrite Hs1 in Hstep. injection Hstep as <-.
    rewrite Hls. apply stored_kept_refl.
  - unfold Browser.step in Hstep. destruct (screen s);
      injection Hstep as <-; try apply stored_kept_refl.
    apply stored_kept_delete_current.
  - unfold Browser.step in Hstep. destruct (screen s);
      injection Hstep as <-; apply stored_kept_refl.
  - unfold Browser.step in Hstep. destruct (screen s);
      try (injection Hstep as <-; apply stored_kept_refl).
    destruct (view s), (App.mockTests (app s) !! i);
      injection Hstep as <-; apply stored_kept_refl.
  - unfold Browser.step in Hstep. destruct (screen s);
      try (injection Hstep as <-; apply stored_kept_refl).
    destruct (view s), (App.pyqPapers (app s) !! i);
      injection Hstep as <-; apply stored_kept_refl.
  - unfold Browser.step in Hstep. destruct (screen s);
      try (injection Hstep as <-; apply stored_kept_refl).
    destruct (view s), (take 10 (App.questions (app s)) !! i);
      injection Hstep as <-; apply stored_kept_refl.
  - unfold Browser.step in Hstep. destruct (screen s);
      try (injection Hstep as <-; apply stored_kept_refl).
    destruct (runner s); injection Hstep as <-;
      [rewrite inRunner_kept|]; apply stored_kept_refl.
  - unfold Browser.step in Hstep. destruct (screen s);
      try (injection Hstep as <-; apply stored_kept_refl).
    destruct (runner s); [case_match|]; injection Hstep as <-;
      apply stored_kept_refl.
  - unfold Browser.step in Hstep. destruct (waiting s) as [|w rest];
      injection Hstep as <-; [apply stored_kept_refl|].
    apply (handleTestComplete_kept now w (setWaiting rest s)).
Qed.

Lemma run_kept es s s' :
  sound s → run es s = Some s' →
  stored_kept (localStorage s) (localStorage s').
Proof.
  revert s. induction es as [|e es IH]; intros s Hs Hrun; simpl in Hrun.
  - injection Hrun as <-. apply stored_kept_refl.
  - destruct (step_sound inherited localeCompare engine_sort precision
                Math_random s e Hs) as (s1 & Hs1 & Hsound1).
    rewrite Hs1 in Hrun. simpl in Hrun.
    eapply stored_kept_trans; [by eapply step_kept|by apply IH].
Qed.

End Kept.

End StoredKept.

Section PageTheorems.
Import Host Browser.

Variable inherited : string → bool.
Variable localeCompare : string → string → Z.
Variable engine_sort : nat → Engine.SortTree.
Variable precision : nat.
Variable Math_random : nat → N.

Local Abbreviation step :=
  (step inherited localeCompare engine_sort precision Math_random).
Local Abbreviation run :=
  (run inherited localeCompare engine_sort precision Math_random).

(** X13: whatever happens to a page opened in a browser with an empty
    storage (sign-ups and sign-ins, arrivals of the questions, reloads,
    logouts, changes of view, tests started, events of the runner, tests
    cancelled, and delays of submits that end, also after their runner is
    gone), no step meets a stored item of the wrong shape, and the
    statistics of the state, the statistics every waiting submit holds and
    all stored statistics agree with their history: [testsTaken] is its
    length, [questionsAttempted] and [correctAnswers] are the sums of its
    totals and scores, each entry has a score of at most its total and a
    test id that is not empty; so [correctAnswers] is at most
    [questionsAttempted]. *)
Theorem X13_statistics_agree_with_the_history (es : list Event) :
  ∃ s, run es (opened ∅) = Some s
    ∧ stats_ok (userStats s)
    ∧ UserStats.correctAnswers (userStats s)
      ≤ UserStats.questionsAttempted (userStats s)
    ∧ Forall (λ w, stats_ok (w_userStats w) ∧ w_score w ≤ w_total w)
        (waiting s)
    ∧ ∀ e, match localStorage s !! stats_key e with
           | None => True
           | Some (StoredStats st) =>
               stats_ok st
               ∧ UserStats.correctAnswers st ≤ UserStats.questionsAttempted st
           | Some _ => False
           end.
Proof.
  destruct (run_sound inherited localeCompare engine_sort precision
              Math_random es (opened ∅) opened_sound) as (s & Hrun & Hs).
  exists s. split; [done|].
  destruct Hs as ([_ Hls] & _ & Hst & Hw & _).
  split_and!; [done|by apply stats_ok_correct_le| |].
  - eapply Forall_impl; [done|]. by intros w (? & ? & _).
  - intros e. specialize (Hls e).
    destruct (localStorage s !! stats_key e) as [[|st|]|]; try done.
    split; [done|]. by apply stats_ok_correct_le.
Qed.

(** X14: in every state reached from a page opened on an empty storage,
    a reload gives back the same user and the same storage, with the
    statistics stored for that user; for a signed-in user, whose address
    is the one stored as current, logging out and signing in again with
    the stored password gives back that user and the same storage, with
    the statistics stored for that user; and when the delay of a submit
    ends whose callback was made for the user who is signed in, the
    statistics of the state are the stored ones. *)
Theorem X14_reload_and_sign_in_bring_user_and_statistics_back
    (es : list Event) :
  ∃ s, run es (opened ∅) = Some s
    ∧ (∃ s', step s Reload = Some s' ∧ user s' = user s
             ∧ userStats s' = stored_stats (localStorage s) (user s)
             ∧ localStorage s' = localStorage s)
    ∧ (∀ u, user s = Some u →
        localStorage s !! "catrix_current_user_email"
        = Some (StoredText (User.email u))
        ∧ ∃ p, User.password u = Some p
            ∧ ∀ now name error,
                ∃ s', step (handleLogout s)
                        (Submit (AuthPage.mkForm false (User.email u) p name
                                   error) now)
                      = Some s'
                  ∧ user s' = Some u
                  ∧ userStats s' = stored_stats (localStorage s) (Some u)
                  ∧ localStorage s' = localStorage s)
    ∧ (∀ now w rest u, waiting s = w :: rest → user s = Some u →
         w_user w = Some u →
         ∃ s', step s (DelayElapsed now) = Some s'
           ∧ user s' = Some u
           ∧ userStats s' = stored_stats (localStorage s') (user s')
           ∧ UserStats.history (userStats s')
             = UserStats.history (w_userStats w)
               ++ [HistoryEntry.mk now (w_testId w) (w_score w) (w_total w)]).
Proof.
  destruct (run_sound inherited localeCompare engine_sort precision
              Math_random es (opened ∅) opened_sound) as (s & Hrun & Hs).
  exists s. split; [done|]. split_and!.
  - destruct (mount_sound inherited s Hs)
      as (s' & Hs' & _ & Hu & Hst & Hls & _).
    exists s'. by split_and!.
  - intros u Hu. pose proof Hs as (Hls & Hsi & Hst & Hw & Ht & Hr).
    unfold signed_in_ok in Hsi. rewrite Hu in Hsi.
    destruct Hsi as (Hcur & (users & Hru & Hus)). split; [done|].
    pose proof Hls as [(users' & Hr' & Hacc) Hstats].
    rewrite Hru in Hr'. injection Hr' as <-.
    destruct (Hacc _ _ Hus) as (_ & He & _ & p & Hp & Hpne).
    exists p. split; [done|]. intros now name error.
    assert (screen (handleLogout s) = AuthScreen) as Hscr by done.
    unfold Browser.step. rewrite Hscr.
    unfold submitAuth, AuthPage.handleSubmit.
    cbn [AuthPage.email AuthPage.password AuthPage.name AuthPage.isRegister
         AuthPage.setError].
    rewrite He, Hpne.
    cbn [negb orb andb localStorage handleLogout setUserStats
         setLocalStorage setUser].
    rewrite read_users_delete_current, Hru.
    cbn [mbind option_bind].
    apply (get_property_Own inherited) in Hus as Hg. rewrite Hg.
    rewrite decide_True by done.
    cbn [mbind option_bind AuthPage.storage AuthPage.onLogin AuthPage.form].
    destruct (handleLogin_ok u
                (setLocalStorage
                   (delete "catrix_current_user_email" (localStorage s))
                   (handleLogout s)))
      as (s' & Hs' & Hu' & _ & _ & Hls' & Hst' & _).
    { simpl. by apply storage_ok_delete_current. }
    { simpl. rewrite read_users_delete_current. eauto. }
    rewrite Hs'. simpl. exists s'. split; [done|]. split; [done|].
    simpl in Hst', Hls'. split.
    + rewrite Hst'. unfold stored_stats.
      by rewrite lookup_delete_ne
        by apply not_eq_sym, stats_key_not_current.
    + rewrite Hls'. rewrite insert_delete_eq. by apply insert_id.
  - intros now w rest u Hw Hu Hwu. unfold Browser.step. rewrite Hw.
    eexists. split; [done|].
    unfold handleTestComplete, saveStats, stored_stats. rewrite Hwu. simpl.
    rewrite Hu. split; [done|]. by rewrite lookup_insert_eq.
Qed.

(** X15: in every state reached from a page opened on an empty storage,
    every listed mock and the active test have at least one question, an
    id that is not empty and a positive duration; so for the active test
    the id written to the history is its own (never ["unknown"]), its
    runner starts Running with a live interval, and after any events the
    runner's cursor is on a question. *)
Theorem X15_every_started_test_can_be_run (es : list Event) :
  ∃ s, run es (opened ∅) = Some s
    ∧ Forall test_ok (App.mockTests (app s))
    ∧ ∀ test, App.activeTest (app s) = Some test →
        test_ok test
        ∧ activeTestId s = Test.id test
        ∧ TestRunner.status (TestRunner.start test) = TestRunner.Running
        ∧ TestRunner.interval (TestRunner.start test) = true
        ∧ ∀ onFinish res,
            is_Some (Test.questions test
                     !! TestRunner.currentQ
                          (TestRunner.run onFinish test res
                             (TestRunner.start test))).
Proof.
  destruct (run_sound inherited localeCompare engine_sort precision
              Math_random es (opened ∅) opened_sound) as (s & Hrun & Hs).
  exists s. split; [done|]. destruct Hs as (_ & _ & _ & _ & [Hm Ha] & _).
  split; [done|]. intros test Ht. pose proof (Ha _ Ht) as Hok.
  destruct Hok as (Hq & Hid & Hd). split_and!.
  - done.
  - unfold activeTestId. by rewrite Ht, Hid.
  - destruct (start_positive test Hd) as (_ & Hsub & _ & Hem & _).
    unfold TestRunner.status. by rewrite Hem, Hsub.
  - by destruct (start_positive test Hd) as (? & _).
  - intros onFinish res. apply lookup_lt_is_Some.
    by apply (cursor_in_range_run onFinish test res _
                (cursor_in_range_start test)).
Qed.

(** X17: between any two states of a run of a page opened on an empty
    storage no stored item is lost: every account is still stored,
    unchanged, and every user who had statistics stored still has
    statistics stored.  (The entries of a stored history are not always
    kept: see [late_result_replaces_history].) *)
Theorem X17_nothing_stored_is_lost (es es' : list Event) :
  ∃ s s', run es (opened ∅) = Some s ∧ run es' s = Some s'
    ∧ stored_kept (localStorage s) (localStorage s').
Proof.
  destruct (run_sound inherited localeCompare engine_sort precision
              Math_random es (opened ∅) opened_sound) as (s & Hrun & Hs).
  destruct (run_sound inherited localeCompare engine_sort precision
              Math_random es' s Hs) as (s' & Hrun' & Hs').
  exists s, s'. split_and!; [done|done|]. by eapply run_kept.
Qed.

End PageTheorems.

(** The sample visit ends with the user signed in, on the progress view,
    with the one test in the statistics, which are the stored ones. *)
Lemma sample_visit_is_recorded :
  (λ s, (User.email <$> Host.user s, Host.userStats s, Host.view s,
         App.activeTest (Host.app s),
         Host.localStorage s !! Host.stats_key "a@b.c"))
    <$> Browser.run (λ _, false) codeunit_compare sample_engine 1
          sample_random sample_visit (Browser.opened ∅)
  = Some (Some "a@b.c",
          UserStats.mk 1 2 1
            [HistoryEntry.mk "2024-01-01T01:00:00.000Z" "pyq-2023-Slot 1"
               1 2],
          Progress, None,
          Some (StoredStats
                  (UserStats.mk 1 2 1
                     [HistoryEntry.mk "2024-01-01T01:00:00.000Z"
                        "pyq-2023-Slot 1" 1 2]))).
Proof. vm_compute. reflexivity. Qed.

(** A submit that waits in its delay outlives its runner and the session:
    in the late visit the result arrives after the logout, and the page
    then has no user, but the statistics of the result, which are also
    stored for the user who has left. *)
Lemma late_visit_shows_statistics_without_user :
  (λ s, (User.email <$> Host.user s, Host.userStats s,
         Host.localStorage s !! Host.stats_key "a@b.c"))
    <$> Browser.run (λ _, false) codeunit_compare sample_engine 1
          sample_random late_visit (Browser.opened ∅)
  = Some (None,
          UserStats.mk 1 2 0
            [HistoryEntry.mk "2024-01-01T01:00:00.000Z" "pyq-2023-Slot 1"
               0 2],
          Some (StoredStats
                  (UserStats.mk 1 2 0
                     [HistoryEntry.mk "2024-01-01T01:00:00.000Z"
                        "pyq-2023-Slot 1" 0 2]))).
Proof. vm_compute. reflexivity. Qed.

(** Two submits that wait hold the same statistics: the result of the
    second replaces the entry of the first in the stored history. *)
Lemma late_result_replaces_history :
  (λ s, Host.localStorage s !! Host.stats_key "a@b.c")
    <$> Browser.run (λ _, false) codeunit_compare sample_engine 1
          sample_random
          (two_attempts ++ [Browser.DelayElapsed "2024-01-01T01:00:00.000Z"])
          (Browser.opened ∅)
  = Some (Some (StoredStats
                  (UserStats.mk 1 2 0
                     [HistoryEntry.mk "2024-01-01T01:00:00.000Z"
                        "pyq-2023-Slot 1" 0 2])))
  ∧ (λ s, Host.localStorage s !! Host.stats_key "a@b.c")
      <$> Browser.run (λ _, false) codeunit_compare sample_engine 1
            sample_random
            (two_attempts
             ++ [Browser.DelayElapsed "2024-01-01T01:00:00.000Z";
                 Browser.DelayElapsed "2024-01-01T01:00:01.000Z"])
            (Browser.opened ∅)
    = Some (Some (StoredStats
                    (UserStats.mk 1 2 1
                       [HistoryEntry.mk "2024-01-01T01:00:01.000Z"
                          "pyq-2023-Slot 1" 1 2]))).
Proof. split; vm_compute; reflexivity. Qed.

Section Accounts.
Import AuthPage.

Lemma get_property_Some inherited (users : gmap string User) e u :
  users !! e = Some u → get_property inherited users e = Own u.
Proof. intros H. unfold get_property. by rewrite H. Qed.

(** X16: registering an address that is not taken, with a name and a
    password, stores the account (nothing else in the storage changes) and
    hands it to [onLogin]; afterwards a sign-in with that address and
    password hands over the same account, a sign-in with another password
    is refused with "Invalid credentials", and a second registration of
    the address is refused with "User already exists with this email",
    both without a change of the storage. *)
Theorem X16_register_then_sign_in
    (inherited : string → bool) (now later : string) (ls : Storage)
    (users : gmap string User) (name e p error : string) :
  read_users ls = Some users →
  get_property inherited users e = Missing →
  nonempty name = true → nonempty e = true → nonempty p = true →
  let account := User.mk name e (Some p) now in
  ∃ ls',
    handleSubmit inherited now (mkForm true e p name error) ls
    = Some (mkOutcome (mkForm true e p name "") ls' (Some account))
    ∧ read_users ls' = Some (<[e := account]> users)
    ∧ (∀ k, k ≠ "catrix_users" → ls' !! k = ls !! k)
    ∧ (∀ name' error',
         handleSubmit inherited later (mkForm false e p name' error') ls'
         = Some (mkOutcome (mkForm false e p name' "") ls' (Some account)))
    ∧ (∀ p' name' error', p' ≠ p → nonempty p' = true →
         handleSubmit inherited later (mkForm false e p' name' error') ls'
         = Some (mkOutcome (mkForm false e p' name' "Invalid credentials")
                   ls' None))
    ∧ (∀ p' name' error', nonempty p' = true → nonempty name' = true →
         handleSubmit inherited later (mkForm true e p' name' error') ls'
         = Some (mkOutcome
                   (mkForm true e p' name'
                      "User already exists with this email") ls' None)).
Proof.
  intros Hr Hg Hn He Hp account.
  exists (<["catrix_users" := StoredUsers (<[e := account]> users)]> ls).
  assert (get_property inherited (<[e := account]> users) e = Own account)
    as Hown by (apply get_property_Some, lookup_insert_eq).
  split_and!.
  - unfold handleSubmit. cbn [AuthPage.email AuthPage.password AuthPage.name AuthPage.isRegister AuthPage.setError].
    rewrite He, Hp, Hn. cbn [negb orb andb]. rewrite Hr.
    cbn [mbind option_bind]. by rewrite Hg.
  - apply read_users_insert_users.
  - intros k Hk. by apply lookup_insert_ne.
  - intros name' error'. unfold handleSubmit.
    cbn [AuthPage.email AuthPage.password AuthPage.name AuthPage.isRegister AuthPage.setError].
    rewrite He, Hp. cbn [negb orb andb]. rewrite read_users_insert_users.
    cbn [mbind option_bind]. rewrite Hown. by rewrite decide_True.
  - intros p' name' error' Hne Hp'. unfold handleSubmit.
    cbn [AuthPage.email AuthPage.password AuthPage.name AuthPage.isRegister AuthPage.setError].
    rewrite He, Hp'. cbn [negb orb andb]. rewrite read_users_insert_users.
    cbn [mbind option_bind]. rewrite Hown.
    rewrite decide_False; [done|]. simpl. by intros [= ->].
  - intros p' name' error' Hp' Hn'. unfold handleSubmit.
    cbn [AuthPage.email AuthPage.password AuthPage.name AuthPage.isRegister AuthPage.setError].
    rewrite He, Hp', Hn'. cbn [negb orb andb].
    rewrite read_users_insert_users.
    cbn [mbind option_bind]. by rewrite Hown.
Qed.

Lemma X16_witness :
  ∃ ls',
    handleSubmit (λ _, false) "2024-01-01T00:00:00.000Z"
      (mkForm true "a@b.c" "secret" "Asha" "") ∅
    = Some (mkOutcome (mkForm true "a@b.c" "secret" "Asha" "") ls'
              (Some (User.mk "Asha" "a@b.c" (Some "secret")
                       "2024-01-01T00:00:00.000Z")))
    ∧ read_users ls'
      = Some (<["a@b.c" := User.mk "Asha" "a@b.c" (Some "secret")
                             "2024-01-01T00:00:00.000Z"]> ∅)
    ∧ (∀ k, k ≠ "catrix_users" → ls' !! k = (∅ : Storage) !! k)
    ∧ (∀ name' error',
         handleSubmit (λ _, false) "2024-02-02T00:00:00.000Z"
           (mkForm false "a@b.c" "secret" name' error') ls'
         = Some (mkOutcome (mkForm false "a@b.c" "secret" name' "") ls'
                   (Some (User.mk "Asha" "a@b.c" (Some "secret")
                            "2024-01-01T00:00:00.000Z"))))
    ∧ (∀ p' name' error', p' ≠ "secret" → nonempty p' = true →
         handleSubmit (λ _, false) "2024-02-02T00:00:00.000Z"
           (mkForm false "a@b.c" p' name' error') ls'
         = Some (mkOutcome
                   (mkForm false "a@b.c" p' name' "Invalid credentials")
                   ls' None))
    ∧ (∀ p' name' error', nonempty p' = true → nonempty name' = true →
         handleSubmit (λ _, false) "2024-02-02T00:00:00.000Z"
           (mkForm true "a@b.c" p' name' error') ls'
         = Some (mkOutcome
                   (mkForm true "a@b.c" p' name'
                      "User already exists with this email") ls' None)).
Proof.
  apply (X16_register_then_sign_in (λ _, false) "2024-01-01T00:00:00.000Z"
           "2024-02-02T00:00:00.000Z" ∅ ∅ "Asha" "a@b.c" "secret" "");
    vm_compute; reflexivity.
Defined.

Local Ltac failed :=
  intros [= <-]; simpl; split_and!; try done;
  first [by left | by right; left | by right; right].

(** X18: a submit of the form never changes the mode, the address, the
    password or the name of the form.  If it calls [onLogin], it shows no
    error, address and password are not empty, and either it is a sign-in,
    the user is the account stored under the address, the stored password
    is the one typed and the storage is unchanged, or it is a
    registration, nothing was stored (or inherited) under the address, and
    the user is the new account, which is what is added to the storage.
    If it does not call [onLogin], the storage is unchanged and one of the
    three errors is shown. *)
Theorem X18_submit_signs_in_only_with_the_stored_password
    (inherited : string → bool) (now : string) (f : Form) (ls : Storage)
    (out : Outcome) :
  handleSubmit inherited now f ls = Some out →
  isRegister (form out) = isRegister f ∧ email (form out) = email f
  ∧ password (form out) = password f ∧ name (form out) = name f
  ∧ match onLogin out with
    | Some u =>
        error (form out) = ""
        ∧ nonempty (email f) = true ∧ nonempty (password f) = true
        ∧ ∃ users, read_users ls = Some users
            ∧ if isRegister f then
                users !! email f = None ∧ inherited (email f) = false
                ∧ nonempty (name f) = true
                ∧ u = User.mk (name f) (email f) (Some (password f)) now
                ∧ storage out
                  = <["catrix_users" := StoredUsers (<[email f := u]> users)]>
                      ls
              else
                users !! email f = Some u
                ∧ User.password u = Some (password f)
                ∧ storage out = ls
    | None =>
        storage out = ls
        ∧ (error (form out) = "Please fill all fields"
           ∨ error (form out) = "User already exists with this email"
             ∧ isRegister f = true
           ∨ error (form out) = "Invalid credentials"
             ∧ isRegister f = false)
    end.
Proof.
  unfold handleSubmit. cbn [AuthPage.email AuthPage.password AuthPage.name AuthPage.isRegister AuthPage.setError].
  destruct (nonempty (email f)) eqn:He; cbn [negb orb];
    [|failed].
  destruct (nonempty (password f)) eqn:Hp; cbn [negb orb];
    [|failed].
  destruct (isRegister f) eqn:Hreg; cbn [andb].
  - destruct (nonempty (name f)) eqn:Hn; cbn [negb];
      [|failed].
    destruct (read_users ls) as [users|] eqn:Hr; [|done].
    cbn [mbind option_bind].
    destruct (get_property inherited users (email f)) eqn:Hg;
      try (failed).
    intros [= <-]. simpl. split_and!; try done. exists users.
    split; [done|]. split_and!; try done.
    + by eapply get_property_Missing.
    + unfold get_property in Hg. destruct (users !! email f); [done|].
      by destruct (inherited (email f)).
  - destruct (read_users ls) as [users|] eqn:Hr; [|done].
    cbn [mbind option_bind].
    destruct (get_property inherited users (email f)) as [user| |] eqn:Hg;
      try (failed).
    case_decide as Hpw; [intros [= <-]; simpl|failed].
    split_and!; try done. exists users. split; [done|].
    split_and!; try done. by apply (get_property_Own inherited).
Qed.

Lemma X18_witness :
  storage
    (mkOutcome (mkForm false "a@b.c" "guess" "" "Invalid credentials")
       sample_accounts None)
  = sample_accounts
  ∧ (error (mkForm false "a@b.c" "guess" "" "Invalid credentials")
     = "Please fill all fields"
     ∨ error (mkForm false "a@b.c" "guess" "" "Invalid credentials")
       = "User already exists with this email"
       ∧ isRegister (mkForm false "a@b.c" "guess" "" "") = true
     ∨ error (mkForm false "a@b.c" "guess" "" "Invalid credentials")
       = "Invalid credentials"
       ∧ isRegister (mkForm false "a@b.c" "guess" "" "") = false).
Proof.
  assert (handleSubmit (λ _, false) "2024-02-02T00:00:00.000Z"
            (mkForm false "a@b.c" "guess" "" "") sample_accounts
          = Some (mkOutcome
                    (mkForm false "a@b.c" "guess" "" "Invalid credentials")
                    sample_accounts None)) as Hout
    by (vm_compute; reflexivity).
  exact (proj2 (proj2 (proj2 (proj2
    (X18_submit_signs_in_only_with_the_stored_password (λ _, false)
       "2024-02-02T00:00:00.000Z" _ _ _ Hout))))).
Defined.

End Accounts.
